(** * Squire: view collectives, token mixins and the Nextcloud views

    A shallow embedding of [utils/viewcollectives.py], [utils/tokens.py] and
    [nextcloud_integration/views.py].  Python exceptions are explicit
    outcomes, attribute state of a view (and the session, the database and
    the message queue) is passed explicitly. *)

From Stdlib Require Import ZArith Lia Permutation Sorted Ascii DecimalString DecimalZ.
From stdpp Require Import base strings list gmap sorting.

Local Open Scope string_scope.
Local Open Scope Z_scope.

(** ** Python values, exceptions and outcomes *)

Module Py.

(** The exception classes that the embedded modules name or that the
    libraries they call are documented to raise. *)
Inductive exn_class : Type :=
| BaseException | Exception
| TypeError | ValueError | UnicodeDecodeError | BinasciiError
| ArithmeticError | OverflowError
| LookupError | KeyError | AttributeError | AssertionError
| ImportError | ModuleNotFoundError | SyntaxError | NotImplementedError
| OSError | RequestException | ConnectionError | Timeout | ConnectTimeout
| WebdavException | OperationFailed
| ObjectDoesNotExist | DoesNotExist | MultipleObjectsReturned
| ValidationError | PermissionDenied | Http404 | DatabaseError.

#[global] Instance exn_class_eq_dec : EqDecision exn_class.
Proof. solve_decision. Defined.

(** Method resolution order of each class: the class followed by all of
    its superclasses. [ConnectionError] is the one of [requests], which
    [nextcloud_integration/views.py] imports over the builtin. *)
Definition mro (c : exn_class) : list exn_class :=
  match c with
  | BaseException => [BaseException]
  | Exception => [Exception; BaseException]
  | TypeError => [TypeError; Exception; BaseException]
  | ValueError => [ValueError; Exception; BaseException]
  | UnicodeDecodeError => [UnicodeDecodeError; ValueError; Exception; BaseException]
  | BinasciiError => [BinasciiError; ValueError; Exception; BaseException]
  | ArithmeticError => [ArithmeticError; Exception; BaseException]
  | OverflowError => [OverflowError; ArithmeticError; Exception; BaseException]
  | LookupError => [LookupError; Exception; BaseException]
  | KeyError => [KeyError; LookupError; Exception; BaseException]
  | AttributeError => [AttributeError; Exception; BaseException]
  | AssertionError => [AssertionError; Exception; BaseException]
  | ImportError => [ImportError; Exception; BaseException]
  | ModuleNotFoundError => [ModuleNotFoundError; ImportError; Exception; BaseException]
  | SyntaxError => [SyntaxError; Exception; BaseException]
  | NotImplementedError => [NotImplementedError; Exception; BaseException]
  | OSError => [OSError; Exception; BaseException]
  | RequestException => [RequestException; OSError; Exception; BaseException]
  | ConnectionError => [ConnectionError; RequestException; OSError; Exception; BaseException]
  | Timeout => [Timeout; RequestException; OSError; Exception; BaseException]
  | ConnectTimeout =>
      [ConnectTimeout; ConnectionError; Timeout; RequestException; OSError;
       Exception; BaseException]
  | WebdavException => [WebdavException; Exception; BaseException]
  | OperationFailed => [OperationFailed; WebdavException; Exception; BaseException]
  | ObjectDoesNotExist => [ObjectDoesNotExist; Exception; BaseException]
  | DoesNotExist => [DoesNotExist; ObjectDoesNotExist; Exception; BaseException]
  | MultipleObjectsReturned => [MultipleObjectsReturned; Exception; BaseException]
  | ValidationError => [ValidationError; Exception; BaseException]
  | PermissionDenied => [PermissionDenied; Exception; BaseException]
  | Http404 => [Http404; Exception; BaseException]
  | DatabaseError => [DatabaseError; Exception; BaseException]
  end.

Definition issubclass (c d : exn_class) : bool := bool_decide (d ∈ mro c).

(** A raised exception: its class, its message and, for the WebDAV
    client's [OperationFailed], the status code the server answered. *)
Record exn : Type := Exn {
  exn_cls : exn_class;
  exn_msg : string;
  actual_code : Z;
}.

Definition isinstance (e : exn) (c : exn_class) : bool := issubclass (exn_cls e) c.

(** [except (c1, c2, ...)] *)
Definition except_any (cs : list exn_class) (e : exn) : bool :=
  existsb (isinstance e) cs.

Inductive Outcome (A : Type) : Type :=
| Returns (a : A)
| Raises (e : exn).
Arguments Returns {A} a.
Arguments Raises {A} e.

Definition bind {A B} (m : Outcome A) (k : A → Outcome B) : Outcome B :=
  match m with
  | Returns a => k a
  | Raises e => Raises e
  end.

Definition returns {A} (m : Outcome A) : Prop := ∃ a, m = Returns a.

(** Values that travel in keyword arguments and in database columns. *)
Inductive value : Type :=
| PyNone
| PyBool (b : bool)
| PyInt (n : Z)
| PyStr (s : string).

#[global] Instance value_eq_dec : EqDecision value.
Proof. solve_decision. Defined.

#[global] Instance exn_eq_dec : EqDecision exn.
Proof. solve_decision. Defined.

#[global] Instance Outcome_eq_dec `{EqDecision A} : EqDecision (Outcome A).
Proof. solve_decision. Defined.

End Py.
Export Py.

Notation "'let!' x ':=' m 'in' k" := (Py.bind m (λ x, k))
  (at level 10, x name, m at level 100, k at level 200, only parsing).

(** [sorted(xs, key=f)]: Python documents the builtin as a stable sort;
    here it is a stable insertion sort on integer keys. A stable sort has
    one possible result ([stable_sort_unique] below), so the algorithm
    behind the builtin does not matter. *)
Section sorted.

Context {A : Type} (key : A → Z).

Fixpoint insert_by_key (x : A) (l : list A) : list A :=
  match l with
  | [] => [x]
  | y :: l' => if bool_decide (key x ≤ key y) then x :: y :: l'
               else y :: insert_by_key x l'
  end.

(** Elements are inserted from the back and in front of the first
    element whose key is not smaller, so that an element stays ahead of
    the later ones that share its key. *)
Definition sorted : list A → list A := foldr insert_by_key [].

Definition key_le (a b : A) : Prop := key a ≤ key b.

End sorted.

(** Requests as far as the embedded code reads them. *)
Record HttpRequest : Type := {
  user_is_authenticated : bool;
  member : option Z;
  path : string;
}.

Inductive HttpResponse : Type :=
| TemplateResponse (template : string) (status : Z)
| HttpResponseRedirect (url : string)
| AttachmentResponse (content : string) (content_type : string) (disposition : string)
| ViewResponse (body : string).

(** ** utils/viewcollectives.py *)

Module viewcollectives.

(** Class attributes and overridable methods of a config class. *)
Record ConfigAttrs : Type := {
  name : option string;
  icon_class : string;
  url_name : option string;
  url_keyword : option string;
  order_value : Z;
  namespace : option string;
  requires_login : bool;
  requires_membership : bool;
  (** what [is_enabled(self)] answers *)
  is_enabled_result : bool;
  (** [None]: the class inherits [ViewCollectiveConfig.is_accessible] *)
  is_accessible_override :
    option (HttpRequest → gmap string value → Outcome bool);
}.

(** A class object found in a module: its qualified name stands for its
    identity, [cls_mro] lists the class and all of its superclasses. *)
Record PyClass : Type := {
  cls_name : string;
  cls_mro : list string;
  cls_attrs : ConfigAttrs;
}.

(** The attribute defaults of [ViewCollectiveConfig] itself. *)
Definition ViewCollectiveConfig_attrs : ConfigAttrs := {|
  name := None; icon_class := EmptyString; url_name := None; url_keyword := None;
  order_value := 10; namespace := None;
  requires_login := true; requires_membership := true;
  is_enabled_result := true; is_accessible_override := None |}.

Definition ViewCollectiveConfig_class : PyClass := {|
  cls_name := "ViewCollectiveConfig";
  cls_mro := ["ViewCollectiveConfig"; "object"];
  cls_attrs := ViewCollectiveConfig_attrs |}.

(** A config instance: [cls(registry)]; the registry is referred to by
    its namespace. *)
Record ViewCollectiveConfig : Type := {
  cfg_class : PyClass;
  cfg_registry : string;
}.

Definition attrs (c : ViewCollectiveConfig) : ConfigAttrs := cls_attrs (cfg_class c).

(** [ViewCollectiveConfig.is_accessible(self, request)]. The signature
    takes no further keywords, so any extra keyword is a [TypeError]. *)
Definition base_is_accessible (c : ViewCollectiveConfig) (request : HttpRequest)
    (kwargs : gmap string value) : Outcome bool :=
  if bool_decide (kwargs = ∅) then
    if requires_login (attrs c) && negb (user_is_authenticated request) then Returns false
    else if requires_membership (attrs c) && bool_decide (member request = None) then Returns false
    else Returns true
  else Raises (Exn TypeError "is_accessible() got an unexpected keyword argument" 0).

Definition is_accessible (c : ViewCollectiveConfig) (request : HttpRequest)
    (kwargs : gmap string value) : Outcome bool :=
  match is_accessible_override (attrs c) with
  | Some f => f request kwargs
  | None => base_is_accessible c request kwargs
  end.

Definition is_enabled (c : ViewCollectiveConfig) : bool := is_enabled_result (attrs c).

(** What a name of a module's [__dict__] is bound to. *)
Inductive ModuleAttr : Type :=
| AttrObject
| AttrClass (cls : PyClass).

Definition Module_ : Type := list (string * ModuleAttr).

(** The installed apps and the import system. *)
Record Environment : Type := {
  get_app_configs : list string;
  import_module : string → Outcome Module_;
}.

Record ViewCollectiveRegistry : Type := {
  reg_namespace : string;
  folder_name : string;
  config_class : PyClass;
  _configs : option (list ViewCollectiveConfig);
}.

Definition issubclass (cls base : PyClass) : bool :=
  bool_decide (cls_name base ∈ cls_mro cls).

(** The inner loop of [_get_configs] over [module.__dict__.items()]. *)
Definition collect_module (self : ViewCollectiveRegistry) (module : Module_)
    (configs : list ViewCollectiveConfig) : list ViewCollectiveConfig :=
  foldl (λ configs item,
    match item.2 with
    | AttrClass cls =>
        if issubclass cls (config_class self)
           && negb (bool_decide (cls_name cls = cls_name (config_class self)))
        then
          let config := {| cfg_class := cls; cfg_registry := reg_namespace self |} in
          if is_enabled config then (configs ++ [config])%list else configs
        else configs
    | AttrObject => configs
    end) configs module.

Definition config_module_name (self : ViewCollectiveRegistry) (app : string) : string :=
  app +:+ "." +:+ folder_name self +:+ ".config".

(** The outer loop of [_get_configs] over the installed apps. *)
Fixpoint discover (imp : string → Outcome Module_) (self : ViewCollectiveRegistry)
    (apps : list string) (configs : list ViewCollectiveConfig)
    : Outcome (list ViewCollectiveConfig) :=
  match apps with
  | [] => Returns configs
  | app :: apps' =>
      match imp (config_module_name self app) with
      | Raises e =>
          if isinstance e ModuleNotFoundError then discover imp self apps' configs
          else Raises e
      | Returns module => discover imp self apps' (collect_module self module configs)
      end
  end.

Definition _get_configs (env : Environment) (self : ViewCollectiveRegistry)
    : Outcome (list ViewCollectiveConfig) :=
  let! configs := discover (import_module env) self (get_app_configs env) [] in
  Returns (sorted (λ config, order_value (attrs config)) configs).

(** The [configs] property: built on first access and kept. *)
Definition configs (env : Environment) (self : ViewCollectiveRegistry)
    : Outcome (list ViewCollectiveConfig) * ViewCollectiveRegistry :=
  match _configs self with
  | Some cs => (Returns cs, self)
  | None =>
      match _get_configs env self with
      | Returns cs =>
          (Returns cs,
           {| reg_namespace := reg_namespace self; folder_name := folder_name self;
              config_class := config_class self; _configs := Some cs |})
      | Raises e => (Raises e, self)
      end
  end.

(** The loop of [get_applicable_configs]. *)
Fixpoint applicable_loop (request : HttpRequest) (other_kwargs : gmap string value)
    (cs : list ViewCollectiveConfig) (applicable_configs : list ViewCollectiveConfig)
    : Outcome (list ViewCollectiveConfig) :=
  match cs with
  | [] => Returns applicable_configs
  | config :: cs' =>
      let! ok := is_accessible config request other_kwargs in
      applicable_loop request other_kwargs cs'
        (if ok then (applicable_configs ++ [config])%list else applicable_configs)
  end.

Definition get_applicable_configs (env : Environment) (self : ViewCollectiveRegistry)
    (request : HttpRequest) (other_kwargs : gmap string value)
    : Outcome (list ViewCollectiveConfig) * ViewCollectiveRegistry :=
  match configs env self with
  | (Returns cs, self') => (applicable_loop request other_kwargs cs [], self')
  | (Raises e, self') => (Raises e, self')
  end.

(** [ViewCollectiveViewMixin]: the attributes [__init__] leaves on the
    view. *)
Record View : Type := {
  config : ViewCollectiveConfig;
  base_view : string;
}.

(** [config or self.config]: config objects define neither [__bool__]
    nor [__len__], so an object given is true. *)
Definition or_config (config class_config : option ViewCollectiveConfig)
    : option ViewCollectiveConfig :=
  match config with
  | Some c => Some c
  | None => class_config
  end.

(** [ViewCollectiveViewMixin.__init__]; [super_init] is the next
    [__init__] of the view's class. *)
Definition __init__ (class_name : string) (class_config : option ViewCollectiveConfig)
    (super_init : Outcome string) (config : option ViewCollectiveConfig)
    : Outcome View :=
  match or_config config class_config with
  | None =>
      Raises (Exn KeyError
        (class_name +:+ " does not have a config linked did you forget to assign it "
         +:+ "in your urls in your config class? (" +:+ class_name
         +:+ ").as_view(config=self)") 0)
  | Some c =>
      let! base := super_init in
      Returns {| config := c; base_view := base |}
  end.

(** [ViewCollectiveViewMixin.dispatch] of a constructed view. *)
Definition dispatch (self : View) (check_kwargs : gmap string value)
    (super_dispatch : Outcome HttpResponse) (request : HttpRequest)
    : Outcome HttpResponse :=
  let! ok := is_accessible (config self) request check_kwargs in
  if negb ok then Raises (Exn PermissionDenied EmptyString 0) else super_dispatch.

Definition by_order (a b : ViewCollectiveConfig) : Prop :=
  order_value (attrs a) ≤ order_value (attrs b).

(** The config a module entry contributes: an instance of an enabled
    proper subclass of the registry's config class. *)
Definition config_of (self : ViewCollectiveRegistry) (item : string * ModuleAttr)
    : option ViewCollectiveConfig :=
  match item.2 with
  | AttrClass cls =>
      if issubclass cls (config_class self)
         && negb (bool_decide (cls_name cls = cls_name (config_class self)))
         && is_enabled_result (cls_attrs cls)
      then Some {| cfg_class := cls; cfg_registry := reg_namespace self |}
      else None
  | AttrObject => None
  end.

(** The configs one app contributes, in the order of its module. *)
Definition discovered_in (imp : string → Outcome Module_) (self : ViewCollectiveRegistry)
    (app : string) : list ViewCollectiveConfig :=
  match imp (config_module_name self app) with
  | Returns module => omap (config_of self) module
  | Raises _ => []
  end.

(** The import of the app's config module raises nothing but
    [ModuleNotFoundError]. *)
Definition importable (imp : string → Outcome Module_) (self : ViewCollectiveRegistry)
    (app : string) : Prop :=
  ∀ e, imp (config_module_name self app) = Raises e →
       isinstance e ModuleNotFoundError = true.

Definition with_apps (env : Environment) (apps : list string) : Environment :=
  {| get_app_configs := apps; import_module := import_module env |}.

(** [ViewCollectiveRegistry.__init__] *)
Definition Registry_init (collective_namespace folder : string)
    (config_cls : option PyClass) : ViewCollectiveRegistry :=
  {| reg_namespace := collective_namespace; folder_name := folder;
     config_class := default ViewCollectiveConfig_class config_cls;
     _configs := None |}.

(** A route of a URLconf. *)
Record URLPattern : Type := {
  pattern_route : string;
  pattern_name : option string;
}.

(** What [path(route, (urlconf, app_name, namespace))] builds. *)
Record URLResolver : Type := {
  resolver_route : string;
  url_patterns : list URLPattern;
  app_name : option string;
  resolver_namespace : option string;
}.

(** [ViewCollectiveConfig.get_urls], which subclasses replace. *)
Definition base_get_urls (c : ViewCollectiveConfig) : Outcome (list URLPattern) :=
  Raises (Exn NotImplementedError EmptyString 0).

(** [f'{self.url_keyword}/' if self.url_keyword else '']: [None] and the
    empty string are both false. *)
Definition url_key (c : ViewCollectiveConfig) : string :=
  match url_keyword (attrs c) with
  | Some k => if bool_decide (k = EmptyString) then EmptyString else k +:+ "/"
  | None => EmptyString
  end.

(** The [urls] property; [get_urls] is the method of the config's class. *)
Definition urls (get_urls : ViewCollectiveConfig → Outcome (list URLPattern))
    (c : ViewCollectiveConfig) : Outcome URLResolver :=
  let key := url_key c in
  let! patterns := get_urls c in
  Returns {| resolver_route := key; url_patterns := patterns;
             app_name := namespace (attrs c);
             resolver_namespace := namespace (attrs c) |}.

(** The loop of [ViewCollectiveRegistry.get_urls]. *)
Fixpoint urls_loop (get_urls : ViewCollectiveConfig → Outcome (list URLPattern))
    (cs : list ViewCollectiveConfig) (urlpatterns : list URLResolver)
    : Outcome (list URLResolver) :=
  match cs with
  | [] => Returns urlpatterns
  | c :: cs' =>
      let! u := urls get_urls c in
      urls_loop get_urls cs' (urlpatterns ++ [u])%list
  end.

(** [ViewCollectiveRegistry.get_urls] *)
Definition Registry_get_urls (env : Environment)
    (get_urls : ViewCollectiveConfig → Outcome (list URLPattern))
    (self : ViewCollectiveRegistry) (with_namespace : bool)
    : Outcome (list URLResolver * option string * option string)
      * ViewCollectiveRegistry :=
  let export_namespace := if with_namespace then Some (reg_namespace self) else None in
  match configs env self with
  | (Returns cs, self') =>
      (let! urlpatterns := urls_loop get_urls cs [] in
       Returns (urlpatterns, export_namespace, export_namespace), self')
  | (Raises e, self') => (Raises e, self')
  end.

(** An entry of the list [get_tabs] builds. *)
Record Tab : Type := {
  tab_name : option string;
  verbose : option string;
  tab_icon_class : string;
  url : string;
  selected : bool;
}.

(** The loop of [get_tabs]. [reverse] is Django's URL reversal;
    [same_object] is [page_config == self.config], which Python decides by
    the identity of the two objects. Adding [None] to a string is a
    [TypeError]. *)
Fixpoint tabs_loop (reverse : string → Outcome string)
    (same_object : ViewCollectiveConfig → ViewCollectiveConfig → bool)
    (self : View) (registry_namespace : string)
    (applicable_configs : list ViewCollectiveConfig) (tabs : list Tab)
    : Outcome (list Tab) :=
  match applicable_configs with
  | [] => Returns tabs
  | page_config :: rest =>
      match url_name (attrs page_config) with
      | None =>
          Raises (Exn TypeError "can only concatenate str (not NoneType) to str" 0)
      | Some n =>
          let! target := reverse (registry_namespace +:+ ":" +:+ n) in
          tabs_loop reverse same_object self registry_namespace rest
            (tabs ++ [{| tab_name := None;
                         verbose := name (attrs page_config);
                         tab_icon_class := icon_class (attrs page_config);
                         url := target;
                         selected := same_object page_config (config self) |}])%list
      end
  end.

(** [ViewCollectiveViewMixin.get_tabs]; [registry] is the object behind
    [self.config.registry], [check_kwargs] what [_get_other_check_kwargs]
    answers. *)
Definition get_tabs (env : Environment) (reverse : string → Outcome string)
    (same_object : ViewCollectiveConfig → ViewCollectiveConfig → bool)
    (self : View) (registry : ViewCollectiveRegistry) (request : HttpRequest)
    (check_kwargs : gmap string value)
    : Outcome (list Tab) * ViewCollectiveRegistry :=
  match get_applicable_configs env registry request check_kwargs with
  | (Returns applicable_configs, registry') =>
      (tabs_loop reverse same_object self (reg_namespace registry)
         applicable_configs [], registry')
  | (Raises e, registry') => (Raises e, registry')
  end.

(** A config is reachable by a request when login and membership, as far
    as the config asks for them, are there. *)
Definition meets_requirements (c : ViewCollectiveConfig) (request : HttpRequest) : bool :=
  (negb (requires_login (attrs c)) || user_is_authenticated request)
  && (negb (requires_membership (attrs c)) || bool_decide (member request ≠ None)).

(** What discovery instantiates: an enabled class below the registry's
    config class, other than that class, bound to the registry. *)
Definition proper_enabled_subclass (self : ViewCollectiveRegistry)
    (c : ViewCollectiveConfig) : Prop :=
  issubclass (cfg_class c) (config_class self) = true
  ∧ cls_name (cfg_class c) ≠ cls_name (config_class self)
  ∧ is_enabled c = true
  ∧ cfg_registry c = reg_namespace self.

(** The exception of an import that finds no module named [n]:
    [ModuleNotFoundError(name=n)]. *)
Definition module_not_found (n : string) : exn :=
  Exn ModuleNotFoundError ("No module named '" +:+ n +:+ "'") 0.

(** The exception of an import of the config submodule of [app] that
    finds the submodule, or the package it is in, not there. *)
Definition submodule_missing (self : ViewCollectiveRegistry) (app : string) (e : exn)
    : Prop :=
  e = module_not_found (config_module_name self app)
  ∨ e = module_not_found (app +:+ "." +:+ folder_name self).

(** An installation as [import_module] sees it: the modules that are
    there, and what running the top-level code of each gives, which is
    the module or any exception, that of an import of its own
    included. *)
Record Installation : Type := {
  installed_apps : list string;
  module_exists : string → bool;
  module_body : string → Outcome Module_;
}.

(** [import_module(n)]: a module that is not there is a
    [ModuleNotFoundError], one that is there is run. *)
Definition import_from (i : Installation) (n : string) : Outcome Module_ :=
  if module_exists i n then module_body i n else Raises (module_not_found n).

Definition environment_of (i : Installation) : Environment :=
  {| get_app_configs := installed_apps i; import_module := import_from i |}.

End viewcollectives.

(** ** utils/tokens.py *)

Module tokens.

(** A database record: its primary key and its columns. *)
Record Model : Type := {
  pk : Z;
  fields : gmap string value;
}.

(** [str.replace(old, new)]: every occurrence of [old], found from the
    left and without overlap, becomes [new]. [skip] counts the characters
    of an occurrence that are still to be dropped. *)
Fixpoint replace_from (old new : string) (skip : nat) (s : string) : string :=
  match s with
  | EmptyString => EmptyString
  | String c s' =>
      match skip with
      | S k => replace_from old new k s'
      | O =>
          if String.prefix old s
          then new +:+ replace_from old new (Nat.pred (String.length old)) s'
          else String c (replace_from old new O s')
      end
  end.

(** With an empty [old], Python puts [new] in front of every character
    and at the end. *)
Fixpoint intersperse_all (new s : string) : string :=
  match s with
  | EmptyString => new
  | String c s' => new +:+ String c (intersperse_all new s')
  end.

Definition str_replace (s old new : string) : string :=
  match old with
  | EmptyString => intersperse_all new s
  | _ => replace_from old new O s
  end.

(** The library calls behind [get_url_object]: Django's
    [urlsafe_base64_decode], [bytes.decode] and the conversion of the
    lookup value by the primary-key field. *)
Record ObjectClass : Type := {
  urlsafe_base64_decode : string → Outcome (list Byte.byte);
  decode : list Byte.byte → Outcome string;
  pk_to_python : string → Outcome Z;
}.

(** [object_class._default_manager.get(pk=uid)] on a table that is keyed
    by primary key. *)
Definition manager_get (cls : ObjectClass) (table : gmap Z (gmap string value))
    (uid : string) : Outcome Model :=
  let! key := pk_to_python cls uid in
  match table !! key with
  | Some row => Returns {| pk := key; fields := row |}
  | None => Raises (Exn DoesNotExist "matching query does not exist." 0)
  end.

(** A token generator ([PasswordResetTokenGenerator] or a subclass). *)
Record TokenGenerator : Type := {
  make_token : Model → string;
  check_token : Model → option string → bool;
}.

(** The class attributes of a view that uses one of the mixins. *)
Record TokenMixin : Type := {
  fail_template_name : string;
  session_token_name : string;
  token_generator : TokenGenerator;
  object_id_kwarg_name : string;
  object_class : ObjectClass;
  url_token_name : string;
  token_kwarg_name : string;
}.

(** The attributes [dispatch] sets on the view. *)
Record ViewState : Type := {
  validlink : bool;
  url_object : option Model;
}.

(** What a [dispatch] leaves behind: its response or exception, the
    view's attributes and the session. *)
Record Dispatched : Type := {
  response : Outcome HttpResponse;
  view : ViewState;
  session : gmap string string;
}.

(** The [dispatch] that follows [TokenMixinBase] in the view's class. *)
Definition NextDispatch : Type :=
  ViewState → gmap string string → HttpRequest → gmap string string → Dispatched.

Definition get_url_object_excepted : list exn_class :=
  [TypeError; ValueError; OverflowError; DoesNotExist; ValidationError].

Definition get_url_object (self : TokenMixin) (table : gmap Z (gmap string value))
    (uidb64 : string) : Outcome (option Model) :=
  match
    (let! bytes := urlsafe_base64_decode (object_class self) uidb64 in
     let! uid := decode (object_class self) bytes in
     manager_get (object_class self) table uid)
  with
  | Returns url_object => Returns (Some url_object)
  | Raises e =>
      if except_any get_url_object_excepted e then Returns None else Raises e
  end.

(** [del self.request.session[self.session_token_name]] *)
Definition delete_token (self : TokenMixin) (session : gmap string string)
    : Outcome unit * gmap string string :=
  match session !! session_token_name self with
  | Some _ => (Returns (), delete (session_token_name self) session)
  | None => (Raises (Exn KeyError (session_token_name self) 0), session)
  end.

(** [render(request, template_name)] *)
Definition render (request : HttpRequest) (template_name : string) : HttpResponse :=
  TemplateResponse template_name 200.

Definition TokenMixinBase_dispatch (self : TokenMixin) (next : NextDispatch)
    (state : ViewState) (session : gmap string string) (validlink : bool)
    (request : HttpRequest) (kwargs : gmap string string) : Dispatched :=
  if negb validlink then
    {| response := Returns (render request (fail_template_name self));
       view := state; session := session |}
  else next state session request kwargs.

Definition UrlTokenMixin_dispatch (self : TokenMixin)
    (table : gmap Z (gmap string value)) (next : NextDispatch)
    (state : ViewState) (session : gmap string string)
    (request : HttpRequest) (kwargs : gmap string string) : Dispatched :=
  match kwargs !! object_id_kwarg_name self, kwargs !! token_kwarg_name self with
  | Some uidb64, Some token =>
      let state := {| validlink := false; url_object := url_object state |} in
      match get_url_object self table uidb64 with
      | Raises e => {| response := Raises e; view := state; session := session |}
      | Returns found =>
          let state := {| validlink := false; url_object := found |} in
          let invalid :=
            TokenMixinBase_dispatch self next state session (validlink state)
              request kwargs in
          match found with
          | Some object =>
              if bool_decide (token = url_token_name self) then
                let session_token := session !! session_token_name self in
                if check_token (token_generator self) object session_token then
                  let state := {| validlink := true; url_object := found |} in
                  TokenMixinBase_dispatch self next state session (validlink state)
                    request kwargs
                else invalid
              else
                if check_token (token_generator self) object (Some token) then
                  {| response :=
                       Returns (HttpResponseRedirect
                         (str_replace (path request) token (url_token_name self)));
                     view := state;
                     session := <[session_token_name self := token]> session |}
                else invalid
          | None => invalid
          end
      end
  | _, _ =>
      {| response := Raises (Exn AssertionError EmptyString 0); view := state;
         session := session |}
  end.

Definition SessionTokenMixin_dispatch (self : TokenMixin)
    (table : gmap Z (gmap string value)) (next : NextDispatch)
    (state : ViewState) (session : gmap string string)
    (request : HttpRequest) (kwargs : gmap string string) : Dispatched :=
  match kwargs !! object_id_kwarg_name self with
  | Some uidb64 =>
      let state := {| validlink := false; url_object := url_object state |} in
      match get_url_object self table uidb64 with
      | Raises e => {| response := Raises e; view := state; session := session |}
      | Returns found =>
          let state := {| validlink := false; url_object := found |} in
          let invalid :=
            TokenMixinBase_dispatch self next state session (validlink state)
              request kwargs in
          match found with
          | Some object =>
              let session_token := session !! session_token_name self in
              if check_token (token_generator self) object session_token then
                let state := {| validlink := true; url_object := found |} in
                TokenMixinBase_dispatch self next state session (validlink state)
                  request kwargs
              else invalid
          | None => invalid
          end
      end
  | None =>
      {| response := Raises (Exn AssertionError EmptyString 0); view := state;
         session := session |}
  end.

(** [old] starts at no position of [pre] when [pre] is followed by [rest]. *)
Definition no_match_in (old pre rest : string) : Prop :=
  ∀ p1 p2, pre = p1 +:+ p2 → p2 ≠ EmptyString →
           String.prefix old (p2 +:+ rest) = false.

(** What [get_url_object] is said to do: the record under the decoded
    key, and no object for every failure on the way. *)
Definition record_or_none (cls : ObjectClass) (table : gmap Z (gmap string value))
    (uidb64 : string) : option Model :=
  match urlsafe_base64_decode cls uidb64 with
  | Returns bytes =>
      match decode cls bytes with
      | Returns uid =>
          match pk_to_python cls uid with
          | Returns key => (λ row, {| pk := key; fields := row |}) <$> table !! key
          | Raises _ => None
          end
      | Raises _ => None
      end
  | Raises _ => None
  end.

(** The failures the library calls are documented to have: Django's
    decoder turns bad input into [ValueError], [bytes.decode] raises
    [UnicodeDecodeError], the key conversion and the backend raise
    [ValueError], [TypeError], [OverflowError] or [ValidationError]. *)
Definition decode_failure (e : exn) : Prop := isinstance e ValueError = true.
Definition key_failure (e : exn) : Prop :=
  isinstance e ValueError = true ∨ isinstance e TypeError = true
  ∨ isinstance e OverflowError = true ∨ isinstance e ValidationError = true.

Definition documented_failures (cls : ObjectClass) : Prop :=
  (∀ s e, urlsafe_base64_decode cls s = Raises e → decode_failure e)
  ∧ (∀ b e, decode cls b = Raises e → decode_failure e)
  ∧ (∀ s e, pk_to_python cls s = Raises e → key_failure e).

(** The response in place of the wrapped view: the failure template. *)
Definition failed (self : TokenMixin) (request : HttpRequest) (state : ViewState)
    (session : gmap string string) : Dispatched :=
  {| response := Returns (render request (fail_template_name self));
     view := state; session := session |}.

(** Django's [PasswordResetTokenGenerator] is bound to the clock as well
    as to the object: [make_token] stamps the token with [_now()], and
    [check_token] compares the stamp with [_now()] and
    [settings.PASSWORD_RESET_TIMEOUT]. A [ClockedGenerator] takes the
    reading of the clock, in seconds, as an argument; [at_time g now] is
    the generator as a request served at [now] calls it. *)
Record ClockedGenerator : Type := {
  make_token_at : Z → Model → string;
  check_token_at : Z → Model → option string → bool;
}.

Definition at_time (g : ClockedGenerator) (now : Z) : TokenGenerator :=
  {| make_token := make_token_at g now; check_token := check_token_at g now |}.

(** What the round trip asks of the generator, and what Django's
    [check_token] does with a token of its own: the token made at
    [made] for [o] is accepted at [now] for [o'] exactly when [o'] has
    the validity-affecting fields of [o] ([hash_value], the generator's
    [_make_hash_value]) and no more than [timeout] seconds have passed
    since [made]. *)
Definition ClockedLaws {H : Type} (g : ClockedGenerator) (hash_value : Model → H)
    (timeout : Z) : Prop :=
  ∀ made now o o',
    check_token_at g now o' (Some (make_token_at g made o)) = true
    ↔ hash_value o' = hash_value o ∧ now - made ≤ timeout.

(** Django's generators answer [False] when there is no token. *)
Definition rejects_missing_token (g : TokenGenerator) : Prop :=
  ∀ o, check_token g o None = false.

(** One of the three library calls behind [get_url_object] raises [e]. *)
Definition lookup_raises (cls : ObjectClass) (uidb64 : string) (e : exn) : Prop :=
  urlsafe_base64_decode cls uidb64 = Raises e
  ∨ (∃ bytes, urlsafe_base64_decode cls uidb64 = Returns bytes
              ∧ decode cls bytes = Raises e)
  ∨ (∃ bytes uid, urlsafe_base64_decode cls uidb64 = Returns bytes
                  ∧ decode cls bytes = Returns uid
                  ∧ pk_to_python cls uid = Raises e).

End tokens.

(** ** nextcloud_integration/views.py *)

Module nextcloud.

(** The two tables the views touch; a row maps column names to values. *)
Record Database : Type := {
  ncfolder : gmap Z (gmap string value);
  ncfile : gmap Z (gmap string value);
}.

(** A model instance in memory: a copy of a row that the view may have
    changed since it was loaded. *)
Record Instance : Type := {
  inst_pk : Z;
  inst_fields : gmap string value;
}.

(** An [NCFile] instance with the related [NCFolder] instance, which the
    ORM keeps on the file once it is loaded, so that each [self.file.folder]
    is the same object. *)
Record FileInstance : Type := {
  file : Instance;
  folder : Instance;
}.

(** The WebDAV client; each call goes to the remote server and may raise
    [ConnectionError] or [OperationFailed]. *)
Record Client : Type := {
  download : Instance → Outcome string;
  exists_ : value → Outcome bool;
  ls : string → Outcome (list string);
}.

(** The site: the client [construct_client()] builds and URL reversal. *)
Record Site : Type := {
  construct_client : Client;
  reverse_lazy : string → list (string * value) → string;
}.

(** Everything a request can change: the database, the message queue of
    the request and the attributes of the view. *)
Record State : Type := {
  db : Database;
  messages : list string;
  self_file : option FileInstance;
  _client : option Client;
}.

Definition set_db (d : Database) (st : State) : State :=
  {| db := d; messages := messages st; self_file := self_file st; _client := _client st |}.
Definition set_file (f : FileInstance) (st : State) : State :=
  {| db := db st; messages := messages st; self_file := Some f; _client := _client st |}.
Definition error_msg (msg : string) (st : State) : State :=
  {| db := db st; messages := (messages st ++ [msg])%list; self_file := self_file st;
     _client := _client st |}.

(** The [client] property. *)
Definition client (site : Site) (st : State) : Client * State :=
  match _client st with
  | Some c => (c, st)
  | None =>
      (construct_client site,
       {| db := db st; messages := messages st; self_file := self_file st;
          _client := Some (construct_client site) |})
  end.

(** [instance.save(update_fields=...)]: an UPDATE of the listed columns
    of the row with the instance's key; Django raises [DatabaseError]
    when no row was affected. *)
Definition save (table : gmap Z (gmap string value)) (instance : Instance)
    (update_fields : list string) : Outcome unit * gmap Z (gmap string value) :=
  match table !! inst_pk instance with
  | Some row =>
      (Returns (),
       <[inst_pk instance :=
           foldr (λ f r, <[f := default PyNone (inst_fields instance !! f)]> r)
                 row update_fields]> table)
  | None =>
      (Raises (Exn DatabaseError "Save with update_fields did not affect any rows." 0),
       table)
  end.

Definition setattr (instance : Instance) (f : string) (v : value) : Instance :=
  {| inst_pk := inst_pk instance; inst_fields := <[f := v]> (inst_fields instance) |}.

Definition dquote : string := String (Ascii.ascii_of_nat 34) EmptyString.

Definition kwarg (o : option string) : value :=
  match o with
  | Some s => PyStr s
  | None => PyNone
  end.

Definition column (row : gmap string value) (f : string) : value :=
  default PyNone (row !! f).

(** [get_object_or_404(NCFile, folder__slug=..., slug=...)] *)
Definition get_object_or_404 (d : Database) (folder_slug slug : option string)
    : Outcome FileInstance :=
  let matches :=
    omap (λ '(k, row),
      match column row "folder_id" with
      | PyInt fk =>
          match ncfolder d !! fk with
          | Some frow =>
              if bool_decide (column frow "slug" = kwarg folder_slug)
                 && bool_decide (column row "slug" = kwarg slug)
              then Some {| file := {| inst_pk := k; inst_fields := row |};
                           folder := {| inst_pk := fk; inst_fields := frow |} |}
              else None
          | None => None
          end
      | _ => None
      end) (map_to_list (ncfile d)) in
  match matches with
  | [] => Raises (Exn Http404 "No NCFile matches the given query." 0)
  | [f] => Returns f
  | _ => Raises (Exn MultipleObjectsReturned EmptyString 0)
  end.

(** [DownloadFileview.get] *)
Definition get (site : Site) (kwargs : gmap string string) (st : State)
    : Outcome HttpResponse * State :=
  match get_object_or_404 (db st) (kwargs !! "folder_slug") (kwargs !! "file_slug") with
  | Raises e => (Raises e, st)
  | Returns f =>
      let st := set_file f st in
      let '(c, st) := client site st in
      match download c (file f) with
      | Raises e => (Raises e, st)
      | Returns file_data =>
          (Returns (AttachmentResponse file_data "application/vnd.ms-excel"
             match column (inst_fields (file f)) "file_name" with
             | PyStr n => "attachment; filename=" +:+ dquote +:+ n +:+ dquote
             | _ => "attachment; filename=" +:+ dquote +:+ "None" +:+ dquote
             end), st)
      end
  end.

(** Django's [View.dispatch] for a view that defines [get] only: GET and
    HEAD go to [get], OPTIONS is answered by the framework, every other
    method is not allowed. *)
Definition View_dispatch (get_handler : State → Outcome HttpResponse * State)
    (method : string) (st : State) : Outcome HttpResponse * State :=
  if bool_decide (method = "GET") || bool_decide (method = "HEAD") then get_handler st
  else if bool_decide (method = "OPTIONS") then (Returns (ViewResponse "options"), st)
  else (Returns (TemplateResponse "405" 405), st).

Definition failed_connection_template : string :=
  "nextcloud_integration/failed_nextcloud_link.html".

(** [NextcloudConnectionViewMixin.nextcloud_connection_failed] *)
Definition nextcloud_connection_failed (error : option exn) (st : State)
    : Outcome HttpResponse * State :=
  (Returns (TemplateResponse failed_connection_template 424), st).

(** [NextcloudConnectionViewMixin.nextcloud_operation_failed] *)
Definition nextcloud_operation_failed (error : exn) (st : State)
    : Outcome HttpResponse * State :=
  nextcloud_connection_failed None st.

(** [NextcloudConnectionViewMixin.dispatch]; [operation_failed] is the
    [nextcloud_operation_failed] of the view's class, [super_dispatch] the
    next [dispatch] of the class. *)
Definition dispatch
    (operation_failed : exn → State → Outcome HttpResponse * State)
    (super_dispatch : State → Outcome HttpResponse * State) (st : State)
    : Outcome HttpResponse * State :=
  match super_dispatch st with
  | (Returns r, st') => (Returns r, st')
  | (Raises error, st') =>
      if isinstance error ConnectionError then nextcloud_connection_failed (Some error) st'
      else if isinstance error OperationFailed then operation_failed error st'
      else (Raises error, st')
  end.

Definition folder_missing_msg : string :=
  "The folder could not be retrieved as it has been moved or renamed. "
  +:+ "It is unknown when it will be fixed as it needs to be addressed manually.".
Definition file_missing_msg : string :=
  "The file could not be retrieved as it has been moved or renamed. "
  +:+ "It is unknown when it will be fixed as it needs to be addressed manually.".
Definition unexpected_msg : string :=
  "Something unexpected occurred. Please inform the UUPS is this keeps occuring.".

(** The tail of [DownloadFileview.nextcloud_operation_failed]: queue the
    message and redirect to the folder. *)
Definition redirect_with_message (site : Site) (f : FileInstance) (msg : option string)
    (st : State) : Outcome HttpResponse * State :=
  let msg := default unexpected_msg msg in
  let st := error_msg msg st in
  (Returns (HttpResponseRedirect
     (reverse_lazy site "nextcloud:folder_view"
        [("folder_slug", column (inst_fields (folder f)) "slug")])), st).

(** [DownloadFileview.nextcloud_operation_failed] *)
Definition DownloadFileview_nextcloud_operation_failed (site : Site) (error : exn)
    (st : State) : Outcome HttpResponse * State :=
  match self_file st with
  | None => (Raises (Exn AttributeError "'DownloadFileview' object has no attribute 'file'" 0), st)
  | Some f =>
      if bool_decide (actual_code error = 404) then
        let '(c, st) := client site st in
        match exists_ c (column (inst_fields (folder f)) "folder") with
        | Raises e => (Raises e, st)
        | Returns false =>
            let f := {| file := file f;
                        folder := setattr (folder f) "is_missing" (PyBool true) |} in
            let st := set_file f st in
            match save (ncfolder (db st)) (folder f) ["is_missing"] with
            | (Raises e, _) => (Raises e, st)
            | (Returns _, t) =>
                redirect_with_message site f (Some folder_missing_msg)
                  (set_db {| ncfolder := t; ncfile := ncfile (db st) |} st)
            end
        | Returns true =>
            let '(c, st) := client site st in
            match exists_ c (column (inst_fields (file f)) "file") with
            | Raises e => (Raises e, st)
            | Returns false =>
                let f := {| file := setattr (file f) "is_missing" (PyBool true);
                            folder := folder f |} in
                let st := set_file f st in
                match save (ncfile (db st)) (file f) ["is_missing"] with
                | (Raises e, _) => (Raises e, st)
                | (Returns _, t) =>
                    redirect_with_message site f (Some file_missing_msg)
                      (set_db {| ncfolder := ncfolder (db st); ncfile := t |} st)
                end
            | Returns true => redirect_with_message site f None st
            end
        end
      else redirect_with_message site f None st
  end.

(** [DownloadFileview.dispatch], inherited from the mixin. *)
Definition DownloadFileview_dispatch (site : Site) (method : string)
    (kwargs : gmap string string) (st : State) : Outcome HttpResponse * State :=
  dispatch (DownloadFileview_nextcloud_operation_failed site)
    (View_dispatch (get site kwargs) method) st.

(** [FileBrowserView.dispatch]: the mixin's [dispatch] inside another
    [try]. A handler that ends without [return] answers [None]. *)
Definition FileBrowserView_dispatch
    (super_dispatch : State → Outcome HttpResponse * State)
    (st : State) : Outcome (option HttpResponse) * State :=
  match dispatch nextcloud_operation_failed super_dispatch st with
  | (Returns r, st') => (Returns (Some r), st')
  | (Raises e, st') =>
      if isinstance e OperationFailed then
        if bool_decide (actual_code e = 404)
        then (Returns (Some (TemplateResponse
                "nextcloud_integration/browser_not_exist.html" 200)), st')
        else (Returns None, st')
      else (Raises e, st')
  end.

(** Two rows that agree on every column outside [fs]. *)
Definition agree_outside (fs : list string) (r r' : gmap string value) : Prop :=
  ∀ g, g ∉ fs → r' !! g = r !! g.

(** Two tables with the same keys whose rows agree outside [fs]. *)
Definition table_frame (fs : list string) (t t' : gmap Z (gmap string value)) : Prop :=
  ∀ k, option_Forall2 (agree_outside fs) (t !! k) (t' !! k).

(** [get_object_or_404(NCFolder, <column>=value)] *)
Definition get_folder_or_404 (d : Database) (col : string) (v : value) : Outcome Instance :=
  match filter (λ kr, column kr.2 col = v) (map_to_list (ncfolder d)) with
  | [] => Raises (Exn Http404 "No NCFolder matches the given query." 0)
  | [(k, row)] => Returns {| inst_pk := k; inst_fields := row |}
  | _ => Raises (Exn MultipleObjectsReturned EmptyString 0)
  end.

(** [FolderMixin.setup], after the next [setup]: the folder it leaves in
    [self.folder]. *)
Definition FolderMixin_setup (d : Database) (kwargs : gmap string string)
    : Outcome Instance :=
  get_folder_or_404 d "slug" (PyStr (default EmptyString (kwargs !! "folder_slug"))).

(** What a template context holds. *)
Inductive ContextValue : Type :=
| CtxValue (v : value)
| CtxInstance (i : Instance)
| CtxInstances (l : list Instance)
| CtxView.

(** [FolderMixin.get_context_data]; [context] is what the next
    [get_context_data] returned. *)
Definition FolderMixin_get_context_data (context : gmap string ContextValue)
    (self_folder : Instance) : gmap string ContextValue :=
  <["folder" := CtxInstance self_folder]> context.

(** [folder.ncfile_set.all()] *)
Definition ncfile_set (d : Database) (f : Instance) : list Instance :=
  omap (λ kr, if bool_decide (column kr.2 "folder_id" = PyInt (inst_pk f))
              then Some {| inst_pk := kr.1; inst_fields := kr.2 |} else None)
       (map_to_list (ncfile d)).

(** [NCFolder.objects.all()] *)
Definition all_folders (d : Database) : list Instance :=
  (λ kr, {| inst_pk := kr.1; inst_fields := kr.2 |}) <$> map_to_list (ncfolder d).

(** [FolderView.get_context_data]; [context] is what the next
    [get_context_data] returned (for a [TemplateView]: the URL keywords and
    the view). A path is true when it is a non-empty string. *)
Definition FolderView_get_context_data (d : Database) (kwargs : gmap string string)
    (context : gmap string ContextValue) : Outcome (gmap string ContextValue) :=
  match kwargs !! "path" with
  | Some (String c p) =>
      let! found := get_folder_or_404 d "path" (PyStr (String c p)) in
      let context := <["folders" := CtxInstance found]> context in
      match context !! "folder" with
      | None => Raises (Exn KeyError "folder" 0)
      | Some (CtxInstance f) =>
          Returns (<["files" := CtxInstances (ncfile_set d f)]> context)
      | Some _ =>
          Raises (Exn AttributeError "object has no attribute 'ncfile_set'" 0)
      end
  | _ => Returns (<["folders" := CtxInstances (all_folders d)]> context)
  end.

(** Where [DownloadFileview.nextcloud_operation_failed] redirects to. *)
Definition folder_url (site : Site) (f : FileInstance) : string :=
  reverse_lazy site "nextcloud:folder_view"
    [("folder_slug", column (inst_fields (folder f)) "slug")].

(** The row of an instance with [is_missing] set. *)
Definition marked_missing (row : gmap string value) : gmap string value :=
  <["is_missing" := PyBool true]> row.

End nextcloud.

(** ** activity_calendar/migrations/0023_activityslot_link_to_activitymoment.py *)

Module migration_0023.

(** The columns of the three tables that the data migration reads or
    writes; dates are points in time. *)
Record Activity : Type := {
  start_date : Z;
  activity_title : string;
}.

Record ActivityMoment : Type := {
  moment_parent_activity : Z;
  moment_recurrence_id : Z;
  (** the other columns, which [get_or_create] leaves at their defaults *)
  moment_local : gmap string value;
}.

(** A slot between the schema steps around [RunPython]: all three links
    are nullable there. *)
Record ActivitySlot : Type := {
  slot_title : string;
  parent_activity : option Z;
  recurrence_id : option Z;
  parent_activitymoment : option Z;
}.

Record Tables : Type := {
  activities : gmap Z Activity;
  moments : gmap Z ActivityMoment;
  slots : gmap Z ActivitySlot;
}.

(** The two warnings of [forwards_func], by their arguments. *)
Inductive LogRecord : Type :=
| FaultySlot (slot_id : Z) (start : Z)
| MomentCreated (slot_id moment_id : Z) (title : string) (activity_id : Z)
    (title_of_activity : string).

(** The key the database gives a new row: above every key in use. *)
Definition next_id (ms : gmap Z ActivityMoment) : Z :=
  1 + foldr Z.max 0 (map_to_list ms).*1.

(** The rows [get(parent_activity=a, recurrence_id=r)] selects. *)
Definition matching (ms : gmap Z ActivityMoment) (a r : Z) : list (Z * ActivityMoment) :=
  filter (λ km, moment_parent_activity km.2 = a ∧ moment_recurrence_id km.2 = r)
         (map_to_list ms).

(** [ActivityMoment.objects.get_or_create(parent_activity=a, recurrence_id=r)]:
    the key of the moment and whether it is new. *)
Definition get_or_create (ms : gmap Z ActivityMoment) (a r : Z)
    : Outcome (Z * bool) * gmap Z ActivityMoment :=
  match matching ms a r with
  | [] =>
      let id := next_id ms in
      (Returns (id, true),
       <[id := {| moment_parent_activity := a; moment_recurrence_id := r;
                  moment_local := ∅ |}]> ms)
  | [km] => (Returns (km.1, false), ms)
  | _ => (Raises (Exn MultipleObjectsReturned EmptyString 0), ms)
  end.

(** The body of the loop of [forwards_func] for one slot of the query.
    A slot without parent activity has nothing to read [start_date] from
    ([AttributeError]) and no activity to create a moment for (the
    database refuses the row). *)
Definition forwards_step (d : Tables) (log : list LogRecord) (id : Z)
    (slot : ActivitySlot) : Outcome (Tables * list LogRecord) :=
  match parent_activity slot with
  | None =>
      match recurrence_id slot with
      | None =>
          Raises (Exn AttributeError
                    "'NoneType' object has no attribute 'start_date'" 0)
      | Some _ =>
          Raises (Exn DatabaseError
                    "IntegrityError: NOT NULL constraint failed: parent_activity_id" 0)
      end
  | Some a =>
      match activities d !! a with
      | None => Raises (Exn DoesNotExist "ActivitySlot has no parent_activity." 0)
      | Some activity =>
          let '(r, log) :=
            match recurrence_id slot with
            | None => (start_date activity,
                       (log ++ [FaultySlot id (start_date activity)])%list)
            | Some r => (r, log)
            end in
          match get_or_create (moments d) a r with
          | (Raises e, _) => Raises e
          | (Returns (moment, is_new), ms) =>
              let log :=
                if is_new
                then (log ++ [MomentCreated id moment (slot_title slot) a
                                (activity_title activity)])%list
                else log in
              Returns
                ({| activities := activities d; moments := ms;
                    slots := <[id := {| slot_title := slot_title slot;
                                        parent_activity := Some a;
                                        recurrence_id := Some r;
                                        parent_activitymoment := Some moment |}]>
                               (slots d) |}, log)
          end
      end
  end.

(** The loop over the slots the query returned. *)
Fixpoint forwards_loop (all : list (Z * ActivitySlot)) (d : Tables)
    (log : list LogRecord) : Outcome (Tables * list LogRecord) :=
  match all with
  | [] => Returns (d, log)
  | (id, slot) :: rest =>
      let! next := forwards_step d log id slot in
      forwards_loop rest next.1 next.2
  end.

(** [forwards_func]: the tables and the warnings it ends with. The
    migration runs in a transaction, an exception leaves nothing behind. *)
Definition forwards_func (d : Tables) : Outcome (Tables * list LogRecord) :=
  forwards_loop (map_to_list (slots d)) d [].

(** The body of the loop of [backwards_func]. *)
Definition backwards_step (d : Tables) (id : Z) (slot : ActivitySlot) : Outcome Tables :=
  match parent_activitymoment slot with
  | None =>
      Raises (Exn AttributeError
                "'NoneType' object has no attribute 'parent_activity'" 0)
  | Some mid =>
      match moments d !! mid with
      | None => Raises (Exn DoesNotExist "ActivitySlot has no parent_activitymoment." 0)
      | Some moment =>
          match activities d !! moment_parent_activity moment with
          | None => Raises (Exn DoesNotExist "ActivityMoment has no parent_activity." 0)
          | Some _ =>
              Returns
                {| activities := activities d; moments := moments d;
                   slots := <[id := {| slot_title := slot_title slot;
                                       parent_activity := Some (moment_parent_activity moment);
                                       recurrence_id := Some (moment_recurrence_id moment);
                                       parent_activitymoment := Some mid |}]>
                              (slots d) |}
          end
      end
  end.

Fixpoint backwards_loop (all : list (Z * ActivitySlot)) (d : Tables) : Outcome Tables :=
  match all with
  | [] => Returns d
  | (id, slot) :: rest =>
      let! next := backwards_step d id slot in
      backwards_loop rest next
  end.

Definition backwards_func (d : Tables) : Outcome Tables :=
  backwards_loop (map_to_list (slots d)) d.

(** The two [RemoveField] operations, and their reversal, leave the
    slots without [parent_activity] and [recurrence_id]. *)
Definition without_old_columns (d : Tables) : Tables :=
  {| activities := activities d; moments := moments d;
     slots := (λ slot, {| slot_title := slot_title slot; parent_activity := None;
                          recurrence_id := None;
                          parent_activitymoment := parent_activitymoment slot |})
              <$> slots d |}.

(** The recurrence a slot is filed under: its own, or the start of its
    activity. *)
Definition effective_recurrence (d : Tables) (slot : ActivitySlot) : option Z :=
  match recurrence_id slot with
  | Some r => Some r
  | None => a ← parent_activity slot; start_date <$> activities d !! a
  end.

(** A slot is linked: it points to a moment of its activity and
    recurrence. *)
Definition linked (d : Tables) (slot : ActivitySlot) : Prop :=
  ∃ a r mid moment,
    parent_activity slot = Some a ∧ recurrence_id slot = Some r
    ∧ parent_activitymoment slot = Some mid
    ∧ moments d !! mid = Some moment
    ∧ moment_parent_activity moment = a ∧ moment_recurrence_id moment = r
    ∧ is_Some (activities d !! a).

(** No two moments of one activity share a recurrence. *)
Definition unique_moments (ms : gmap Z ActivityMoment) : Prop :=
  ∀ i j m n, ms !! i = Some m → ms !! j = Some n →
    moment_parent_activity m = moment_parent_activity n →
    moment_recurrence_id m = moment_recurrence_id n → i = j.

(** Every slot has a parent activity that exists. *)
Definition slots_have_activity (d : Tables) : Prop :=
  ∀ id slot, slots d !! id = Some slot →
    ∃ a, parent_activity slot = Some a ∧ is_Some (activities d !! a).

(** The moments the warnings announce. *)
Definition created (log : list LogRecord) : list Z :=
  omap (λ l, match l with MomentCreated _ mid _ _ _ => Some mid | _ => None end) log.

(** The row [forwards_func] saves for a slot. *)
Definition relinked (slot : ActivitySlot) (a r mid : Z) : ActivitySlot :=
  {| slot_title := slot_title slot; parent_activity := Some a;
     recurrence_id := Some r; parent_activitymoment := Some mid |}.

(** What [forwards_func] is to do with one slot of activity [a]: file it
    under its effective recurrence [r] and link it to moment [mid]. *)
Definition relinks (d d' : Tables) (id : Z) (slot : ActivitySlot) : Prop :=
  ∃ a r mid moment,
    parent_activity slot = Some a ∧ is_Some (activities d !! a)
    ∧ effective_recurrence d slot = Some r
    ∧ slots d' !! id = Some (relinked slot a r mid)
    ∧ moments d' !! mid = Some moment
    ∧ moment_parent_activity moment = a ∧ moment_recurrence_id moment = r.

End migration_0023.

(** ** Sample data: an installation, an account-linking flow, a mirrored folder *)

Module committee_pages_site.
Import viewcollectives.

Definition config_subclass (n : string) (order : Z) (login enabled : bool) : PyClass := {|
  cls_name := n;
  cls_mro := [n; "ViewCollectiveConfig"; "object"];
  cls_attrs := {|
    name := Some n; icon_class := "fas fa-users"; url_name := Some "home";
    url_keyword := Some n; order_value := order; namespace := None;
    requires_login := login; requires_membership := login;
    is_enabled_result := enabled; is_accessible_override := None |} |}.

Definition info_class := config_subclass "InfoConfig" 10 false true.
Definition members_class := config_subclass "MembersConfig" 5 true true.
Definition agenda_class := config_subclass "AgendaConfig" 5 false true.
Definition beta_class := config_subclass "BetaConfig" 1 true false.

Definition committees_module : Module_ :=
  [("path", AttrObject);
   ("ViewCollectiveConfig", AttrClass ViewCollectiveConfig_class);
   ("InfoConfig", AttrClass info_class);
   ("MembersConfig", AttrClass members_class);
   ("BetaConfig", AttrClass beta_class)].

Definition calendar_module : Module_ := [("AgendaConfig", AttrClass agenda_class)].

Definition no_module (n : string) : exn :=
  Exn ModuleNotFoundError ("No module named '" +:+ n +:+ "'") 0.

Definition site_imports (n : string) : Outcome Module_ :=
  if bool_decide (n = "committees.committee_pages.config") then Returns committees_module
  else if bool_decide (n = "activity_calendar.committee_pages.config") then Returns calendar_module
  else if bool_decide (n = "inventory.committee_pages.config")
       then Raises (Exn SyntaxError "invalid syntax" 0)
  else Raises (no_module n).

Definition site : Environment :=
  {| get_app_configs := ["core"; "committees"; "activity_calendar"];
     import_module := site_imports |}.

Definition broken_site : Environment :=
  {| get_app_configs := ["core"; "committees"; "inventory"; "activity_calendar"];
     import_module := site_imports |}.

Definition registry : ViewCollectiveRegistry :=
  {| reg_namespace := "committees"; folder_name := "committee_pages";
     config_class := ViewCollectiveConfig_class; _configs := None |}.

Definition instance (cls : PyClass) : ViewCollectiveConfig :=
  {| cfg_class := cls; cfg_registry := "committees" |}.

Definition anonymous : HttpRequest :=
  {| user_is_authenticated := false; member := None; path := "/committees/" |}.

End committee_pages_site.

Module link_account_flow.
Import tokens.

Definition bad_input (msg : string) : exn := Exn ValueError msg 0.

(** The decoder on the ids the flow uses; anything else is rejected the
    way Django's decoder rejects it. *)
Definition toy_b64decode (s : string) : Outcome (list Byte.byte) :=
  if bool_decide (s = "MQ") then Returns [Byte.x31]
  else if bool_decide (s = "Mg") then Returns [Byte.x32]
  else if bool_decide (s = "OTk") then Returns [Byte.x39; Byte.x39]
  else if bool_decide (s = "_w") then Returns [Byte.xff]
  else Raises (bad_input "Incorrect padding").

Definition toy_decode (b : list Byte.byte) : Outcome string :=
  if forallb (λ x, (Byte.to_N x <? 128)%N) b then Returns (String.string_of_list_byte b)
  else Raises (Exn UnicodeDecodeError "invalid start byte" 0).

Definition toy_pk (s : string) : Outcome Z :=
  if bool_decide (s = "1") then Returns 1
  else if bool_decide (s = "2") then Returns 2
  else if bool_decide (s = "99") then Raises (Exn OverflowError "int too big" 0)
  else Raises (bad_input "Field 'id' expected a number").

Definition users : ObjectClass :=
  {| urlsafe_base64_decode := toy_b64decode; decode := toy_decode; pk_to_python := toy_pk |}.

Definition password (o : Model) : string :=
  match fields o !! "password" with
  | Some (PyStr s) => s
  | _ => EmptyString
  end.

(** A generator whose token spells out the fields it is bound to. *)
Definition plain_generator : TokenGenerator :=
  {| make_token := λ o, "tk-" +:+ password o;
     check_token := λ o tok, bool_decide (tok = Some ("tk-" +:+ password o)) |}.

Definition link_view : TokenMixin :=
  {| fail_template_name := "core/user_accounts/link_fail.html";
     session_token_name := "_link_account_token";
     token_generator := plain_generator;
     object_id_kwarg_name := "uidb64";
     object_class := users;
     url_token_name := "link-account";
     token_kwarg_name := "token" |}.

Definition user_rows (pw1 : string) : gmap Z (gmap string value) :=
  {[ 1 := {[ "password" := PyStr pw1 ]}; 2 := {[ "password" := PyStr "s3cret" ]} ]}.

Definition alice (pw : string) : Model :=
  {| pk := 1; fields := {[ "password" := PyStr pw ]} |}.

Definition form_view : NextDispatch :=
  λ state session request kwargs,
    {| response := Returns (ViewResponse "link account form");
       view := state; session := session |}.

Definition fresh : ViewState := {| validlink := false; url_object := None |}.

Definition link_request (token : string) : HttpRequest :=
  {| user_is_authenticated := true; member := None;
     path := "/account/link/MQ/" +:+ token +:+ "/" |}.

Definition link_kwargs (uidb64 token : string) : gmap string string :=
  {[ "uidb64" := uidb64; "token" := token ]}.

Definition stored : gmap string string := {[ "_link_account_token" := "tk-hunter2" ]}.

End link_account_flow.

Module minutes_mirror.
Import nextcloud.

Definition minutes : gmap string value :=
  {[ "slug" := PyStr "minutes"; "folder" := PyStr "/Minutes";
     "display_name" := PyStr "Minutes"; "is_missing" := PyBool false ]}.

Definition january : gmap string value :=
  {[ "slug" := PyStr "january"; "folder_id" := PyInt 7;
     "file" := PyStr "/Minutes/january.xlsx"; "file_name" := PyStr "january.xlsx";
     "is_missing" := PyBool false ]}.

Definition mirror : Database :=
  {| ncfolder := {[ 7 := minutes ]}; ncfile := {[ 3 := january ]} |}.

Definition start : State :=
  {| db := mirror; messages := []; self_file := None; _client := None |}.

Definition not_found : exn := Exn OperationFailed "Failed to download" 404.
Definition unreachable : exn := Exn ConnectionError "Connection refused" 0.

Definition urls (viewname : string) (kwargs : list (string * value)) : string :=
  match kwargs with
  | [(_, PyStr slug)] => "/nextcloud/" +:+ slug +:+ "/"
  | _ => "/nextcloud/"
  end.

(** The remote lost the folder. *)
Definition folder_gone : Site :=
  {| construct_client :=
       {| download := λ _, Raises not_found;
          exists_ := λ _, Returns false;
          ls := λ _, Raises not_found |};
     reverse_lazy := urls |}.

(** The remote answers the download with 404 and is out of reach when
    the handler asks whether the folder exists. *)
Definition lost_midway : Site :=
  {| construct_client :=
       {| download := λ _, Raises not_found;
          exists_ := λ _, Raises unreachable;
          ls := λ _, Raises unreachable |};
     reverse_lazy := urls |}.

Definition download_kwargs : gmap string string :=
  {[ "folder_slug" := "minutes"; "file_slug" := "january" ]}.

End minutes_mirror.

(** Routes, URL reversal and object identity for the sample installation. *)
Module committee_pages_routes.
Import viewcollectives committee_pages_site.

Definition home_route : URLPattern :=
  {| pattern_route := EmptyString; pattern_name := Some "home" |}.

(** Every sample class but [InfoConfig] defines [get_urls]. *)
Definition sample_get_urls (c : ViewCollectiveConfig) : Outcome (list URLPattern) :=
  if bool_decide (cls_name (cfg_class c) = "InfoConfig") then base_get_urls c
  else Returns [home_route].

Definition all_get_urls (c : ViewCollectiveConfig) : Outcome (list URLPattern) :=
  Returns [home_route].

Definition sample_reverse (n : string) : Outcome string :=
  if bool_decide (n = "committees:home") then Returns "/committees/"
  else Raises (Exn Exception "NoReverseMatch" 0).

(** The sample registry holds one instance per class. *)
Definition same_class (a b : ViewCollectiveConfig) : bool :=
  bool_decide (cls_name (cfg_class a) = cls_name (cfg_class b)).

Definition agenda_view : View :=
  {| config := instance agenda_class; base_view := "TemplateView" |}.

Definition member_request : HttpRequest :=
  {| user_is_authenticated := true; member := Some 12; path := "/committees/" |}.

(** A class that leaves [url_name] at its default. *)
Definition nameless_class : PyClass := {|
  cls_name := "NamelessConfig";
  cls_mro := ["NamelessConfig"; "ViewCollectiveConfig"; "object"];
  cls_attrs := {|
    name := Some "Nameless"; icon_class := EmptyString; url_name := None;
    url_keyword := None; order_value := 10; namespace := None;
    requires_login := false; requires_membership := false;
    is_enabled_result := true; is_accessible_override := None |} |}.

Definition sorted_site : list ViewCollectiveConfig :=
  [instance members_class; instance agenda_class; instance info_class].

Definition cached_registry (cs : list ViewCollectiveConfig) : ViewCollectiveRegistry :=
  {| reg_namespace := "committees"; folder_name := "committee_pages";
     config_class := ViewCollectiveConfig_class; _configs := Some cs |}.

End committee_pages_routes.

(** A backend that loses its connection, for the account-linking flow. *)
Module link_account_outage.
Import tokens link_account_flow.

Definition connection_lost : exn := Exn DatabaseError "server closed the connection" 0.

Definition users_offline : ObjectClass :=
  {| urlsafe_base64_decode := toy_b64decode; decode := toy_decode;
     pk_to_python := λ _, Raises connection_lost |}.

Definition offline_view : TokenMixin :=
  {| fail_template_name := "core/user_accounts/link_fail.html";
     session_token_name := "_link_account_token";
     token_generator := plain_generator;
     object_id_kwarg_name := "uidb64";
     object_class := users_offline;
     url_token_name := "link-account";
     token_kwarg_name := "token" |}.

End link_account_outage.

(** The account-linking flow with a generator that reads the clock. *)
Module link_account_clock.
Import tokens link_account_flow.

(** The reading of the clock as the token carries it, in decimal. *)
Definition stamp (t : Z) : string := NilEmpty.string_of_int (Z.to_int t).

Definition stamp_time (s : string) : option Z := Z.of_int <$> NilEmpty.int_of_string s.

(** The token up to its first colon, and what follows the colon. *)
Fixpoint split_stamp (tok : string) : option (string * string) :=
  match tok with
  | EmptyString => None
  | String c rest =>
      if Ascii.eqb c ":"%char then Some (EmptyString, rest)
      else (λ sr, (String c sr.1, sr.2)) <$> split_stamp rest
  end.

(** Three days, Django's default [PASSWORD_RESET_TIMEOUT]. *)
Definition reset_timeout : Z := 259200.

(** A generator whose token spells out what Django's hashes: the time it
    was made at and the fields it is bound to. *)
Definition expiring_generator : ClockedGenerator :=
  {| make_token_at := λ made o, stamp made +:+ ":" +:+ password o;
     check_token_at := λ now o tok,
       match tok ≫= split_stamp with
       | Some (s, bound) =>
           match stamp_time s with
           | Some made =>
               bool_decide (bound = password o)
               && bool_decide (now - made ≤ reset_timeout)
           | None => false
           end
       | None => false
       end |}.

(** The linking view as a request served at [now] finds it. *)
Definition link_view_at (now : Z) : TokenMixin :=
  {| fail_template_name := "core/user_accounts/link_fail.html";
     session_token_name := "_link_account_token";
     token_generator := at_time expiring_generator now;
     object_id_kwarg_name := "uidb64";
     object_class := users;
     url_token_name := "link-account";
     token_kwarg_name := "token" |}.

(** The link is mailed at [mailed], followed an hour later, and the form
    is sent within the three days or after them. *)
Definition mailed : Z := 800000000.
Definition followed : Z := mailed + 3600.
Definition in_time : Z := mailed + reset_timeout.
Definition too_late : Z := mailed + reset_timeout + 1.

Definition mailed_token : string := Eval vm_compute in
  make_token_at expiring_generator mailed (alice "hunter2").

End link_account_clock.

(** An installation in which a config module is there and cannot be
    imported: it imports a library that is not installed. *)
Module committee_pages_missing_library.
Import viewcollectives committee_pages_site.

Definition nextcloud_config : string := "nextcloud_integration.committee_pages.config".

Definition modules_there (n : string) : bool :=
  bool_decide (n ∈ ["committees.committee_pages.config";
                    "activity_calendar.committee_pages.config";
                    nextcloud_config]).

(** The config module of [nextcloud_integration] starts with
    [import easywebdav]. *)
Definition run_module (n : string) : Outcome Module_ :=
  if bool_decide (n = nextcloud_config) then Raises (module_not_found "easywebdav")
  else site_imports n.

Definition missing_library : Installation :=
  {| installed_apps := ["core"; "committees"; "nextcloud_integration"; "activity_calendar"];
     module_exists := modules_there;
     module_body := run_module |}.

End committee_pages_missing_library.

(** More remotes for the mirrored folder. *)
Module minutes_mirror_remotes.
Import nextcloud minutes_mirror.

Definition remote (download_answer : Outcome string) (there : value → bool) : Site :=
  {| construct_client :=
       {| download := λ _, download_answer;
          exists_ := λ v, Returns (there v);
          ls := λ _, Returns [] |};
     reverse_lazy := urls |}.

Definition healthy : Site := remote (Returns "PK...") (λ _, true).

(** The folder is there, the file is not. *)
Definition file_gone : Site :=
  remote (Raises not_found) (λ v, bool_decide (v = PyStr "/Minutes")).

Definition server_error : Site :=
  remote (Raises (Exn OperationFailed "Failed to download" 500)) (λ _, true).

Definition offline : Site := remote (Raises unreachable) (λ _, true).

Definition january_file : FileInstance :=
  {| file := {| inst_pk := 3; inst_fields := january |};
     folder := {| inst_pk := 7; inst_fields := minutes |} |}.

Definition unknown_kwargs : gmap string string :=
  {[ "folder_slug" := "minutes"; "file_slug" := "february" ]}.

Definition archive : Database :=
  {| ncfolder := {[ 7 := <["path" := PyStr "Minutes"]> minutes ]};
     ncfile := {[ 3 := january ]} |}.

Definition browse_kwargs : gmap string string := {[ "path" := "Minutes" ]}.

Definition view_context : gmap string ContextValue :=
  {[ "path" := CtxValue (PyStr "Minutes"); "view" := CtxView ]}.

End minutes_mirror_remotes.

(** A calendar with one activity, one moment and three slots, two of
    them without a recurrence. *)
Module calendar_sample.
Import migration_0023.

Definition board_games : Activity :=
  {| start_date := 1000; activity_title := "Board games" |}.

Definition first_evening : ActivityMoment :=
  {| moment_parent_activity := 1; moment_recurrence_id := 1700; moment_local := ∅ |}.

Definition old_slot (title : string) (recurrence : option Z) : ActivitySlot :=
  {| slot_title := title; parent_activity := Some 1; recurrence_id := recurrence;
     parent_activitymoment := None |}.

Definition calendar : Tables :=
  {| activities := {[ 1 := board_games ]};
     moments := {[ 10 := first_evening ]};
     slots := {[ 5 := old_slot "Catan" (Some 1700);
                 6 := old_slot "Chess" None;
                 7 := old_slot "Go" None ]} |}.

(** The same calendar with the first evening entered twice. *)
Definition doubled_calendar : Tables :=
  {| activities := activities calendar;
     moments := {[ 10 := first_evening; 12 := first_evening ]};
     slots := slots calendar |}.

Definition migrated : Tables * list LogRecord :=
  Eval vm_compute in
    match forwards_func calendar with
    | Returns r => r
    | Raises _ => (calendar, [])
    end.

End calendar_sample.

(** * Properties *)

(** ** The stable sort behind [sorted] *)

Section sorted_facts.

Context {A : Type} (key : A → Z).

Lemma insert_by_key_perm x l : insert_by_key key x l ≡ₚ x :: l.
Proof.
  induction l as [|y l IH]; simpl; [done|].
  case_bool_decide; [done|].
  by rewrite IH, Permutation_swap.
Qed.

Lemma sorted_perm l : sorted key l ≡ₚ l.
Proof.
  induction l as [|x l IH]; simpl; [done|].
  by rewrite insert_by_key_perm, IH.
Qed.

Lemma insert_by_key_sorted x l :
  StronglySorted (key_le key) l → StronglySorted (key_le key) (insert_by_key key x l).
Proof.
  induction 1 as [|y l Hl IH Hy]; simpl.
  - repeat constructor.
  - case_bool_decide as Hxy.
    + constructor; [by constructor|].
      constructor; [exact Hxy|].
      eapply Forall_impl; [exact Hy|]. unfold key_le. intros; lia.
    + constructor; [exact IH|].
      rewrite insert_by_key_perm. constructor; [unfold key_le; lia | exact Hy].
Qed.

Lemma sorted_sorted l : StronglySorted (key_le key) (sorted key l).
Proof.
  induction l as [|x l IH]; simpl; [constructor|].
  by apply insert_by_key_sorted.
Qed.

Lemma insert_by_key_filter k x l :
  filter (λ a, key a = k) (insert_by_key key x l)
  = filter (λ a, key a = k) (x :: l).
Proof.
  induction l as [|y l IH]; simpl; [done|].
  case_bool_decide as Hxy; [done|].
  rewrite (filter_cons _ y), IH, !(filter_cons _ x), (filter_cons _ y).
  repeat case_decide; try done; lia.
Qed.

(** Stability: the elements of one key keep their order. *)
Lemma sorted_stable k l :
  filter (λ a, key a = k) (sorted key l) = filter (λ a, key a = k) l.
Proof.
  induction l as [|x l IH]; simpl; [done|].
  rewrite insert_by_key_filter, !filter_cons, IH. done.
Qed.

End sorted_facts.

(** ** The view collective registry *)

Module viewcollectives_spec.
Import viewcollectives.

Lemma applicable_loop_filter request other_kwargs cs acc :
  Forall (λ c, returns (is_accessible c request other_kwargs)) cs →
  applicable_loop request other_kwargs cs acc
  = Returns (acc ++ filter (λ c, is_accessible c request other_kwargs = Returns true) cs)%list.
Proof.
  intros Hcs. revert acc.
  induction Hcs as [|c cs [b Hb] _ IH]; intros acc; simpl.
  - by rewrite app_nil_r.
  - rewrite Hb. simpl. rewrite IH, filter_cons.
    destruct b; case_decide; try congruence.
    by rewrite <- app_assoc.
Qed.

(** An exception of a predicate leaves [get_applicable_configs] with that
    exception. *)
Lemma applicable_loop_raises request other_kwargs pre c post acc e :
  Forall (λ c, returns (is_accessible c request other_kwargs)) pre →
  is_accessible c request other_kwargs = Raises e →
  applicable_loop request other_kwargs (pre ++ c :: post) acc = Raises e.
Proof.
  intros Hpre He. revert acc.
  induction Hpre as [|d pre [b Hb] _ IH]; intros acc; simpl.
  - by rewrite He.
  - rewrite Hb. simpl. apply IH.
Qed.

(** One predicate that raises is enough: the loop ends with an
    exception, that of the first config whose predicate raises. *)
Lemma applicable_loop_raises_some request other_kwargs cs c e acc :
  c ∈ cs →
  is_accessible c request other_kwargs = Raises e →
  ∃ e', applicable_loop request other_kwargs cs acc = Raises e'.
Proof.
  intros Hin He. revert acc.
  induction cs as [|d cs IH]; intros acc; [by apply elem_of_nil in Hin|].
  simpl. destruct (is_accessible d request other_kwargs) as [b|e'] eqn:Hd; simpl.
  - apply IH. apply elem_of_cons in Hin as [->|Hin]; [congruence|done].
  - by exists e'.
Qed.

(** C1, as amended: when the [is_accessible] of every config returns
    for the request and the extra keywords, [get_applicable_configs]
    returns the configs of [configs] whose predicate returns true, in the
    order of [configs]. When the predicate of some config raises, the call
    raises and returns no list; the inherited predicate takes no extra
    keyword, so one config that inherits it and one extra keyword are
    enough for that. *)
Theorem get_applicable_configs_exact env self request other_kwargs cs :
  (configs env self).1 = Returns cs →
  (Forall (λ c, returns (is_accessible c request other_kwargs)) cs →
     ∃ l, (get_applicable_configs env self request other_kwargs).1 = Returns l
        ∧ l = filter (λ c, is_accessible c request other_kwargs = Returns true) cs
        ∧ (∀ c, c ∈ l ↔ c ∈ cs ∧ is_accessible c request other_kwargs = Returns true)
        ∧ l `sublist_of` cs)
  ∧ (∀ c e, c ∈ cs → is_accessible c request other_kwargs = Raises e →
       ∃ e', (get_applicable_configs env self request other_kwargs).1 = Raises e')
  ∧ (∀ c, c ∈ cs → is_accessible_override (attrs c) = None → other_kwargs ≠ ∅ →
       ∃ e', (get_applicable_configs env self request other_kwargs).1 = Raises e').
Proof.
  intros Hcs.
  assert (Hloop : (get_applicable_configs env self request other_kwargs).1
                  = applicable_loop request other_kwargs cs []).
  { unfold get_applicable_configs. destruct (configs env self) as [[cs'|e] self'];
      simpl in *; [|done]. by injection Hcs as ->. }
  rewrite Hloop. split; [|split].
  - intros Hret. eexists. split; [|split; [reflexivity|split]].
    + by rewrite applicable_loop_filter.
    + intros c. rewrite list_elem_of_filter. tauto.
    + apply sublist_filter.
  - intros c e Hin He. by eapply applicable_loop_raises_some.
  - intros c Hin Hbase Hkw.
    eapply (applicable_loop_raises_some _ _ _ c); [done|].
    unfold is_accessible, base_is_accessible. rewrite Hbase.
    by rewrite bool_decide_eq_false_2.
Qed.

Lemma discover_app imp self pre post acc cs :
  discover imp self pre acc = Returns cs →
  discover imp self (pre ++ post) acc = discover imp self post cs.
Proof.
  revert acc. induction pre as [|a pre IH]; intros acc; simpl.
  - by intros [= ->].
  - destruct (imp _) as [m|e]; [apply IH|].
    destruct (isinstance e ModuleNotFoundError); [apply IH|done].
Qed.

Lemma discover_app_raises imp self pre post acc e :
  discover imp self pre acc = Raises e →
  discover imp self (pre ++ post) acc = Raises e.
Proof.
  revert acc. induction pre as [|a pre IH]; intros acc; simpl; [done|].
  destruct (imp _) as [m|e']; [apply IH|].
  destruct (isinstance e' ModuleNotFoundError); [apply IH|done].
Qed.

Lemma discover_skip imp self pre app post acc e :
  imp (config_module_name self app) = Raises e →
  isinstance e ModuleNotFoundError = true →
  discover imp self (pre ++ app :: post) acc = discover imp self (pre ++ post) acc.
Proof.
  intros Himp He.
  destruct (discover imp self pre acc) as [cs|e'] eqn:Hpre.
  - rewrite !(discover_app _ _ _ _ _ _ Hpre). simpl. by rewrite Himp, He.
  - by rewrite !(discover_app_raises _ _ _ _ _ _ Hpre).
Qed.

Lemma discover_abort imp self pre app post acc e :
  imp (config_module_name self app) = Raises e →
  isinstance e ModuleNotFoundError = false →
  (∃ e', discover imp self (pre ++ app :: post) acc = Raises e')
  ∧ (∀ cs, discover imp self pre acc = Returns cs →
           discover imp self (pre ++ app :: post) acc = Raises e).
Proof.
  intros Himp He.
  destruct (discover imp self pre acc) as [cs|e'] eqn:Hpre.
  - rewrite (discover_app _ _ _ _ _ _ Hpre). simpl. rewrite Himp, He. eauto.
  - rewrite (discover_app_raises _ _ _ _ _ _ Hpre). split; [eauto|done].
Qed.

Lemma collect_module_omap self module acc :
  collect_module self module acc = (acc ++ omap (config_of self) module)%list.
Proof.
  unfold collect_module. revert acc.
  induction module as [|[n a] module IH]; intros acc; simpl.
  - by rewrite app_nil_r.
  - rewrite IH. unfold config_of at 2. simpl. destruct a as [|cls]; [done|].
    unfold is_enabled, attrs. simpl.
    destruct (issubclass cls _ && negb _); simpl; [|done].
    destruct (is_enabled_result _); [|done].
    by rewrite <- app_assoc.
Qed.

(** Discovery order: the apps in installation order, within an app the
    order of its module. *)
Lemma discover_in_order imp self apps acc :
  Forall (importable imp self) apps →
  discover imp self apps acc
  = Returns (acc ++ concat (discovered_in imp self <$> apps))%list.
Proof.
  intros Happs. revert acc.
  induction Happs as [|app apps Happ _ IH]; intros acc; simpl.
  - by rewrite app_nil_r.
  - destruct (imp (config_module_name self app)) as [module|e] eqn:Himp.
    + assert (Hd : discovered_in imp self app = omap (config_of self) module)
        by (unfold discovered_in; by rewrite Himp).
      by rewrite IH, collect_module_omap, <- app_assoc, Hd.
    + assert (Hd : discovered_in imp self app = [])
        by (unfold discovered_in; by rewrite Himp).
      by rewrite (Happ e Himp), IH, Hd.
Qed.

(** One list only is sorted by a key and has, key by key, the elements
    of [l] in the order of [l]: whatever stable sort Python runs, it
    returns what [sorted] returns. *)
Lemma stable_sort_unique {A} (key : A → Z) (l1 l2 : list A) :
  StronglySorted (key_le key) l1 → StronglySorted (key_le key) l2 →
  (∀ k, filter (λ a, key a = k) l1 = filter (λ a, key a = k) l2) →
  l1 = l2.
Proof.
  intros H1. revert l2.
  induction H1 as [|x l1 Hs1 IH Hx]; intros l2 H2 Hf.
  - destruct l2 as [|y l2]; [done|].
    specialize (Hf (key y)). rewrite filter_cons_True in Hf by done. done.
  - destruct H2 as [|y l2 Hs2 Hy].
    { specialize (Hf (key x)). rewrite filter_cons_True in Hf by done. done. }
    assert (Hxy : key x = key y).
    { assert (x ∈ y :: l2) as Hin.
      { pose proof (Hf (key x)) as Hk. rewrite filter_cons_True in Hk by done.
        assert (x ∈ filter (λ a, key a = key x) (y :: l2)) as Hx' by (rewrite <- Hk; left).
        by apply list_elem_of_filter in Hx' as [_ ?]. }
      assert (y ∈ x :: l1) as Hin'.
      { pose proof (Hf (key y)) as Hk. rewrite (filter_cons_True _ y) in Hk by done.
        assert (y ∈ filter (λ a, key a = key y) (x :: l1)) as Hy' by (rewrite Hk; left).
        by apply list_elem_of_filter in Hy' as [_ ?]. }
      rewrite Forall_forall in Hx, Hy. unfold key_le in *.
      apply elem_of_cons in Hin as [->|Hin]; [done|].
      apply elem_of_cons in Hin' as [->|Hin']; [done|].
      specialize (Hx _ Hin'). specialize (Hy _ Hin). lia. }
    pose proof (Hf (key x)) as Hk.
    rewrite filter_cons_True, (filter_cons_True _ y) in Hk by done.
    injection Hk as -> Hk. f_equal. apply IH; [done|].
    intros k. destruct (decide (key y = k)) as [<-|Hne]; [done|].
    specialize (Hf k). by rewrite !filter_cons_False in Hf.
Qed.

(** C2: the list [_get_configs] builds is non-decreasing in
    [order_value], holds the discovered enabled configs, and keeps the
    configs of one [order_value] in discovery order; of two configs
    with the values 5 and 10 the first comes first. *)
Theorem get_configs_sorted_stable env self discovered :
  discover (import_module env) self (get_app_configs env) [] = Returns discovered →
  ∃ l, _get_configs env self = Returns l
     ∧ StronglySorted by_order l
     ∧ l ≡ₚ discovered
     ∧ (∀ k, filter (λ c, order_value (attrs c) = k) l
             = filter (λ c, order_value (attrs c) = k) discovered)
     ∧ (∀ a b, order_value (attrs a) = 5 → order_value (attrs b) = 10 →
               discovered = [a; b] ∨ discovered = [b; a] → l = [a; b]).
Proof.
  intros Hd. unfold _get_configs. rewrite Hd. simpl. eexists. split; [reflexivity|].
  split; [apply (sorted_sorted (λ c, order_value (attrs c)))|].
  split; [apply sorted_perm|].
  split; [intros k; apply (sorted_stable (λ c, order_value (attrs c)))|].
  intros a b Ha Hb [-> | ->]; simpl; rewrite Ha, Hb; reflexivity.
Qed.

(** C7, as amended: an app whose config submodule is not there is
    passed over, discovery goes on as if the app were not installed; an
    exception of any class other than [ModuleNotFoundError] leaves
    [_get_configs] with an exception, and with this very exception when the
    apps before this one were discovered without one. The code goes by
    the class of the exception alone, so that every [ModuleNotFoundError]
    of the import has the app passed over. *)
Theorem get_configs_import_errors env self pre app post e :
  get_app_configs env = (pre ++ app :: post)%list →
  import_module env (config_module_name self app) = Raises e →
  (submodule_missing self app e →
     _get_configs env self = _get_configs (with_apps env (pre ++ post)) self)
  ∧ (isinstance e ModuleNotFoundError = true →
     _get_configs env self = _get_configs (with_apps env (pre ++ post)) self)
  ∧ (isinstance e ModuleNotFoundError = false →
       (∃ e', _get_configs env self = Raises e')
       ∧ (∀ cs, discover (import_module env) self pre [] = Returns cs →
                _get_configs env self = Raises e)).
Proof.
  intros Happs Himp. unfold _get_configs. rewrite Happs. simpl.
  assert (Hskip : isinstance e ModuleNotFoundError = true →
            (let! configs := discover (import_module env) self (pre ++ app :: post) [] in
             Returns (sorted (λ config, order_value (attrs config)) configs))
            = (let! configs := discover (import_module env) self (pre ++ post) [] in
               Returns (sorted (λ config, order_value (attrs config)) configs))).
  { intros He. by rewrite (discover_skip _ _ _ _ _ _ _ Himp He). }
  split; [|split]; [|exact Hskip|].
  - intros [-> | ->]; by apply Hskip.
  - intros He.
    destruct (discover_abort _ self pre app post [] e Himp He) as [[e' He'] Hfirst].
    split.
    + exists e'. by rewrite He'.
    + intros cs Hcs. by rewrite (Hfirst cs Hcs).
Qed.

(** C8: without a config, neither passed nor set on the class,
    [__init__] raises [KeyError], whatever the next [__init__] would do;
    no view comes into being that a request could be dispatched to. *)
Theorem init_requires_config class_name super_init :
  (∃ msg, __init__ class_name None super_init None = Raises (Exn KeyError msg 0))
  ∧ (∀ v : View, __init__ class_name None super_init None ≠ Returns v).
Proof. split; [eexists; reflexivity | intros v; discriminate]. Qed.

(** A view that was constructed carries the config that was passed or,
    failing that, the one of its class. *)
Lemma init_returns_config class_name class_config super_init cfg v :
  __init__ class_name class_config super_init cfg = Returns v →
  or_config cfg class_config = Some (config v).
Proof.
  unfold __init__. destruct (or_config cfg class_config) as [c|]; [|done].
  destruct super_init; simpl; [|done]. by intros [= <-].
Qed.

End viewcollectives_spec.

(** ** The registry on the sample installation *)

Module viewcollectives_examples.
Import viewcollectives viewcollectives_spec committee_pages_site.
Import committee_pages_missing_library.

Example site_discovery :
  discover site_imports registry (get_app_configs site) []
  = Returns [instance info_class; instance members_class; instance agenda_class].
Proof. reflexivity. Qed.

Example site_configs :
  _get_configs site registry
  = Returns [instance members_class; instance agenda_class; instance info_class].
Proof. reflexivity. Qed.

Example broken_site_configs :
  _get_configs broken_site registry = Raises (Exn SyntaxError "invalid syntax" 0).
Proof. reflexivity. Qed.

Example anonymous_tabs :
  (get_applicable_configs site registry anonymous ∅).1
  = Returns [instance agenda_class; instance info_class].
Proof. reflexivity. Qed.

(** The base predicate takes no extra keyword. *)
Example base_predicate_extra_keyword :
  ∃ e, (get_applicable_configs site registry anonymous
          {["association_group" := PyInt 3]}).1 = Raises e
       ∧ exn_cls e = TypeError.
Proof. eexists. split; reflexivity. Qed.

Lemma get_applicable_configs_exact_witness :
  let cs := [instance members_class; instance agenda_class; instance info_class] in
  let group := {[ "association_group" := PyInt 3 ]} in
  (configs site registry).1 = Returns cs
  ∧ Forall (λ c, returns (is_accessible c anonymous ∅)) cs
  ∧ (∃ l, (get_applicable_configs site registry anonymous ∅).1 = Returns l
        ∧ l = filter (λ c, is_accessible c anonymous ∅ = Returns true) cs
        ∧ (∀ c, c ∈ l ↔ c ∈ cs ∧ is_accessible c anonymous ∅ = Returns true)
        ∧ l `sublist_of` cs)
  ∧ instance agenda_class ∈ cs
  ∧ is_accessible_override (attrs (instance agenda_class)) = None
  ∧ group ≠ ∅
  ∧ ∃ e', (get_applicable_configs site registry anonymous group).1 = Raises e'.
Proof.
  intros cs group.
  assert (H1 : (configs site registry).1 = Returns cs) by reflexivity.
  assert (H2 : Forall (λ c, returns (is_accessible c anonymous ∅)) cs)
    by (repeat constructor; eexists; reflexivity).
  assert (H3 : instance agenda_class ∈ cs) by (right; left).
  assert (H4 : is_accessible_override (attrs (instance agenda_class)) = None)
    by reflexivity.
  assert (H5 : group ≠ ∅) by (apply insert_non_empty).
  split; [exact H1|]. split; [exact H2|].
  split; [exact (proj1 (get_applicable_configs_exact site registry anonymous ∅ cs H1) H2)|].
  split; [exact H3|]. split; [exact H4|]. split; [exact H5|].
  exact (proj2 (proj2 (get_applicable_configs_exact site registry anonymous group cs H1))
           (instance agenda_class) H3 H4 H5).
Defined.

(** The claim without the amendment fails on the sample site: the three
    configs inherit [is_accessible], and with one extra keyword the call
    raises [TypeError] where the claim has it return the accessible
    configs. *)
Lemma extra_keyword_returns_no_list :
  (configs site registry).1
  = Returns [instance members_class; instance agenda_class; instance info_class]
  ∧ (∃ msg, (get_applicable_configs site registry anonymous
               {[ "association_group" := PyInt 3 ]}).1
            = Raises (Exn TypeError msg 0))
  ∧ ¬ (∃ l, (get_applicable_configs site registry anonymous
               {[ "association_group" := PyInt 3 ]}).1 = Returns l).
Proof.
  split; [reflexivity|]. split; [eexists; reflexivity|].
  intros [l Hl]. vm_compute in Hl. discriminate.
Qed.

Lemma get_configs_sorted_stable_witness :
  let discovered := [instance info_class; instance members_class; instance agenda_class] in
  discover (import_module site) registry (get_app_configs site) [] = Returns discovered
  ∧ ∃ l, _get_configs site registry = Returns l
       ∧ StronglySorted by_order l
       ∧ l ≡ₚ discovered
       ∧ (∀ k, filter (λ c, order_value (attrs c) = k) l
               = filter (λ c, order_value (attrs c) = k) discovered)
       ∧ (∀ a b, order_value (attrs a) = 5 → order_value (attrs b) = 10 →
                 discovered = [a; b] ∨ discovered = [b; a] → l = [a; b]).
Proof.
  intros discovered.
  assert (H : discover (import_module site) registry (get_app_configs site) []
              = Returns discovered) by reflexivity.
  split; [exact H|].
  exact (get_configs_sorted_stable site registry discovered H).
Defined.

Lemma get_configs_import_errors_witness :
  let syntax_error := Exn SyntaxError "invalid syntax" 0 in
  (get_app_configs site = ([] ++ "core" :: ["committees"; "activity_calendar"])%list
   ∧ import_module site (config_module_name registry "core")
     = Raises (no_module "core.committee_pages.config")
   ∧ submodule_missing registry "core" (no_module "core.committee_pages.config")
   ∧ _get_configs site registry
     = _get_configs (with_apps site ["committees"; "activity_calendar"]) registry)
  ∧ (get_app_configs broken_site
     = (["core"; "committees"] ++ "inventory" :: ["activity_calendar"])%list
     ∧ import_module broken_site (config_module_name registry "inventory")
       = Raises syntax_error
     ∧ _get_configs broken_site registry = Raises syntax_error).
Proof.
  intros syntax_error. split.
  - assert (H1 : get_app_configs site
                 = ([] ++ "core" :: ["committees"; "activity_calendar"])%list)
      by reflexivity.
    assert (H2 : import_module site (config_module_name registry "core")
                 = Raises (no_module "core.committee_pages.config")) by reflexivity.
    assert (H3 : submodule_missing registry "core" (no_module "core.committee_pages.config"))
      by (left; reflexivity).
    split; [exact H1|]. split; [exact H2|]. split; [exact H3|].
    exact (proj1 (get_configs_import_errors site registry [] "core"
                    ["committees"; "activity_calendar"] _ H1 H2) H3).
  - assert (H1 : get_app_configs broken_site
                 = (["core"; "committees"] ++ "inventory" :: ["activity_calendar"])%list)
      by reflexivity.
    assert (H2 : import_module broken_site (config_module_name registry "inventory")
                 = Raises syntax_error) by reflexivity.
    split; [exact H1|]. split; [exact H2|].
    exact (proj2 (proj2 (proj2 (get_configs_import_errors broken_site registry
                                  ["core"; "committees"] "inventory" ["activity_calendar"]
                                  _ H1 H2)) eq_refl)
             [instance info_class; instance members_class] eq_refl).
Defined.

(** The claim without the amendment fails on an installation where the
    config module of an app is there and imports a library that is not:
    the import of the module raises, and discovery passes the app over and
    returns where the claim has it abort. *)
Lemma present_submodule_error_is_skipped :
  module_exists missing_library (config_module_name registry "nextcloud_integration") = true
  ∧ import_module (environment_of missing_library)
      (config_module_name registry "nextcloud_integration")
    = Raises (module_not_found "easywebdav")
  ∧ ¬ submodule_missing registry "nextcloud_integration" (module_not_found "easywebdav")
  ∧ _get_configs (environment_of missing_library) registry
    = Returns [instance members_class; instance agenda_class; instance info_class]
  ∧ ¬ (∃ e, _get_configs (environment_of missing_library) registry = Raises e).
Proof.
  split; [vm_compute; reflexivity|]. split; [vm_compute; reflexivity|].
  split; [intros [H|H]; vm_compute in H; discriminate|].
  split; [vm_compute; reflexivity|].
  intros [e He]. vm_compute in He. discriminate.
Qed.

End viewcollectives_examples.

(** ** The token mixins *)

Module tokens_spec.
Import tokens.

Lemma append_cons c (s t : string) : String c s +:+ t = String c (s +:+ t).
Proof. reflexivity. Qed.

Lemma append_nil_r (s : string) : s +:+ EmptyString = s.
Proof. induction s as [|c s IH]; [done|]. by rewrite append_cons, IH. Qed.

Lemma prefix_append old rest : String.prefix old (old +:+ rest) = true.
Proof.
  induction old as [|c old IH]; [by destruct rest|].
  rewrite append_cons. simpl.
  destruct (Ascii.ascii_dec c c); [exact IH|done].
Qed.

Lemma replace_from_skip old new t rest :
  replace_from old new (String.length t) (t +:+ rest) = replace_from old new O rest.
Proof. induction t as [|c t IH]; [done|]. rewrite append_cons. exact IH. Qed.

Lemma replace_from_cons old new c s :
  replace_from old new O (String c s)
  = if String.prefix old (String c s)
    then new +:+ replace_from old new (Nat.pred (String.length old)) s
    else String c (replace_from old new O s).
Proof. reflexivity. Qed.

Lemma replace_from_occurrence c old new rest :
  replace_from (String c old) new O (String c old +:+ rest)
  = new +:+ replace_from (String c old) new O rest.
Proof.
  rewrite append_cons, replace_from_cons, <- append_cons, prefix_append.
  f_equal. apply replace_from_skip.
Qed.

Lemma replace_from_no_match old new pre rest :
  no_match_in old pre rest →
  replace_from old new O (pre +:+ rest) = pre +:+ replace_from old new O rest.
Proof.
  induction pre as [|c pre IH]; intros Hno; [done|].
  rewrite !append_cons, replace_from_cons, <- append_cons.
  rewrite (Hno EmptyString (String c pre)); [|done|done].
  f_equal. apply IH.
  intros p1 p2 -> Hp2. by apply (Hno (String c p1) p2).
Qed.

(** A path that holds the token once: the redirect URL is the path with
    the sentinel in the token's place. *)
Lemma str_replace_single pre old new post :
  no_match_in old pre (old +:+ post) →
  no_match_in old post EmptyString →
  str_replace (pre +:+ old +:+ post) old new = pre +:+ new +:+ post.
Proof.
  intros Hpre Hpost. destruct old as [|c old].
  - destruct pre as [|a pre].
    + destruct post as [|b post]; [rewrite !append_nil_r; reflexivity|].
      by specialize (Hpost EmptyString (String b post) eq_refl ltac:(done)).
    + by specialize (Hpre EmptyString (String a pre) eq_refl ltac:(done)).
  - unfold str_replace.
    rewrite replace_from_no_match by done.
    rewrite replace_from_occurrence.
    rewrite <- (append_nil_r post) at 1.
    rewrite replace_from_no_match by done.
    by rewrite append_nil_r.
Qed.

Lemma decode_failure_excepted e :
  decode_failure e → except_any get_url_object_excepted e = true.
Proof. unfold decode_failure, except_any. simpl. by intros ->; rewrite orb_true_r. Qed.

Lemma key_failure_excepted e :
  key_failure e → except_any get_url_object_excepted e = true.
Proof.
  unfold key_failure, except_any. simpl.
  intros [-> | [-> | [-> | ->]]]; rewrite ?orb_true_r; done.
Qed.

(** C6: for every input string [get_url_object] returns, and returns
    the record whose key is the decoded input or no object: a failure to
    decode, an overflow, a missing row and a validation error all end in
    no object. The library calls fail in their documented ways. *)
Theorem get_url_object_folds_failures self table uidb64 :
  documented_failures (object_class self) →
  get_url_object self table uidb64
    = Returns (record_or_none (object_class self) table uidb64)
  ∧ (∀ e, get_url_object self table uidb64 ≠ Raises e)
  ∧ (∀ m, get_url_object self table uidb64 = Returns (Some m) →
          table !! pk m = Some (fields m)
          ∧ ∃ bytes uid, urlsafe_base64_decode (object_class self) uidb64 = Returns bytes
                         ∧ decode (object_class self) bytes = Returns uid
                         ∧ pk_to_python (object_class self) uid = Returns (pk m)).
Proof.
  intros (Hb64 & Hdec & Hkey).
  assert (Heq : get_url_object self table uidb64
                = Returns (record_or_none (object_class self) table uidb64)).
  { unfold get_url_object, record_or_none, manager_get.
    destruct (urlsafe_base64_decode _ uidb64) as [bytes|e] eqn:E1; cbn [Py.bind].
    2:{ by rewrite (decode_failure_excepted e (Hb64 _ _ E1)). }
    destruct (decode _ bytes) as [uid|e] eqn:E2; cbn [Py.bind].
    2:{ by rewrite (decode_failure_excepted e (Hdec _ _ E2)). }
    destruct (pk_to_python _ uid) as [key|e] eqn:E3; cbn [Py.bind].
    2:{ by rewrite (key_failure_excepted e (Hkey _ _ E3)). }
    by destruct (table !! key). }
  split; [exact Heq|]. split; [by rewrite Heq|].
  intros m. rewrite Heq. intros [= Hm]. revert Hm. unfold record_or_none.
  destruct (urlsafe_base64_decode _ uidb64) as [bytes|] eqn:E1; [|done].
  destruct (decode _ bytes) as [uid|] eqn:E2; [|done].
  destruct (pk_to_python _ uid) as [key|] eqn:E3; [|done].
  destruct (table !! key) as [row|] eqn:Hrow; [|done].
  simpl. intros [= <-]. simpl. split; [exact Hrow|]. eauto.
Qed.

(** An exception outside the [except] clause is not folded. *)
Lemma get_url_object_propagates self table uidb64 e :
  urlsafe_base64_decode (object_class self) uidb64 = Raises e →
  except_any get_url_object_excepted e = false →
  get_url_object self table uidb64 = Raises e.
Proof.
  intros H1 H2. unfold get_url_object. rewrite H1. cbn [Py.bind]. by rewrite H2.
Qed.

Lemma SessionTokenMixin_dispatch_found self table next state session request kwargs
    uidb64 found :
  kwargs !! object_id_kwarg_name self = Some uidb64 →
  get_url_object self table uidb64 = Returns found →
  SessionTokenMixin_dispatch self table next state session request kwargs
  = match found with
    | Some object =>
        if check_token (token_generator self) object (session !! session_token_name self)
        then next {| validlink := true; url_object := found |} session request kwargs
        else failed self request {| validlink := false; url_object := found |} session
    | None => failed self request {| validlink := false; url_object := found |} session
    end.
Proof.
  intros Hk Hobj. unfold SessionTokenMixin_dispatch. rewrite Hk, Hobj.
  destruct found as [object|]; [|done].
  by destruct (check_token _ object _).
Qed.

Lemma UrlTokenMixin_dispatch_found self table next state session request kwargs
    uidb64 token found :
  kwargs !! object_id_kwarg_name self = Some uidb64 →
  kwargs !! token_kwarg_name self = Some token →
  get_url_object self table uidb64 = Returns found →
  UrlTokenMixin_dispatch self table next state session request kwargs
  = match found with
    | Some object =>
        if bool_decide (token = url_token_name self) then
          if check_token (token_generator self) object (session !! session_token_name self)
          then next {| validlink := true; url_object := found |} session request kwargs
          else failed self request {| validlink := false; url_object := found |} session
        else
          if check_token (token_generator self) object (Some token)
          then {| response :=
                    Returns (HttpResponseRedirect
                      (str_replace (path request) token (url_token_name self)));
                  view := {| validlink := false; url_object := found |};
                  session := <[session_token_name self := token]> session |}
          else failed self request {| validlink := false; url_object := found |} session
    | None => failed self request {| validlink := false; url_object := found |} session
    end.
Proof.
  intros Hk Ht Hobj. unfold UrlTokenMixin_dispatch. rewrite Hk, Ht, Hobj.
  destruct found as [object|]; [|done].
  case_bool_decide; by destruct (check_token _ object _).
Qed.

(** C4: a request whose link is invalid, because no object was resolved
    or because the token, in the URL or in the session, does not check
    out, gets the failure template and the wrapped view is not run; a
    request whose link is valid is handed to the wrapped view with the
    object resolved and the flag set. *)
Theorem token_dispatch_invalid_or_valid self table next state session request kwargs
    uidb64 found :
  kwargs !! object_id_kwarg_name self = Some uidb64 →
  get_url_object self table uidb64 = Returns found →
  let invalid := failed self request {| validlink := false; url_object := found |} session in
  let valid := next {| validlink := true; url_object := found |} session request kwargs in
  let by_session := SessionTokenMixin_dispatch self table next state session request kwargs in
  let by_url := UrlTokenMixin_dispatch self table next state session request kwargs in
  let session_token := session !! session_token_name self in
  (found = None → by_session = invalid)
  ∧ (∀ o, found = Some o →
          check_token (token_generator self) o session_token = false →
          by_session = invalid)
  ∧ (∀ o, found = Some o →
          check_token (token_generator self) o session_token = true →
          by_session = valid)
  ∧ (∀ token, kwargs !! token_kwarg_name self = Some token →
       (found = None → by_url = invalid)
       ∧ (∀ o, found = Some o → token = url_token_name self →
               check_token (token_generator self) o session_token = false →
               by_url = invalid)
       ∧ (∀ o, found = Some o → token ≠ url_token_name self →
               check_token (token_generator self) o (Some token) = false →
               by_url = invalid)
       ∧ (∀ o, found = Some o → token = url_token_name self →
               check_token (token_generator self) o session_token = true →
               by_url = valid)).
Proof.
  intros Hk Hobj. cbn zeta.
  rewrite (SessionTokenMixin_dispatch_found _ _ _ _ _ _ _ _ _ Hk Hobj).
  split; [by intros ->|]. split; [by intros o -> ->|]. split; [by intros o -> ->|].
  intros token Ht.
  rewrite (UrlTokenMixin_dispatch_found _ _ _ _ _ _ _ _ _ _ Hk Ht Hobj).
  split; [by intros ->|].
  split; [intros o -> Heq ->; by rewrite bool_decide_eq_true_2|].
  split; [intros o -> Hne ->; by rewrite bool_decide_eq_false_2|].
  intros o -> Heq ->. by rewrite bool_decide_eq_true_2.
Qed.

(** C5: a URL with a real token that checks out against the resolved
    object: the token goes into the session under the configured key, the
    answer is a redirect to the request path with the sentinel in the
    token's place, the flag stays false and the wrapped view is not
    run. *)
Theorem url_token_stored_and_redirected self table next state sess request kwargs
    uidb64 token o :
  kwargs !! object_id_kwarg_name self = Some uidb64 →
  kwargs !! token_kwarg_name self = Some token →
  token ≠ url_token_name self →
  get_url_object self table uidb64 = Returns (Some o) →
  check_token (token_generator self) o (Some token) = true →
  let d := UrlTokenMixin_dispatch self table next state sess request kwargs in
  response d = Returns (HttpResponseRedirect
                 (str_replace (path request) token (url_token_name self)))
  ∧ session d = <[session_token_name self := token]> sess
  ∧ session d !! session_token_name self = Some token
  ∧ view d = {| validlink := false; url_object := Some o |}
  ∧ (∀ next', UrlTokenMixin_dispatch self table next' state sess request kwargs = d)
  ∧ (∀ pre post, path request = pre +:+ token +:+ post →
       no_match_in token pre (token +:+ post) → no_match_in token post EmptyString →
       response d = Returns (HttpResponseRedirect (pre +:+ url_token_name self +:+ post))).
Proof.
  intros Hk Ht Hne Hobj Hcheck. cbn zeta.
  rewrite (UrlTokenMixin_dispatch_found _ _ _ _ _ _ _ _ _ _ Hk Ht Hobj).
  rewrite bool_decide_eq_false_2, Hcheck by done. cbn [response session view].
  split; [done|]. split; [done|]. split; [apply lookup_insert_eq|]. split; [done|].
  split.
  - intros next'.
    rewrite (UrlTokenMixin_dispatch_found _ _ _ _ _ _ _ _ _ _ Hk Ht Hobj).
    by rewrite bool_decide_eq_false_2, Hcheck.
  - intros pre post -> Hpre Hpost. by rewrite str_replace_single.
Qed.

(** C3, as amended: a token the generator made for [O] at [made],
    submitted once in the URL before it has expired, is accepted and
    stored in the session; from then on a view that checks the session's
    token alone (a [SessionTokenMixin] view, or the URL view reached with
    the sentinel) runs as long as the object's validity-affecting fields
    are as they were and the token has not expired, and renders the
    failure template once the fields differ or the generator's timeout
    has passed. *)
Theorem token_round_trip {H : Type} (hash_value : Model → H) (g : ClockedGenerator)
    (timeout : Z) self table next state sess request kwargs uidb64 O made now :
  ClockedLaws g hash_value timeout →
  token_generator self = at_time g now →
  now - made ≤ timeout →
  kwargs !! object_id_kwarg_name self = Some uidb64 →
  kwargs !! token_kwarg_name self = Some (make_token_at g made O) →
  make_token_at g made O ≠ url_token_name self →
  get_url_object self table uidb64 = Returns (Some O) →
  let d := UrlTokenMixin_dispatch self table next state sess request kwargs in
  (∃ url, response d = Returns (HttpResponseRedirect url))
  ∧ session d !! session_token_name self = Some (make_token_at g made O)
  ∧ ∀ self' later table' next' state' request' kwargs' uidb64' O',
      session_token_name self' = session_token_name self →
      token_generator self' = at_time g later →
      kwargs' !! object_id_kwarg_name self' = Some uidb64' →
      get_url_object self' table' uidb64' = Returns (Some O') →
      let by_session :=
        SessionTokenMixin_dispatch self' table' next' state' (session d) request' kwargs' in
      let by_sentinel :=
        UrlTokenMixin_dispatch self' table' next' state' (session d) request' kwargs' in
      let sentinel := kwargs' !! token_kwarg_name self' = Some (url_token_name self') in
      let valid :=
        next' {| validlink := true; url_object := Some O' |} (session d) request' kwargs' in
      let invalid :=
        failed self' request' {| validlink := false; url_object := Some O' |} (session d) in
      (hash_value O' = hash_value O → later - made ≤ timeout →
         by_session = valid ∧ (sentinel → by_sentinel = valid))
      ∧ (hash_value O' ≠ hash_value O →
         by_session = invalid ∧ (sentinel → by_sentinel = invalid))
      ∧ (timeout < later - made →
         by_session = invalid ∧ (sentinel → by_sentinel = invalid)).
Proof.
  intros Hlaws Hgen Hfresh Hk Ht Hne Hobj.
  assert (Hmade : check_token (token_generator self) O (Some (make_token_at g made O)) = true).
  { rewrite Hgen. simpl. by apply Hlaws. }
  cbn zeta.
  rewrite (UrlTokenMixin_dispatch_found _ _ _ _ _ _ _ _ _ _ Hk Ht Hobj).
  rewrite bool_decide_eq_false_2, Hmade by done. cbn [response session].
  assert (Hsess : <[session_token_name self := make_token_at g made O]> sess
                    !! session_token_name self
                  = Some (make_token_at g made O))
    by apply lookup_insert_eq.
  split; [eauto|]. split; [exact Hsess|].
  intros self' later table' next' state' request' kwargs' uidb64' O' Hname Hgen' Hk' Hobj'.
  rewrite (SessionTokenMixin_dispatch_found _ _ _ _ _ _ _ _ _ Hk' Hobj').
  rewrite Hname, Hgen', Hsess.
  assert (Hlater : check_token (at_time g later) O' (Some (make_token_at g made O)) = true
                   ↔ hash_value O' = hash_value O ∧ later - made ≤ timeout)
    by (simpl; apply Hlaws).
  assert (Hinvalid :
            check_token (at_time g later) O' (Some (make_token_at g made O)) = false →
            (if check_token (at_time g later) O' (Some (make_token_at g made O))
             then next' {| validlink := true; url_object := Some O' |}
                    (<[session_token_name self := make_token_at g made O]> sess)
                    request' kwargs'
             else failed self' request' {| validlink := false; url_object := Some O' |}
                    (<[session_token_name self := make_token_at g made O]> sess))
            = failed self' request' {| validlink := false; url_object := Some O' |}
                (<[session_token_name self := make_token_at g made O]> sess)
            ∧ (kwargs' !! token_kwarg_name self' = Some (url_token_name self') →
               UrlTokenMixin_dispatch self' table' next' state'
                 (<[session_token_name self := make_token_at g made O]> sess)
                 request' kwargs'
               = failed self' request' {| validlink := false; url_object := Some O' |}
                   (<[session_token_name self := make_token_at g made O]> sess))).
  { intros Hc. rewrite Hc. split; [done|]. intros Hsent.
    rewrite (UrlTokenMixin_dispatch_found _ _ _ _ _ _ _ _ _ _ Hk' Hsent Hobj').
    by rewrite bool_decide_eq_true_2, Hname, Hgen', Hsess, Hc. }
  split; [|split].
  - intros Hhash Hintime.
    assert (Hc : check_token (at_time g later) O' (Some (make_token_at g made O)) = true)
      by (by apply Hlater).
    rewrite Hc. split; [done|]. intros Hsent.
    rewrite (UrlTokenMixin_dispatch_found _ _ _ _ _ _ _ _ _ _ Hk' Hsent Hobj').
    by rewrite bool_decide_eq_true_2, Hname, Hgen', Hsess, Hc.
  - intros Hhash. apply Hinvalid.
    destruct (check_token _ O' _) eqn:E; [|done].
    exfalso. apply Hhash. by apply Hlater.
  - intros Hlate. apply Hinvalid.
    destruct (check_token _ O' _) eqn:E; [|done].
    destruct (proj1 Hlater eq_refl) as [_ Hintime]. lia.
Qed.

End tokens_spec.

(** ** The mixins on the sample flow *)

Module tokens_examples.
Import tokens tokens_spec link_account_flow link_account_clock.

Example link_first_visit :
  let d := UrlTokenMixin_dispatch link_view (user_rows "hunter2") form_view fresh ∅
             (link_request "tk-hunter2") (link_kwargs "MQ" "tk-hunter2") in
  response d = Returns (HttpResponseRedirect "/account/link/MQ/link-account/")
  ∧ session d = {[ "_link_account_token" := "tk-hunter2" ]}
  ∧ validlink (view d) = false.
Proof. vm_compute. done. Qed.

Example link_tampered :
  response (UrlTokenMixin_dispatch link_view (user_rows "hunter2") form_view fresh ∅
              (link_request "tk-hunter3") (link_kwargs "MQ" "tk-hunter3"))
  = Returns (TemplateResponse "core/user_accounts/link_fail.html" 200).
Proof. vm_compute. done. Qed.

Example link_bad_ids :
  get_url_object link_view (user_rows "hunter2") "%%%" = Returns None
  ∧ get_url_object link_view (user_rows "hunter2") "_w" = Returns None
  ∧ get_url_object link_view (user_rows "hunter2") "OTk" = Returns None
  ∧ get_url_object link_view (delete 1 (user_rows "hunter2")) "MQ" = Returns None
  ∧ get_url_object link_view (user_rows "hunter2") "MQ" = Returns (Some (alice "hunter2")).
Proof. vm_compute. done. Qed.

Lemma users_documented_failures : documented_failures users.
Proof.
  split; [|split].
  - intros s e. simpl. unfold toy_b64decode.
    repeat case_bool_decide; try done. by intros [= <-].
  - intros b e. simpl. unfold toy_decode.
    destruct (forallb _ b); [done|]. by intros [= <-].
  - intros s e. simpl. unfold toy_pk.
    repeat case_bool_decide; try done; intros [= <-].
    + right; right; by left.
    + by left.
Qed.

Lemma split_stamp_uint d rest :
  split_stamp (NilEmpty.string_of_uint d +:+ String ":" rest)
  = Some (NilEmpty.string_of_uint d, rest).
Proof.
  induction d as [|d IH|d IH|d IH|d IH|d IH|d IH|d IH|d IH|d IH|d IH];
    [reflexivity|..]; simpl; by rewrite IH.
Qed.

Lemma split_stamp_stamp t rest :
  split_stamp (stamp t +:+ String ":" rest) = Some (stamp t, rest).
Proof.
  unfold stamp. destruct (Z.to_int t) as [d|d]; simpl.
  - apply split_stamp_uint.
  - rewrite ?append_cons. simpl. by rewrite split_stamp_uint.
Qed.

Lemma stamp_time_stamp t : stamp_time (stamp t) = Some t.
Proof.
  unfold stamp_time, stamp. rewrite NilEmpty.isi. simpl. by rewrite DecimalZ.of_to.
Qed.

(** The sample generator does what Django's does: it accepts its token
    for the fields it was made for, for three days. *)
Lemma expiring_generator_laws : ClockedLaws expiring_generator password reset_timeout.
Proof.
  intros made now o o'. unfold expiring_generator. cbn [check_token_at make_token_at].
  change (Some (stamp made +:+ ":" +:+ password o) ≫= split_stamp)
    with (split_stamp (stamp made +:+ String ":" (password o))).
  rewrite split_stamp_stamp, stamp_time_stamp.
  rewrite andb_true_iff, !bool_decide_eq_true.
  split; intros [Hp Ht]; by split.
Qed.

Lemma get_url_object_folds_failures_witness :
  documented_failures (object_class link_view)
  ∧ get_url_object link_view (user_rows "hunter2") "OTk" = Returns None
  ∧ (∀ e, get_url_object link_view (user_rows "hunter2") "OTk" ≠ Raises e).
Proof.
  split; [exact users_documented_failures|].
  destruct (get_url_object_folds_failures link_view (user_rows "hunter2") "OTk"
              users_documented_failures) as (Heq & Hno & _).
  split; [|exact Hno]. rewrite Heq. reflexivity.
Defined.

Lemma token_dispatch_invalid_or_valid_witness :
  let kwargs := link_kwargs "MQ" "link-account" in
  let request := link_request "link-account" in
  kwargs !! object_id_kwarg_name link_view = Some "MQ"
  ∧ get_url_object link_view (user_rows "hunter2") "MQ" = Returns (Some (alice "hunter2"))
  ∧ SessionTokenMixin_dispatch link_view (user_rows "hunter2") form_view fresh stored
      request kwargs
    = form_view {| validlink := true; url_object := Some (alice "hunter2") |} stored
        request kwargs
  ∧ UrlTokenMixin_dispatch link_view (user_rows "hunter2") form_view fresh stored
      request kwargs
    = form_view {| validlink := true; url_object := Some (alice "hunter2") |} stored
        request kwargs.
Proof.
  intros kwargs request.
  assert (H1 : kwargs !! object_id_kwarg_name link_view = Some "MQ")
    by (vm_compute; reflexivity).
  assert (H2 : get_url_object link_view (user_rows "hunter2") "MQ"
               = Returns (Some (alice "hunter2"))) by (vm_compute; reflexivity).
  split; [exact H1|]. split; [exact H2|].
  destruct (token_dispatch_invalid_or_valid link_view (user_rows "hunter2") form_view
              fresh stored request kwargs "MQ" _ H1 H2) as (_ & _ & Hs & Hu).
  split.
  - apply (Hs (alice "hunter2")); [reflexivity | vm_compute; reflexivity].
  - destruct (Hu "link-account") as (_ & _ & _ & Hv); [vm_compute; reflexivity|].
    apply (Hv (alice "hunter2")); [reflexivity | reflexivity | vm_compute; reflexivity].
Defined.

Lemma url_token_stored_and_redirected_witness :
  let kwargs := link_kwargs "MQ" "tk-hunter2" in
  let request := link_request "tk-hunter2" in
  let d := UrlTokenMixin_dispatch link_view (user_rows "hunter2") form_view fresh ∅
             request kwargs in
  kwargs !! object_id_kwarg_name link_view = Some "MQ"
  ∧ kwargs !! token_kwarg_name link_view = Some "tk-hunter2"
  ∧ "tk-hunter2" ≠ url_token_name link_view
  ∧ get_url_object link_view (user_rows "hunter2") "MQ" = Returns (Some (alice "hunter2"))
  ∧ check_token (token_generator link_view) (alice "hunter2") (Some "tk-hunter2") = true
  ∧ response d = Returns (HttpResponseRedirect
                   (str_replace (path request) "tk-hunter2" (url_token_name link_view)))
  ∧ session d !! session_token_name link_view = Some "tk-hunter2"
  ∧ view d = {| validlink := false; url_object := Some (alice "hunter2") |}.
Proof.
  intros kwargs request d.
  assert (H1 : kwargs !! object_id_kwarg_name link_view = Some "MQ")
    by (vm_compute; reflexivity).
  assert (H2 : kwargs !! token_kwarg_name link_view = Some "tk-hunter2")
    by (vm_compute; reflexivity).
  assert (H3 : "tk-hunter2" ≠ url_token_name link_view) by (simpl; discriminate).
  assert (H4 : get_url_object link_view (user_rows "hunter2") "MQ"
               = Returns (Some (alice "hunter2"))) by (vm_compute; reflexivity).
  assert (H5 : check_token (token_generator link_view) (alice "hunter2")
                 (Some "tk-hunter2") = true) by (vm_compute; reflexivity).
  destruct (url_token_stored_and_redirected link_view (user_rows "hunter2") form_view
              fresh ∅ request kwargs "MQ" "tk-hunter2" (alice "hunter2")
              H1 H2 H3 H4 H5) as (Hr & _ & Hs & Hv & _).
  repeat (split; [assumption|]). exact Hv.
Defined.

Example link_clock :
  mailed_token = "800000000:hunter2"
  ∧ check_token_at expiring_generator followed (alice "hunter2") (Some mailed_token) = true
  ∧ check_token_at expiring_generator in_time (alice "hunter2") (Some mailed_token) = true
  ∧ check_token_at expiring_generator too_late (alice "hunter2") (Some mailed_token) = false
  ∧ check_token_at expiring_generator followed (alice "changed") (Some mailed_token) = false
  ∧ check_token_at expiring_generator followed (alice "hunter2") None = false.
Proof. vm_compute. done. Qed.

Lemma token_round_trip_witness :
  let tok := make_token_at expiring_generator mailed (alice "hunter2") in
  let kwargs := link_kwargs "MQ" mailed_token in
  let request := link_request mailed_token in
  let d := UrlTokenMixin_dispatch (link_view_at followed) (user_rows "hunter2") form_view
             fresh ∅ request kwargs in
  let form_request := link_request "link-account" in
  let form_kwargs := link_kwargs "MQ" "link-account" in
  ClockedLaws expiring_generator password reset_timeout
  ∧ followed - mailed ≤ reset_timeout
  ∧ kwargs !! object_id_kwarg_name (link_view_at followed) = Some "MQ"
  ∧ kwargs !! token_kwarg_name (link_view_at followed) = Some tok
  ∧ tok ≠ url_token_name (link_view_at followed)
  ∧ get_url_object (link_view_at followed) (user_rows "hunter2") "MQ"
    = Returns (Some (alice "hunter2"))
  ∧ (∃ url, response d = Returns (HttpResponseRedirect url))
  ∧ session d !! session_token_name (link_view_at followed) = Some tok
  ∧ SessionTokenMixin_dispatch (link_view_at in_time) (user_rows "hunter2") form_view fresh
      (session d) form_request form_kwargs
    = form_view {| validlink := true; url_object := Some (alice "hunter2") |} (session d)
        form_request form_kwargs
  ∧ SessionTokenMixin_dispatch (link_view_at in_time) (user_rows "changed") form_view fresh
      (session d) form_request form_kwargs
    = failed (link_view_at in_time) form_request
        {| validlink := false; url_object := Some (alice "changed") |} (session d)
  ∧ SessionTokenMixin_dispatch (link_view_at too_late) (user_rows "hunter2") form_view fresh
      (session d) form_request form_kwargs
    = failed (link_view_at too_late) form_request
        {| validlink := false; url_object := Some (alice "hunter2") |} (session d).
Proof.
  intros tok kwargs request d form_request form_kwargs.
  assert (H0 : followed - mailed ≤ reset_timeout)
    by (unfold followed, reset_timeout; lia).
  assert (H1 : kwargs !! object_id_kwarg_name (link_view_at followed) = Some "MQ")
    by (vm_compute; reflexivity).
  assert (H2 : kwargs !! token_kwarg_name (link_view_at followed) = Some tok)
    by (vm_compute; reflexivity).
  assert (H3 : tok ≠ url_token_name (link_view_at followed))
    by (vm_compute; discriminate).
  assert (H4 : get_url_object (link_view_at followed) (user_rows "hunter2") "MQ"
               = Returns (Some (alice "hunter2"))) by (vm_compute; reflexivity).
  destruct (token_round_trip password expiring_generator reset_timeout
              (link_view_at followed) (user_rows "hunter2") form_view fresh ∅ request
              kwargs "MQ" (alice "hunter2") mailed followed
              expiring_generator_laws eq_refl H0 H1 H2 H3 H4) as (Hr & Hs & Hlater).
  split; [exact expiring_generator_laws|].
  repeat (split; [assumption|]).
  split; [|split].
  - refine (proj1 (proj1 (Hlater (link_view_at in_time) in_time (user_rows "hunter2")
                            form_view fresh form_request form_kwargs "MQ"
                            (alice "hunter2") eq_refl eq_refl _ _) _ _));
      [vm_compute; reflexivity ..|unfold in_time; lia].
  - refine (proj1 (proj1 (proj2 (Hlater (link_view_at in_time) in_time (user_rows "changed")
                                   form_view fresh form_request form_kwargs "MQ"
                                   (alice "changed") eq_refl eq_refl _ _)) _));
      [vm_compute; reflexivity ..|].
    vm_compute. discriminate.
  - refine (proj1 (proj2 (proj2 (Hlater (link_view_at too_late) too_late
                                   (user_rows "hunter2") form_view fresh form_request
                                   form_kwargs "MQ" (alice "hunter2")
                                   eq_refl eq_refl _ _)) _));
      [vm_compute; reflexivity ..|unfold too_late; lia].
Defined.

(** The claim without the amendment fails on the sample flow: the link
    is followed an hour after it was mailed, the token is accepted and
    stored in the session; three days and a second after the mail the
    record is as it was, and the view that checks the session's token
    renders the failure template. *)
Lemma unchanged_object_expired_token :
  let d := UrlTokenMixin_dispatch (link_view_at followed) (user_rows "hunter2") form_view
             fresh ∅ (link_request mailed_token) (link_kwargs "MQ" mailed_token) in
  let form_request := link_request "link-account" in
  let form_kwargs := link_kwargs "MQ" "link-account" in
  mailed_token = make_token_at expiring_generator mailed (alice "hunter2")
  ∧ response d = Returns (HttpResponseRedirect "/account/link/MQ/link-account/")
  ∧ session d = {[ "_link_account_token" := mailed_token ]}
  ∧ get_url_object (link_view_at too_late) (user_rows "hunter2") "MQ"
    = Returns (Some (alice "hunter2"))
  ∧ SessionTokenMixin_dispatch (link_view_at too_late) (user_rows "hunter2") form_view fresh
      (session d) form_request form_kwargs
    = failed (link_view_at too_late) form_request
        {| validlink := false; url_object := Some (alice "hunter2") |} (session d)
  ∧ response (SessionTokenMixin_dispatch (link_view_at too_late) (user_rows "hunter2")
                form_view fresh (session d) form_request form_kwargs)
    = Returns (TemplateResponse "core/user_accounts/link_fail.html" 200)
  ∧ response (UrlTokenMixin_dispatch (link_view_at too_late) (user_rows "hunter2")
                form_view fresh (session d) form_request form_kwargs)
    = Returns (TemplateResponse "core/user_accounts/link_fail.html" 200).
Proof. vm_compute. done. Qed.

End tokens_examples.

(** ** The Nextcloud views *)

Module nextcloud_spec.
Import nextcloud.

Lemma table_frame_refl fs t : table_frame fs t t.
Proof. intros k. destruct (t !! k); by constructor. Qed.

Lemma update_columns_outside fs (src row : gmap string value) g :
  g ∉ fs →
  foldr (λ f r, <[f := default PyNone (src !! f)]> r) row fs !! g = row !! g.
Proof.
  induction fs as [|f fs IH]; intros Hg; simpl; [done|].
  rewrite lookup_insert_ne by set_solver. apply IH. set_solver.
Qed.

(** [save(update_fields=fs)] writes the columns [fs] of one row. *)
Lemma save_frame t instance fs :
  table_frame fs t (save t instance fs).2
  ∧ ∀ k, k ≠ inst_pk instance → (save t instance fs).2 !! k = t !! k.
Proof.
  unfold save. destruct (t !! inst_pk instance) as [row|] eqn:Hrow; simpl.
  - split.
    + intros k. destruct (decide (k = inst_pk instance)) as [->|Hk].
      * rewrite lookup_insert_eq, Hrow. constructor.
        intros g Hg. by apply update_columns_outside.
      * rewrite lookup_insert_ne by done. apply table_frame_refl.
    + intros k Hk. by rewrite lookup_insert_ne.
  - split; [apply table_frame_refl|done].
Qed.

Lemma save_written t instance fs row f :
  t !! inst_pk instance = Some row → f ∈ fs →
  ∃ row', (save t instance fs).2 !! inst_pk instance = Some row'
          ∧ row' !! f = Some (default PyNone (inst_fields instance !! f)).
Proof.
  intros Hrow Hf. unfold save. rewrite Hrow. simpl.
  rewrite lookup_insert_eq. eexists. split; [done|].
  induction Hf as [f fs|f g fs _ IH]; simpl.
  - by rewrite lookup_insert_eq.
  - destruct (decide (g = f)) as [->|Hne].
    + by rewrite lookup_insert_eq.
    + by rewrite lookup_insert_ne.
Qed.

Lemma client_db site st : db (client site st).2 = db st.
Proof. unfold client. by destruct (_client st). Qed.

Lemma client_self_file site st : self_file (client site st).2 = self_file st.
Proof. unfold client. by destruct (_client st). Qed.

Lemma redirect_with_message_db site f msg st :
  db (redirect_with_message site f msg st).2 = db st.
Proof. done. Qed.

(** C10: the repair after a 404 saves with [update_fields=["is_missing"]]:
    in both tables every row keeps every column other than [is_missing],
    no row comes or goes, and only the row of the folder or file at hand
    is written at all. *)
Theorem repair_touches_only_is_missing site error st :
  let st' := (DownloadFileview_nextcloud_operation_failed site error st).2 in
  table_frame ["is_missing"] (ncfolder (db st)) (ncfolder (db st'))
  ∧ table_frame ["is_missing"] (ncfile (db st)) (ncfile (db st'))
  ∧ (∀ f, self_file st = Some f →
       (∀ k, k ≠ inst_pk (folder f) → ncfolder (db st') !! k = ncfolder (db st) !! k)
       ∧ (∀ k, k ≠ inst_pk (file f) → ncfile (db st') !! k = ncfile (db st) !! k)).
Proof.
  cbn zeta. unfold DownloadFileview_nextcloud_operation_failed.
  destruct (self_file st) as [f|]; simpl.
  2:{ split; [apply table_frame_refl|]. split; [apply table_frame_refl|done]. }
  assert (Hsame : ∀ st0 : State, db st0 = db st →
            table_frame ["is_missing"] (ncfolder (db st)) (ncfolder (db st0))
            ∧ table_frame ["is_missing"] (ncfile (db st)) (ncfile (db st0))
            ∧ (∀ f0, Some f = Some f0 →
                 (∀ k, k ≠ inst_pk (folder f0) →
                       ncfolder (db st0) !! k = ncfolder (db st) !! k)
                 ∧ (∀ k, k ≠ inst_pk (file f0) →
                         ncfile (db st0) !! k = ncfile (db st) !! k))).
  { intros st0 ->. split; [apply table_frame_refl|].
    split; [apply table_frame_refl|done]. }
  case_bool_decide; [|by apply Hsame].
  destruct (client site st) as [c st1] eqn:Hc1.
  assert (Hdb1 : db st1 = db st) by (by rewrite <- (client_db site st), Hc1).
  destruct (exists_ c _) as [[]|e]; [| |by apply Hsame].
  - destruct (client site st1) as [c2 st2] eqn:Hc2.
    assert (Hdb2 : db st2 = db st)
      by (by rewrite <- Hdb1, <- (client_db site st1), Hc2).
    destruct (exists_ c2 _) as [[]|e]; [by apply Hsame| |by apply Hsame].
    pose proof (save_frame (ncfile (db st2))
                  (setattr (file f) "is_missing" (PyBool true)) ["is_missing"])
      as [Hframe Hother].
    simpl. destruct (save _ _ _) as [[u|e] t]; simpl in *; rewrite ?Hdb2 in *.
    + split; [apply table_frame_refl|]. split; [exact Hframe|].
      intros f0 [= <-]. split; [done|exact Hother].
    + by apply Hsame.
  - pose proof (save_frame (ncfolder (db st1))
                  (setattr (folder f) "is_missing" (PyBool true)) ["is_missing"])
      as [Hframe Hother].
    simpl. destruct (save _ _ _) as [[u|e] t]; simpl in *; rewrite ?Hdb1 in *.
    + split; [exact Hframe|]. split; [apply table_frame_refl|].
      intros f0 [= <-]. split; [exact Hother|done].
    + by apply Hsame.
Qed.

Lemma client_cached site st :
  client site (client site st).2 = client site st.
Proof. unfold client. destruct (_client st) eqn:E; simpl; by rewrite ?E. Qed.

Lemma client_messages site st : messages (client site st).2 = messages st.
Proof. unfold client. by destruct (_client st). Qed.

Lemma column_setattr_ne instance f g v :
  f ≠ g → column (inst_fields (setattr instance f v)) g = column (inst_fields instance) g.
Proof. intros Hne. unfold column, setattr. simpl. by rewrite lookup_insert_ne. Qed.

(** As long as the remote answers the handler's own questions and the
    rows at hand are still there, [DownloadFileview] turns an
    [OperationFailed] into a redirect to the folder with one message
    queued. *)
Lemma operation_failed_redirects site error st f :
  self_file st = Some f →
  (∀ v, returns (exists_ (client site st).1 v)) →
  is_Some (ncfolder (db st) !! inst_pk (folder f)) →
  is_Some (ncfile (db st) !! inst_pk (file f)) →
  ∃ msg st',
    DownloadFileview_nextcloud_operation_failed site error st
    = (Returns (HttpResponseRedirect
         (reverse_lazy site "nextcloud:folder_view"
            [("folder_slug", column (inst_fields (folder f)) "slug")])), st')
    ∧ messages st' = (messages st ++ [msg])%list
    ∧ msg ∈ [folder_missing_msg; file_missing_msg; unexpected_msg].
Proof.
  intros Hf Hex [frow Hfrow] [row Hrow].
  unfold DownloadFileview_nextcloud_operation_failed. rewrite Hf.
  case_bool_decide.
  2:{ eexists _, _. split; [reflexivity|]. split; [done|]. set_solver. }
  pose proof (client_cached site st) as Hcached.
  pose proof (client_db site st) as Hdb.
  pose proof (client_messages site st) as Hmsg.
  destruct (client site st) as [c st1]. simpl in *.
  destruct (Hex (column (inst_fields (folder f)) "folder")) as [[] ->].
  - rewrite Hcached.
    destruct (Hex (column (inst_fields (file f)) "file")) as [[] ->].
    + eexists _, _. split; [reflexivity|]. simpl. rewrite Hmsg.
      split; [done|]. set_solver.
    + unfold save. cbn [inst_pk setattr set_file db]. rewrite Hdb, Hrow.
      eexists _, _. split; [reflexivity|]. simpl. rewrite Hmsg.
      split; [done|]. set_solver.
  - unfold save. cbn [inst_pk setattr set_file db folder]. rewrite Hdb, Hfrow.
    unfold redirect_with_message. cbn [folder].
    change (column (<["is_missing":=PyBool true]> (inst_fields (folder f))) "slug")
      with (column (inst_fields (setattr (folder f) "is_missing" (PyBool true))) "slug").
    rewrite column_setattr_ne by done.
    eexists _, _. split; [reflexivity|]. simpl. rewrite Hmsg.
    split; [done|]. set_solver.
Qed.

(** An exception of the handler's own question to the remote leaves the
    handler, and with it [dispatch], as it is. *)
Lemma operation_failed_reraises site error st f e :
  self_file st = Some f →
  actual_code error = 404 →
  exists_ (client site st).1 (column (inst_fields (folder f)) "folder") = Raises e →
  (DownloadFileview_nextcloud_operation_failed site error st).1 = Raises e.
Proof.
  intros Hf Hcode He. unfold DownloadFileview_nextcloud_operation_failed.
  rewrite Hf, bool_decide_eq_true_2 by done.
  destruct (client site st) as [c st1]. simpl in *. by rewrite He.
Qed.

(** A failure of the remote storage in a view that keeps the mixin's own
    handlers ends in the 424 response. *)
Lemma dispatch_failed_dependency super_dispatch st e st' :
  super_dispatch st = (Raises e, st') →
  isinstance e ConnectionError || isinstance e OperationFailed = true →
  dispatch nextcloud_operation_failed super_dispatch st
  = (Returns (TemplateResponse failed_connection_template 424), st').
Proof.
  intros Hs He. unfold dispatch. rewrite Hs.
  destruct (isinstance e ConnectionError); [done|].
  simpl in He. by rewrite He.
Qed.

(** With the mixin's handlers the outer [try] of [FileBrowserView] never
    sees an [OperationFailed]. *)
Lemma FileBrowserView_failed_dependency super_dispatch st e st' :
  super_dispatch st = (Raises e, st') →
  isinstance e ConnectionError || isinstance e OperationFailed = true →
  FileBrowserView_dispatch super_dispatch st
  = (Returns (Some (TemplateResponse failed_connection_template 424)), st').
Proof.
  intros Hs He. unfold FileBrowserView_dispatch.
  by rewrite (dispatch_failed_dependency _ _ _ _ Hs He).
Qed.

End nextcloud_spec.

(** ** The download view on the sample folder *)

Module nextcloud_examples.
Import nextcloud nextcloud_spec minutes_mirror.

Example folder_gone_repaired :
  let r := DownloadFileview_dispatch folder_gone "GET" download_kwargs start in
  r.1 = Returns (HttpResponseRedirect "/nextcloud/minutes/")
  ∧ messages r.2 = [folder_missing_msg]
  ∧ ncfolder (db r.2) = {[ 7 := <["is_missing" := PyBool true]> minutes ]}
  ∧ ncfile (db r.2) = ncfile mirror.
Proof. vm_compute. done. Qed.

(** C9, where the code parts from it: the download fails with a 404, the
    handler asks the remote whether the folder exists, and the
    [ConnectionError] of that call leaves [dispatch]; there is neither a 424
    response nor a redirect. *)
Theorem repair_connection_error_escapes :
  (DownloadFileview_dispatch lost_midway "GET" download_kwargs start).1
  = Raises unreachable
  ∧ isinstance unreachable ConnectionError = true.
Proof. vm_compute. done. Qed.

End nextcloud_examples.

(** ** More of the view collective: cache, discovery, URLs, tabs *)

Module viewcollectives_extra.
Import viewcollectives viewcollectives_spec committee_pages_site committee_pages_routes.

(** X1: the [configs] property builds the list once: after an access
    that returned, every later access returns the same list and leaves the
    registry as it is, whatever has become of the installation; an access
    that raised leaves the registry without a list, so the next one runs
    discovery again. *)
Theorem configs_built_once env env' self :
  (∀ cs, (configs env self).1 = Returns cs →
         configs env' (configs env self).2 = (Returns cs, (configs env self).2))
  ∧ (∀ e, (configs env self).1 = Raises e →
          _configs (configs env self).2 = None
          ∧ configs env' (configs env self).2 = configs env' self).
Proof.
  unfold configs. destruct (_configs self) as [cached|] eqn:Hc; simpl.
  - rewrite Hc. split; [by intros cs [= ->]|done].
  - destruct (_get_configs env self) as [cs|e]; simpl.
    + split; [by intros ? [= ->]|done].
    + rewrite Hc. split; [done|]. by intros ? _.
Qed.

Lemma collect_module_sound self module acc :
  Forall (proper_enabled_subclass self) acc →
  Forall (proper_enabled_subclass self) (collect_module self module acc).
Proof.
  intros Hacc. rewrite collect_module_omap. apply Forall_app. split; [done|].
  apply Forall_forall. intros c Hc.
  apply list_elem_of_omap in Hc as ([n a] & _ & Hc). unfold config_of in Hc. simpl in Hc.
  destruct a as [|cls]; [done|].
  destruct (issubclass cls _) eqn:Hsub; simpl in Hc; [|done].
  case_bool_decide as Hname; simpl in Hc; [done|].
  destruct (is_enabled_result _) eqn:Hen; [|done].
  injection Hc as <-. by repeat split.
Qed.

Lemma discover_sound imp self apps acc l :
  Forall (proper_enabled_subclass self) acc →
  discover imp self apps acc = Returns l →
  Forall (proper_enabled_subclass self) l.
Proof.
  revert acc. induction apps as [|app apps IH]; intros acc Hacc; simpl.
  - by intros [= <-].
  - destruct (imp _) as [module|e].
    + apply IH. by apply collect_module_sound.
    + destruct (isinstance e ModuleNotFoundError); [by apply IH|done].
Qed.

(** X2: whatever [_get_configs] returns is made of instances of enabled
    classes that lie below the registry's config class without being that
    class, each bound to the registry: the base class, disabled classes,
    unrelated classes and plain module attributes never get in. *)
Theorem get_configs_only_proper_enabled env self l :
  _get_configs env self = Returns l →
  Forall (proper_enabled_subclass self) l.
Proof.
  unfold _get_configs.
  destruct (discover _ self _ []) as [cs|e] eqn:Hd; simpl; [|done].
  intros [= <-]. rewrite sorted_perm.
  exact (discover_sound _ _ _ [] cs (Forall_nil_2 _) Hd).
Qed.

(** X3: when no app's import raises anything but [ModuleNotFoundError],
    [_get_configs] returns the stable sort of the configs found app by
    app, in the order of the installed apps and, within an app, of its
    module. *)
Theorem get_configs_complete env self :
  Forall (importable (import_module env) self) (get_app_configs env) →
  _get_configs env self
  = Returns (sorted (λ c, order_value (attrs c))
               (concat (discovered_in (import_module env) self <$> get_app_configs env))).
Proof.
  intros Happs. unfold _get_configs.
  by rewrite (discover_in_order _ _ _ [] Happs).
Qed.

(** X4: the first predicate that raises ends [get_applicable_configs]
    with its exception; the configs after it are not asked. *)
Theorem get_applicable_configs_first_exception env self request other_kwargs
    pre c post e :
  (configs env self).1 = Returns (pre ++ c :: post)%list →
  Forall (λ c, returns (is_accessible c request other_kwargs)) pre →
  is_accessible c request other_kwargs = Raises e →
  (get_applicable_configs env self request other_kwargs).1 = Raises e.
Proof.
  intros Hcs Hpre He. unfold get_applicable_configs.
  destruct (configs env self) as [[cs|e'] self']; simpl in *; [|done].
  injection Hcs as ->. by apply applicable_loop_raises.
Qed.

Lemma base_is_accessible_requirements c request :
  base_is_accessible c request ∅ = Returns (meets_requirements c request).
Proof.
  unfold base_is_accessible, meets_requirements.
  rewrite bool_decide_eq_true_2 by done.
  destruct (requires_login _), (user_is_authenticated request),
    (requires_membership _), (member request); done.
Qed.

(** X5: a view whose config inherits the predicate and that passes no
    extra keywords hands the request on exactly when login and membership,
    as far as the config asks for them, are there; otherwise [dispatch]
    raises [PermissionDenied] and the next [dispatch] is not run. With an
    extra keyword it raises [TypeError]. *)
Theorem dispatch_checks_requirements self super_dispatch request check_kwargs :
  is_accessible_override (attrs (config self)) = None →
  (check_kwargs = ∅ →
     dispatch self check_kwargs super_dispatch request
     = if meets_requirements (config self) request then super_dispatch
       else Raises (Exn PermissionDenied EmptyString 0))
  ∧ (check_kwargs ≠ ∅ →
     ∃ e, dispatch self check_kwargs super_dispatch request = Raises e
          ∧ exn_cls e = TypeError).
Proof.
  intros Hbase. unfold dispatch, is_accessible. rewrite Hbase. split.
  - intros ->. rewrite base_is_accessible_requirements. simpl.
    by destruct (meets_requirements _ _).
  - intros Hne. unfold base_is_accessible. rewrite bool_decide_eq_false_2 by done.
    simpl. eauto.
Qed.

(** A tab that shows a config. *)
Lemma tabs_loop_shows reverse same_object self ns cs tabs :
  Forall (λ c, ∃ n target, url_name (attrs c) = Some n
                           ∧ reverse (ns +:+ ":" +:+ n) = Returns target) cs →
  ∃ new, tabs_loop reverse same_object self ns cs tabs = Returns (tabs ++ new)%list
         ∧ Forall2 (λ c t, tab_name t = None
                           ∧ verbose t = name (attrs c)
                           ∧ tab_icon_class t = icon_class (attrs c)
                           ∧ selected t = same_object c (config self)
                           ∧ ∃ n, url_name (attrs c) = Some n
                                  ∧ reverse (ns +:+ ":" +:+ n) = Returns (url t))
                   cs new.
Proof.
  intros Hcs. revert tabs.
  induction Hcs as [|c cs (n & target & Hn & Hrev) _ IH]; intros tabs; simpl.
  - exists []. by rewrite app_nil_r.
  - rewrite Hn, Hrev. simpl.
    destruct (IH (tabs ++ [{| tab_name := None; verbose := name (attrs c);
                              tab_icon_class := icon_class (attrs c); url := target;
                              selected := same_object c (config self) |}])%list)
      as (new & -> & Hnew).
    eexists (_ :: new). rewrite <- app_assoc. split; [reflexivity|].
    constructor; [|exact Hnew]. simpl. eauto 10.
Qed.

(** X6: [get_tabs] shows one tab for each config the request may reach,
    in the order of [configs], and none for the others: the tab carries
    the config's name and icon and the reversed URL of
    [<registry namespace>:<url_name>]. (The predicates return, the
    configs shown have a [url_name] that reverses.) *)
Theorem get_tabs_one_per_applicable env reverse same_object self registry request
    check_kwargs cs :
  (configs env registry).1 = Returns cs →
  Forall (λ c, returns (is_accessible c request check_kwargs)) cs →
  Forall (λ c, is_accessible c request check_kwargs = Returns true →
               ∃ n target, url_name (attrs c) = Some n
                 ∧ reverse (reg_namespace registry +:+ ":" +:+ n) = Returns target) cs →
  ∃ tabs,
    (get_tabs env reverse same_object self registry request check_kwargs).1 = Returns tabs
    ∧ Forall2 (λ c t, tab_name t = None
                      ∧ verbose t = name (attrs c)
                      ∧ tab_icon_class t = icon_class (attrs c)
                      ∧ selected t = same_object c (config self)
                      ∧ ∃ n, url_name (attrs c) = Some n
                             ∧ reverse (reg_namespace registry +:+ ":" +:+ n)
                               = Returns (url t))
        (filter (λ c, is_accessible c request check_kwargs = Returns true) cs) tabs.
Proof.
  intros Hcs Hret Hurl. unfold get_tabs, get_applicable_configs.
  destruct (configs env registry) as [[cs'|e] registry']; simpl in *; [|done].
  injection Hcs as ->. rewrite applicable_loop_filter by done. simpl.
  destruct (tabs_loop_shows reverse same_object self (reg_namespace registry)
              (filter (λ c, is_accessible c request check_kwargs = Returns true) cs) [])
    as (new & Hnew & Hall).
  - apply Forall_forall. intros c Hc. apply list_elem_of_filter in Hc as [Hacc Hin].
    rewrite Forall_forall in Hurl. by apply Hurl.
  - exists new. by rewrite Hnew.
Qed.

Lemma tabs_loop_nameless reverse same_object self ns pre c post tabs :
  Forall (λ c, ∃ n target, url_name (attrs c) = Some n
                           ∧ reverse (ns +:+ ":" +:+ n) = Returns target) pre →
  url_name (attrs c) = None →
  ∃ e, tabs_loop reverse same_object self ns (pre ++ c :: post) tabs = Raises e
       ∧ exn_cls e = TypeError.
Proof.
  intros Hpre Hc. revert tabs.
  induction Hpre as [|d pre (n & target & Hn & Hrev) _ IH]; intros tabs; simpl.
  - rewrite Hc. eauto.
  - rewrite Hn, Hrev. simpl. apply IH.
Qed.

(** X7: [url_name] is [None] unless a config class sets it, and
    [get_tabs] adds it to a string: one reachable config without a
    [url_name] ends [get_tabs] with a [TypeError], for every view of the
    collective. *)
Theorem get_tabs_needs_url_name env reverse same_object self registry request
    check_kwargs pre c post :
  (configs env registry).1 = Returns (pre ++ c :: post)%list →
  Forall (λ c, returns (is_accessible c request check_kwargs)) (pre ++ c :: post) →
  Forall (λ c, is_accessible c request check_kwargs = Returns true →
               ∃ n target, url_name (attrs c) = Some n
                 ∧ reverse (reg_namespace registry +:+ ":" +:+ n) = Returns target) pre →
  is_accessible c request check_kwargs = Returns true →
  url_name (attrs c) = None →
  ∃ e, (get_tabs env reverse same_object self registry request check_kwargs).1 = Raises e
       ∧ exn_cls e = TypeError.
Proof.
  intros Hcs Hret Hpre Hacc Hnone. unfold get_tabs, get_applicable_configs.
  destruct (configs env registry) as [[cs'|e] registry']; simpl in *; [|done].
  injection Hcs as ->. rewrite applicable_loop_filter by done. simpl.
  rewrite filter_app, filter_cons_True by done.
  apply tabs_loop_nameless; [|done].
  apply Forall_forall. intros d Hd. apply list_elem_of_filter in Hd as [Hd Hin].
  rewrite Forall_forall in Hpre. by apply Hpre.
Qed.

Lemma urls_loop_all get_urls cs acc :
  Forall (λ c, returns (get_urls c)) cs →
  ∃ new, urls_loop get_urls cs acc = Returns (acc ++ new)%list
         ∧ Forall2 (λ c u, resolver_route u = url_key c
                           ∧ get_urls c = Returns (url_patterns u)
                           ∧ app_name u = namespace (attrs c)
                           ∧ resolver_namespace u = namespace (attrs c)) cs new.
Proof.
  intros Hcs. revert acc.
  induction Hcs as [|c cs [patterns Hp] _ IH]; intros acc; simpl.
  - exists []. by rewrite app_nil_r.
  - unfold urls at 1. rewrite Hp. simpl.
    destruct (IH (acc ++ [{| resolver_route := url_key c; url_patterns := patterns;
                             app_name := namespace (attrs c);
                             resolver_namespace := namespace (attrs c) |}])%list)
      as (new & -> & Hnew).
    eexists (_ :: new). rewrite <- app_assoc. split; [reflexivity|].
    by constructor.
Qed.

(** X8: [ViewCollectiveRegistry.get_urls] answers one sub-tree per config
    of [configs], in that order: its prefix is the config's [url_keyword]
    followed by a slash, or empty when the keyword is [None] or empty; it
    holds what the config's [get_urls] returns; both its namespaces are
    the config's [namespace]. The exported namespace is the registry's, or
    [None] when called with [with_namespace=False]. *)
Theorem Registry_get_urls_one_per_config env get_urls self with_namespace cs :
  (configs env self).1 = Returns cs →
  Forall (λ c, returns (get_urls c)) cs →
  ∃ urlpatterns,
    (Registry_get_urls env get_urls self with_namespace).1
    = Returns (urlpatterns,
               if with_namespace then Some (reg_namespace self) else None,
               if with_namespace then Some (reg_namespace self) else None)
    ∧ Forall2 (λ c u, resolver_route u = url_key c
                      ∧ get_urls c = Returns (url_patterns u)
                      ∧ app_name u = namespace (attrs c)
                      ∧ resolver_namespace u = namespace (attrs c)) cs urlpatterns.
Proof.
  intros Hcs Hall. unfold Registry_get_urls.
  destruct (configs env self) as [[cs'|e] self']; simpl in *; [|done].
  injection Hcs as ->.
  destruct (urls_loop_all get_urls cs [] Hall) as (new & -> & Hnew).
  exists new. by split.
Qed.

Lemma urls_loop_raises get_urls pre c post acc e :
  Forall (λ c, returns (get_urls c)) pre →
  get_urls c = Raises e →
  urls_loop get_urls (pre ++ c :: post) acc = Raises e.
Proof.
  intros Hpre He. revert acc.
  induction Hpre as [|d pre [patterns Hp] _ IH]; intros acc; simpl.
  - unfold urls. by rewrite He.
  - unfold urls at 1. rewrite Hp. simpl. apply IH.
Qed.

(** X9: a config whose class does not define [get_urls] makes the
    registry's [get_urls] raise [NotImplementedError]: the URL tree of the
    whole collective cannot be built. *)
Theorem Registry_get_urls_not_implemented env get_urls self with_namespace pre c post :
  (configs env self).1 = Returns (pre ++ c :: post)%list →
  Forall (λ c, returns (get_urls c)) pre →
  get_urls c = base_get_urls c →
  ∃ e, (Registry_get_urls env get_urls self with_namespace).1 = Raises e
       ∧ exn_cls e = NotImplementedError.
Proof.
  intros Hcs Hpre Hc. unfold Registry_get_urls.
  destruct (configs env self) as [[cs'|e] self']; simpl in *; [|done].
  injection Hcs as ->.
  rewrite (urls_loop_raises get_urls pre c post [] _ Hpre Hc). simpl. eauto.
Qed.

End viewcollectives_extra.

(** ** The sample installation: discovery, URLs and tabs *)

Module viewcollectives_extra_examples.
Import viewcollectives viewcollectives_spec viewcollectives_extra.
Import committee_pages_site committee_pages_routes.

Lemma site_importable :
  Forall (importable (import_module site) registry) (get_app_configs site).
Proof.
  repeat constructor; intros e; vm_compute; try discriminate; by intros [= <-].
Qed.

Lemma sorted_site_predicates_return :
  Forall (λ c, returns (is_accessible c anonymous ∅)) sorted_site.
Proof. repeat apply Forall_cons_2; [eexists; reflexivity ..|apply Forall_nil_2]. Qed.

Lemma get_configs_only_proper_enabled_witness :
  _get_configs site registry = Returns sorted_site
  ∧ Forall (proper_enabled_subclass registry) sorted_site.
Proof.
  assert (H : _get_configs site registry = Returns sorted_site) by reflexivity.
  split; [exact H|].
  exact (get_configs_only_proper_enabled site registry sorted_site H).
Defined.

Lemma get_configs_complete_witness :
  Forall (importable (import_module site) registry) (get_app_configs site)
  ∧ _get_configs site registry
    = Returns (sorted (λ c, order_value (attrs c))
                 (concat (discovered_in (import_module site) registry
                            <$> get_app_configs site))).
Proof.
  split; [exact site_importable|].
  exact (get_configs_complete site registry site_importable).
Defined.

Lemma get_applicable_configs_first_exception_witness :
  let filters : gmap string value := {[ "association_group" := PyInt 3 ]} in
  let e := Exn TypeError "is_accessible() got an unexpected keyword argument" 0 in
  (configs site registry).1
  = Returns ([] ++ instance members_class :: [instance agenda_class; instance info_class])%list
  ∧ is_accessible (instance members_class) anonymous filters = Raises e
  ∧ (get_applicable_configs site registry anonymous filters).1 = Raises e.
Proof.
  intros filters e.
  assert (H1 : (configs site registry).1
               = Returns ([] ++ instance members_class
                             :: [instance agenda_class; instance info_class])%list)
    by reflexivity.
  assert (H2 : is_accessible (instance members_class) anonymous filters = Raises e)
    by (vm_compute; reflexivity).
  split; [exact H1|]. split; [exact H2|].
  exact (get_applicable_configs_first_exception site registry anonymous filters
           [] _ _ e H1 (Forall_nil_2 _) H2).
Defined.

Lemma dispatch_checks_requirements_witness :
  is_accessible_override (attrs (config agenda_view)) = None
  ∧ dispatch agenda_view ∅ (Returns (ViewResponse "agenda")) anonymous
    = Returns (ViewResponse "agenda")
  ∧ dispatch {| config := instance members_class; base_view := "TemplateView" |} ∅
      (Returns (ViewResponse "members")) anonymous
    = Raises (Exn PermissionDenied EmptyString 0).
Proof.
  split; [reflexivity|]. split.
  - exact (proj1 (dispatch_checks_requirements agenda_view
                    (Returns (ViewResponse "agenda")) anonymous ∅ eq_refl) eq_refl).
  - exact (proj1 (dispatch_checks_requirements
                    {| config := instance members_class; base_view := "TemplateView" |}
                    (Returns (ViewResponse "members")) anonymous ∅ eq_refl) eq_refl).
Defined.

Lemma sorted_site_tabs_reverse :
  Forall (λ c, is_accessible c anonymous ∅ = Returns true →
               ∃ n target, url_name (attrs c) = Some n
                 ∧ sample_reverse (reg_namespace registry +:+ ":" +:+ n) = Returns target)
    sorted_site.
Proof.
  repeat apply Forall_cons_2;
    [intros _; eexists _, _; split; reflexivity ..|apply Forall_nil_2].
Qed.

Lemma get_tabs_one_per_applicable_witness :
  (configs site registry).1 = Returns sorted_site
  ∧ ∃ tabs,
      (get_tabs site sample_reverse same_class agenda_view registry anonymous ∅).1
      = Returns tabs
      ∧ Forall2 (λ c t, tab_name t = None
                        ∧ verbose t = name (attrs c)
                        ∧ tab_icon_class t = icon_class (attrs c)
                        ∧ selected t = same_class c (config agenda_view)
                        ∧ ∃ n, url_name (attrs c) = Some n
                               ∧ sample_reverse (reg_namespace registry +:+ ":" +:+ n)
                                 = Returns (url t))
          (filter (λ c, is_accessible c anonymous ∅ = Returns true) sorted_site) tabs.
Proof.
  assert (H : (configs site registry).1 = Returns sorted_site) by reflexivity.
  split; [exact H|].
  exact (get_tabs_one_per_applicable site sample_reverse same_class agenda_view registry
           anonymous ∅ sorted_site H sorted_site_predicates_return
           sorted_site_tabs_reverse).
Defined.

Lemma get_tabs_needs_url_name_witness :
  let cs := ([instance agenda_class] ++ instance nameless_class :: [instance info_class])%list in
  (configs site (cached_registry cs)).1 = Returns cs
  ∧ is_accessible (instance nameless_class) anonymous ∅ = Returns true
  ∧ url_name (attrs (instance nameless_class)) = None
  ∧ ∃ e, (get_tabs site sample_reverse same_class agenda_view (cached_registry cs)
            anonymous ∅).1 = Raises e
         ∧ exn_cls e = TypeError.
Proof.
  intros cs.
  assert (H1 : (configs site (cached_registry cs)).1 = Returns cs) by reflexivity.
  assert (H2 : Forall (λ c, returns (is_accessible c anonymous ∅)) cs)
    by (repeat apply Forall_cons_2; [eexists; reflexivity ..|apply Forall_nil_2]).
  assert (H3 : Forall (λ c, is_accessible c anonymous ∅ = Returns true →
                 ∃ n target, url_name (attrs c) = Some n
                   ∧ sample_reverse (reg_namespace (cached_registry cs) +:+ ":" +:+ n)
                     = Returns target) [instance agenda_class])
    by (apply Forall_cons_2; [intros _; eexists _, _; split; reflexivity|apply Forall_nil_2]).
  split; [exact H1|]. split; [reflexivity|]. split; [reflexivity|].
  exact (get_tabs_needs_url_name site sample_reverse same_class agenda_view
           (cached_registry cs) anonymous ∅ [instance agenda_class]
           (instance nameless_class) [instance info_class] H1 H2 H3 eq_refl eq_refl).
Defined.

Lemma Registry_get_urls_one_per_config_witness :
  (configs site registry).1 = Returns sorted_site
  ∧ Forall (λ c, returns (all_get_urls c)) sorted_site
  ∧ ∃ urlpatterns,
      (Registry_get_urls site all_get_urls registry false).1
      = Returns (urlpatterns, None, None)
      ∧ Forall2 (λ c u, resolver_route u = url_key c
                        ∧ all_get_urls c = Returns (url_patterns u)
                        ∧ app_name u = namespace (attrs c)
                        ∧ resolver_namespace u = namespace (attrs c))
          sorted_site urlpatterns.
Proof.
  assert (H1 : (configs site registry).1 = Returns sorted_site) by reflexivity.
  assert (H2 : Forall (λ c, returns (all_get_urls c)) sorted_site)
    by (repeat apply Forall_cons_2; [eexists; reflexivity ..|apply Forall_nil_2]).
  split; [exact H1|]. split; [exact H2|].
  exact (Registry_get_urls_one_per_config site all_get_urls registry false sorted_site
           H1 H2).
Defined.

Lemma Registry_get_urls_not_implemented_witness :
  (configs site registry).1
  = Returns ([instance members_class; instance agenda_class]
             ++ instance info_class :: [])%list
  ∧ sample_get_urls (instance info_class) = base_get_urls (instance info_class)
  ∧ ∃ e, (Registry_get_urls site sample_get_urls registry true).1 = Raises e
         ∧ exn_cls e = NotImplementedError.
Proof.
  assert (H1 : (configs site registry).1
               = Returns ([instance members_class; instance agenda_class]
                          ++ instance info_class :: [])%list) by reflexivity.
  assert (H2 : Forall (λ c, returns (sample_get_urls c))
                 [instance members_class; instance agenda_class])
    by (repeat apply Forall_cons_2; [eexists; reflexivity ..|apply Forall_nil_2]).
  split; [exact H1|]. split; [reflexivity|].
  exact (Registry_get_urls_not_implemented site sample_get_urls registry true _ _ _
           H1 H2 eq_refl).
Defined.

End viewcollectives_extra_examples.

(** ** More of the token mixins: uncaught errors, missing and deleted tokens *)

Module tokens_extra.
Import tokens tokens_spec.

Lemma get_url_object_uncaught self table uidb64 e :
  lookup_raises (object_class self) uidb64 e →
  except_any get_url_object_excepted e = false →
  get_url_object self table uidb64 = Raises e.
Proof.
  intros [H1 | [(bytes & H1 & H2) | (bytes & uid & H1 & H2 & H3)]] He;
    unfold get_url_object, manager_get; rewrite H1; cbn [Py.bind];
    rewrite ?H2; cbn [Py.bind]; rewrite ?H3; cbn [Py.bind]; by rewrite He.
Qed.

(** X10: [get_url_object] folds five exception classes and no other: an
    exception of any other class from the decoder, from [bytes.decode] or
    from the key conversion (a lost database connection, say) leaves
    [get_url_object] and with it the [dispatch] of either mixin; the flag
    is false, the session is as it was and neither the failure template
    nor the wrapped view answers. *)
Theorem uncaught_lookup_error_leaves_dispatch self table next state sess request kwargs
    uidb64 e :
  kwargs !! object_id_kwarg_name self = Some uidb64 →
  lookup_raises (object_class self) uidb64 e →
  except_any get_url_object_excepted e = false →
  let gone := {| response := Raises e;
                 view := {| validlink := false; url_object := url_object state |};
                 session := sess |} in
  get_url_object self table uidb64 = Raises e
  ∧ SessionTokenMixin_dispatch self table next state sess request kwargs = gone
  ∧ (∀ token, kwargs !! token_kwarg_name self = Some token →
              UrlTokenMixin_dispatch self table next state sess request kwargs = gone).
Proof.
  intros Hk Hraise He. cbn zeta.
  pose proof (get_url_object_uncaught self table uidb64 e Hraise He) as Hobj.
  split; [exact Hobj|]. split.
  - unfold SessionTokenMixin_dispatch. by rewrite Hk, Hobj.
  - intros token Ht. unfold UrlTokenMixin_dispatch. by rewrite Hk, Ht, Hobj.
Qed.

(** X11: with a generator that rejects a missing token, as Django's do,
    a session without a stored token is an invalid link for every object:
    the view behind [SessionTokenMixin] and the sentinel URL both answer
    with the failure template, so neither can be entered without the
    visit that stores the token. *)
Theorem no_stored_token_is_invalid self table next state sess request kwargs uidb64 o :
  rejects_missing_token (token_generator self) →
  kwargs !! object_id_kwarg_name self = Some uidb64 →
  get_url_object self table uidb64 = Returns (Some o) →
  sess !! session_token_name self = None →
  let invalid := failed self request {| validlink := false; url_object := Some o |} sess in
  SessionTokenMixin_dispatch self table next state sess request kwargs = invalid
  ∧ (kwargs !! token_kwarg_name self = Some (url_token_name self) →
     UrlTokenMixin_dispatch self table next state sess request kwargs = invalid).
Proof.
  intros Hrej Hk Hobj Hnone. cbn zeta.
  rewrite (SessionTokenMixin_dispatch_found _ _ _ _ _ _ _ _ _ Hk Hobj).
  rewrite Hnone, Hrej. split; [done|]. intros Ht.
  rewrite (UrlTokenMixin_dispatch_found _ _ _ _ _ _ _ _ _ _ Hk Ht Hobj).
  by rewrite bool_decide_eq_true_2, Hnone, Hrej.
Qed.

(** X12: [delete_token] takes the stored token, and only it, out of the
    session; after that a second [delete_token] raises [KeyError], and
    with a generator that rejects a missing token the link is invalid
    again, although the object has not changed. *)
Theorem delete_token_ends_the_link self table next state sess request kwargs uidb64 o tok :
  rejects_missing_token (token_generator self) →
  sess !! session_token_name self = Some tok →
  kwargs !! object_id_kwarg_name self = Some uidb64 →
  get_url_object self table uidb64 = Returns (Some o) →
  let sess' := (delete_token self sess).2 in
  (delete_token self sess).1 = Returns ()
  ∧ sess' !! session_token_name self = None
  ∧ (∀ k, k ≠ session_token_name self → sess' !! k = sess !! k)
  ∧ (∃ e, delete_token self sess' = (Raises e, sess') ∧ exn_cls e = KeyError)
  ∧ SessionTokenMixin_dispatch self table next state sess' request kwargs
    = failed self request {| validlink := false; url_object := Some o |} sess'.
Proof.
  intros Hrej Htok Hk Hobj. cbn zeta.
  assert (Hd : delete_token self sess
               = (Returns (), delete (session_token_name self) sess))
    by (unfold delete_token; by rewrite Htok).
  rewrite Hd. cbn [fst snd].
  split; [done|]. split; [apply lookup_delete_eq|].
  split; [intros k Hne; by apply lookup_delete_ne|].
  split.
  - unfold delete_token. rewrite lookup_delete_eq. eauto.
  - rewrite (SessionTokenMixin_dispatch_found _ _ _ _ _ _ _ _ _ Hk Hobj).
    by rewrite lookup_delete_eq, Hrej.
Qed.

End tokens_extra.

(** ** The sample flow: outages, missing and deleted tokens *)

Module tokens_extra_examples.
Import tokens tokens_spec tokens_extra link_account_flow link_account_outage.

Lemma plain_generator_rejects_missing : rejects_missing_token plain_generator.
Proof. intros o. reflexivity. Qed.

Lemma uncaught_lookup_error_leaves_dispatch_witness :
  let kwargs := link_kwargs "MQ" "link-account" in
  let request := link_request "link-account" in
  kwargs !! object_id_kwarg_name offline_view = Some "MQ"
  ∧ lookup_raises (object_class offline_view) "MQ" connection_lost
  ∧ except_any get_url_object_excepted connection_lost = false
  ∧ get_url_object offline_view (user_rows "hunter2") "MQ" = Raises connection_lost
  ∧ response (SessionTokenMixin_dispatch offline_view (user_rows "hunter2") form_view
                fresh stored request kwargs) = Raises connection_lost.
Proof.
  intros kwargs request.
  assert (H1 : kwargs !! object_id_kwarg_name offline_view = Some "MQ")
    by (vm_compute; reflexivity).
  assert (H2 : lookup_raises (object_class offline_view) "MQ" connection_lost)
    by (right; right; eexists _, _; repeat split; reflexivity).
  assert (H3 : except_any get_url_object_excepted connection_lost = false)
    by reflexivity.
  split; [exact H1|]. split; [exact H2|]. split; [exact H3|].
  destruct (uncaught_lookup_error_leaves_dispatch offline_view (user_rows "hunter2")
              form_view fresh stored request kwargs "MQ" connection_lost H1 H2 H3)
    as (Hobj & Hs & _).
  split; [exact Hobj|]. by rewrite Hs.
Defined.

Lemma no_stored_token_is_invalid_witness :
  let kwargs := link_kwargs "MQ" "link-account" in
  let request := link_request "link-account" in
  let invalid := failed link_view request
                   {| validlink := false; url_object := Some (alice "hunter2") |} ∅ in
  rejects_missing_token (token_generator link_view)
  ∧ kwargs !! object_id_kwarg_name link_view = Some "MQ"
  ∧ get_url_object link_view (user_rows "hunter2") "MQ" = Returns (Some (alice "hunter2"))
  ∧ (∅ : gmap string string) !! session_token_name link_view = None
  ∧ SessionTokenMixin_dispatch link_view (user_rows "hunter2") form_view fresh ∅
      request kwargs = invalid
  ∧ UrlTokenMixin_dispatch link_view (user_rows "hunter2") form_view fresh ∅
      request kwargs = invalid.
Proof.
  intros kwargs request invalid.
  assert (H1 : kwargs !! object_id_kwarg_name link_view = Some "MQ")
    by (vm_compute; reflexivity).
  assert (H2 : get_url_object link_view (user_rows "hunter2") "MQ"
               = Returns (Some (alice "hunter2"))) by (vm_compute; reflexivity).
  assert (H3 : (∅ : gmap string string) !! session_token_name link_view = None)
    by reflexivity.
  destruct (no_stored_token_is_invalid link_view (user_rows "hunter2") form_view fresh ∅
              request kwargs "MQ" (alice "hunter2") plain_generator_rejects_missing
              H1 H2 H3) as [Hs Hu].
  split; [exact plain_generator_rejects_missing|].
  repeat (split; [assumption|]).
  apply Hu. vm_compute; reflexivity.
Defined.

Lemma delete_token_ends_the_link_witness :
  let kwargs := link_kwargs "MQ" "link-account" in
  let request := link_request "link-account" in
  let sess' := (delete_token link_view stored).2 in
  stored !! session_token_name link_view = Some "tk-hunter2"
  ∧ (delete_token link_view stored).1 = Returns ()
  ∧ sess' !! session_token_name link_view = None
  ∧ SessionTokenMixin_dispatch link_view (user_rows "hunter2") form_view fresh sess'
      request kwargs
    = failed link_view request
        {| validlink := false; url_object := Some (alice "hunter2") |} sess'.
Proof.
  intros kwargs request sess'.
  assert (H0 : stored !! session_token_name link_view = Some "tk-hunter2")
    by (vm_compute; reflexivity).
  assert (H1 : kwargs !! object_id_kwarg_name link_view = Some "MQ")
    by (vm_compute; reflexivity).
  assert (H2 : get_url_object link_view (user_rows "hunter2") "MQ"
               = Returns (Some (alice "hunter2"))) by (vm_compute; reflexivity).
  destruct (delete_token_ends_the_link link_view (user_rows "hunter2") form_view fresh
              stored request kwargs "MQ" (alice "hunter2") "tk-hunter2"
              plain_generator_rejects_missing H0 H1 H2) as (Hd & Hn & _ & _ & Hs).
  repeat (split; [assumption|]). exact Hs.
Defined.

End tokens_extra_examples.

(** ** More of the Nextcloud views: what answers a failed download *)

Module nextcloud_extra.
Import nextcloud nextcloud_spec.

Lemma operation_failed_not_connection e :
  isinstance e OperationFailed = true → isinstance e ConnectionError = false.
Proof. destruct e as [cls msg code]. by destruct cls. Qed.

Lemma default_handlers_never_leak_aux super_dispatch st e :
  (dispatch nextcloud_operation_failed super_dispatch st).1 = Raises e →
  isinstance e ConnectionError = false ∧ isinstance e OperationFailed = false.
Proof.
  unfold dispatch. destruct (super_dispatch st) as [[r|e'] st']; simpl; [done|].
  destruct (isinstance e' ConnectionError) eqn:Hc; [done|].
  destruct (isinstance e' OperationFailed) eqn:Ho; [done|].
  simpl. by intros [= <-].
Qed.

(** X13: a view that keeps the mixin's own handlers never lets a
    [ConnectionError] or an [OperationFailed] (or a subclass, such as a
    connect timeout) out of [dispatch]: each becomes the response with
    status 424, the state is as the view left it; responses and all other
    exceptions pass unchanged. *)
Theorem default_handlers_never_leak super_dispatch st :
  let result := dispatch nextcloud_operation_failed super_dispatch st in
  (∀ e, result.1 = Raises e →
        isinstance e ConnectionError = false ∧ isinstance e OperationFailed = false)
  ∧ (∀ e st', super_dispatch st = (Raises e, st') →
       result = if isinstance e ConnectionError || isinstance e OperationFailed
                then (Returns (TemplateResponse failed_connection_template 424), st')
                else (Raises e, st'))
  ∧ (∀ r st', super_dispatch st = (Returns r, st') → result = (Returns r, st')).
Proof.
  cbn zeta. unfold dispatch.
  destruct (super_dispatch st) as [[r|e] st']; simpl.
  - split; [done|]. split; [done|]. by intros ? ? [= -> ->].
  - split; [|split; [|done]].
    + destruct (isinstance e ConnectionError) eqn:Hc; [done|].
      destruct (isinstance e OperationFailed) eqn:Ho; [done|].
      simpl. by intros ? [= <-].
    + intros ? ? [= <- <-].
      destruct (isinstance e ConnectionError); [done|].
      by destruct (isinstance e OperationFailed).
Qed.

(** X14: the [except OperationFailed] clause of [FileBrowserView.dispatch]
    is never entered: the mixin's [dispatch] inside it has already turned
    the exception into the 424 response. The view answers what the mixin
    answers; it never renders [browser_not_exist.html] for a failed
    listing and never falls off the end of the handler. *)
Theorem FileBrowserView_handler_unreachable super_dispatch st :
  match dispatch nextcloud_operation_failed super_dispatch st with
  | (Returns r, st') => FileBrowserView_dispatch super_dispatch st = (Returns (Some r), st')
  | (Raises e, st') => FileBrowserView_dispatch super_dispatch st = (Raises e, st')
  end
  ∧ (∀ e st', super_dispatch st = (Raises e, st') →
       isinstance e OperationFailed = true →
       FileBrowserView_dispatch super_dispatch st
       = (Returns (Some (TemplateResponse failed_connection_template 424)), st')).
Proof.
  split.
  - unfold FileBrowserView_dispatch.
    pose proof (default_handlers_never_leak_aux super_dispatch st) as Hleak.
    destruct (dispatch nextcloud_operation_failed super_dispatch st) as [[r|e] st'];
      [done|].
    destruct (Hleak e eq_refl) as [_ ->]. done.
  - intros e st' Hs He. apply (FileBrowserView_failed_dependency _ _ e); [done|].
    by rewrite He, orb_true_r.
Qed.

Lemma get_object_or_404_rows d folder_slug slug f :
  get_object_or_404 d folder_slug slug = Returns f →
  ncfile d !! inst_pk (file f) = Some (inst_fields (file f))
  ∧ ncfolder d !! inst_pk (folder f) = Some (inst_fields (folder f)).
Proof.
  unfold get_object_or_404.
  destruct (omap _ (map_to_list (ncfile d))) as [|f0 [|f1 l]] eqn:Hm; try done.
  intros [= ->].
  assert (Hin : f ∈ omap (λ '(k, row),
      match column row "folder_id" with
      | PyInt fk =>
          match ncfolder d !! fk with
          | Some frow =>
              if bool_decide (column frow "slug" = kwarg folder_slug)
                 && bool_decide (column row "slug" = kwarg slug)
              then Some {| file := {| inst_pk := k; inst_fields := row |};
                           folder := {| inst_pk := fk; inst_fields := frow |} |}
              else None
          | None => None
          end
      | _ => None
      end) (map_to_list (ncfile d))) by (rewrite Hm; left).
  apply list_elem_of_omap in Hin as ([k row] & Hrow & Hf).
  apply elem_of_map_to_list in Hrow.
  destruct (column row "folder_id") as [| |fk|]; try done.
  destruct (ncfolder d !! fk) as [frow|] eqn:Hfrow; [|done].
  destruct (_ && _); [|done]. by injection Hf as <-.
Qed.

Lemma get_object_or_404_exceptions d folder_slug slug e :
  get_object_or_404 d folder_slug slug = Raises e →
  exn_cls e = Http404 ∨ exn_cls e = MultipleObjectsReturned.
Proof.
  unfold get_object_or_404.
  destruct (omap _ (map_to_list (ncfile d))) as [|f0 [|f1 l]]; try done;
    intros [= <-]; auto.
Qed.

Lemma client_set_file site f st :
  client site (set_file f st) = ((client site st).1, set_file f (client site st).2).
Proof.
  unfold client, set_file. simpl. destruct (_client st) eqn:E; simpl; by rewrite ?E.
Qed.

Lemma client_after_get site f st :
  client site (set_file f (client site st).2)
  = ((client site st).1, set_file f (client site st).2).
Proof. by rewrite client_set_file, client_cached. Qed.

(** What [get] does once the file is found. *)
Lemma get_found site kwargs st f :
  get_object_or_404 (db st) (kwargs !! "folder_slug") (kwargs !! "file_slug") = Returns f →
  get site kwargs st
  = match download (client site st).1 (file f) with
    | Raises e => (Raises e, set_file f (client site st).2)
    | Returns file_data =>
        (Returns (AttachmentResponse file_data "application/vnd.ms-excel"
           match column (inst_fields (file f)) "file_name" with
           | PyStr n => "attachment; filename=" +:+ dquote +:+ n +:+ dquote
           | _ => "attachment; filename=" +:+ dquote +:+ "None" +:+ dquote
           end), set_file f (client site st).2)
    end.
Proof.
  intros Hf. unfold get. rewrite Hf, client_set_file. simpl.
  by destruct (download _ _).
Qed.

(** X15: a GET for a file that is not in the database ends in [Http404]
    (or [MultipleObjectsReturned]) before the client is built: the mixin
    lets the exception through and the state is untouched. A file that is
    found and downloads is answered as an attachment, a download that ends
    in a [ConnectionError] with the 424 response; in all three cases the
    database and the message queue are as they were. *)
Theorem download_never_writes site method kwargs st :
  method = "GET" ∨ method = "HEAD" →
  let found :=
    get_object_or_404 (db st) (kwargs !! "folder_slug") (kwargs !! "file_slug") in
  let result := DownloadFileview_dispatch site method kwargs st in
  (∀ e, found = Raises e →
        result = (Raises e, st)
        ∧ (exn_cls e = Http404 ∨ exn_cls e = MultipleObjectsReturned))
  ∧ (∀ f, found = Returns f →
       (∀ file_data, download (client site st).1 (file f) = Returns file_data →
          ∃ disposition,
            result.1 = Returns (AttachmentResponse file_data "application/vnd.ms-excel"
                                  disposition)
            ∧ db result.2 = db st ∧ messages result.2 = messages st
            ∧ self_file result.2 = Some f)
       ∧ (∀ e, download (client site st).1 (file f) = Raises e →
          isinstance e ConnectionError = true →
          result.1 = Returns (TemplateResponse failed_connection_template 424)
          ∧ db result.2 = db st ∧ messages result.2 = messages st)).
Proof.
  intros Hmethod. cbn zeta.
  assert (Hview : View_dispatch (get site kwargs) method st = get site kwargs st).
  { unfold View_dispatch. by destruct Hmethod as [-> | ->]. }
  unfold DownloadFileview_dispatch, dispatch. rewrite Hview.
  split.
  - intros e He. pose proof (get_object_or_404_exceptions _ _ _ _ He) as Hcls.
    unfold get. rewrite He. split; [|done].
    destruct e as [cls msg code]. simpl in Hcls. by destruct Hcls as [-> | ->].
  - intros f Hf. rewrite (get_found _ _ _ _ Hf).
    pose proof (client_db site st) as Hdb.
    pose proof (client_messages site st) as Hmsg.
    split.
    + intros file_data ->. simpl. eexists. split; [reflexivity|].
      by rewrite Hdb, Hmsg.
    + intros e -> He. rewrite He. simpl. by rewrite Hdb, Hmsg.
Qed.

(** A download that ends in [OperationFailed] is handed to the view's
    handler, in the state [get] left. *)
Lemma failed_download_handled site method kwargs st f e :
  method = "GET" ∨ method = "HEAD" →
  get_object_or_404 (db st) (kwargs !! "folder_slug") (kwargs !! "file_slug") = Returns f →
  download (client site st).1 (file f) = Raises e →
  isinstance e OperationFailed = true →
  DownloadFileview_dispatch site method kwargs st
  = DownloadFileview_nextcloud_operation_failed site e (set_file f (client site st).2).
Proof.
  intros Hmethod Hf Hd He.
  unfold DownloadFileview_dispatch, dispatch, View_dispatch.
  assert (Hm : bool_decide (method = "GET") || bool_decide (method = "HEAD") = true)
    by (by destruct Hmethod as [-> | ->]).
  rewrite Hm, (get_found _ _ _ _ Hf), Hd.
  by rewrite (operation_failed_not_connection e He), He.
Qed.

(** The handler, case by case, in a state whose client is built. *)
Lemma handler_cases site e st f c :
  self_file st = Some f →
  client site st = (c, st) →
  ncfolder (db st) !! inst_pk (folder f) = Some (inst_fields (folder f)) →
  ncfile (db st) !! inst_pk (file f) = Some (inst_fields (file f)) →
  let result := DownloadFileview_nextcloud_operation_failed site e st in
  let answer := Returns (HttpResponseRedirect (folder_url site f)) in
  (actual_code e ≠ 404 →
     result.1 = answer ∧ db result.2 = db st
     ∧ messages result.2 = (messages st ++ [unexpected_msg])%list)
  ∧ (actual_code e = 404 →
     exists_ c (column (inst_fields (folder f)) "folder") = Returns false →
     result.1 = answer
     ∧ ncfolder (db result.2)
       = <[inst_pk (folder f) := marked_missing (inst_fields (folder f))]> (ncfolder (db st))
     ∧ ncfile (db result.2) = ncfile (db st)
     ∧ messages result.2 = (messages st ++ [folder_missing_msg])%list)
  ∧ (actual_code e = 404 →
     exists_ c (column (inst_fields (folder f)) "folder") = Returns true →
     exists_ c (column (inst_fields (file f)) "file") = Returns false →
     result.1 = answer
     ∧ ncfile (db result.2)
       = <[inst_pk (file f) := marked_missing (inst_fields (file f))]> (ncfile (db st))
     ∧ ncfolder (db result.2) = ncfolder (db st)
     ∧ messages result.2 = (messages st ++ [file_missing_msg])%list)
  ∧ (actual_code e = 404 →
     exists_ c (column (inst_fields (folder f)) "folder") = Returns true →
     exists_ c (column (inst_fields (file f)) "file") = Returns true →
     result.1 = answer ∧ db result.2 = db st
     ∧ messages result.2 = (messages st ++ [unexpected_msg])%list).
Proof.
  intros Hf Hc Hfrow Hrow. cbn zeta.
  unfold DownloadFileview_nextcloud_operation_failed. rewrite Hf.
  split; [|split; [|split]].
  - intros Hcode. by rewrite bool_decide_eq_false_2.
  - intros Hcode Hfolder. rewrite bool_decide_eq_true_2, Hc, Hfolder by done.
    unfold save. cbn [inst_pk setattr set_file db folder file]. rewrite Hfrow.
    unfold redirect_with_message, folder_url. cbn [folder fst snd].
    change (column (<["is_missing":=PyBool true]> (inst_fields (folder f))) "slug")
      with (column (inst_fields (setattr (folder f) "is_missing" (PyBool true))) "slug").
    rewrite column_setattr_ne by done. simpl.
    by rewrite lookup_insert_eq.
  - intros Hcode Hfolder Hfile.
    rewrite bool_decide_eq_true_2, Hc, Hfolder, Hc, Hfile by done.
    unfold save. cbn [inst_pk setattr set_file db folder file]. rewrite Hrow.
    unfold redirect_with_message, folder_url. simpl.
    by rewrite lookup_insert_eq.
  - intros Hcode Hfolder Hfile.
    by rewrite bool_decide_eq_true_2, Hc, Hfolder, Hc, Hfile.
Qed.

Lemma after_get_cases site st (kwargs : gmap string string) f :
  get_object_or_404 (db st) (kwargs !! "folder_slug") (kwargs !! "file_slug") = Returns f →
  let st1 := set_file f (client site st).2 in
  self_file st1 = Some f
  ∧ client site st1 = ((client site st).1, st1)
  ∧ ncfolder (db st1) !! inst_pk (folder f) = Some (inst_fields (folder f))
  ∧ ncfile (db st1) !! inst_pk (file f) = Some (inst_fields (file f))
  ∧ db st1 = db st ∧ messages st1 = messages st.
Proof.
  intros Hf. cbn zeta.
  destruct (get_object_or_404_rows _ _ _ _ Hf) as [Hrow Hfrow].
  pose proof (client_db site st) as Hdb.
  pose proof (client_messages site st) as Hmsg.
  split; [done|]. split; [apply client_after_get|].
  simpl. by rewrite Hdb, Hmsg.
Qed.

(** X16: a download that the remote answers with 404 makes the view
    ask, first, whether the folder is still there and, only if it is,
    whether the file is: what is gone gets [is_missing = True] in its row,
    the other table is not written, and the user is sent to the folder's
    page with the message that says which of the two is gone. *)
Theorem repair_marks_what_is_gone site method kwargs st f e :
  method = "GET" ∨ method = "HEAD" →
  get_object_or_404 (db st) (kwargs !! "folder_slug") (kwargs !! "file_slug") = Returns f →
  download (client site st).1 (file f) = Raises e →
  isinstance e OperationFailed = true →
  actual_code e = 404 →
  let remote := (client site st).1 in
  let result := DownloadFileview_dispatch site method kwargs st in
  let answer := Returns (HttpResponseRedirect (folder_url site f)) in
  (exists_ remote (column (inst_fields (folder f)) "folder") = Returns false →
     result.1 = answer
     ∧ ncfolder (db result.2)
       = <[inst_pk (folder f) := marked_missing (inst_fields (folder f))]> (ncfolder (db st))
     ∧ ncfile (db result.2) = ncfile (db st)
     ∧ messages result.2 = (messages st ++ [folder_missing_msg])%list)
  ∧ (exists_ remote (column (inst_fields (folder f)) "folder") = Returns true →
     exists_ remote (column (inst_fields (file f)) "file") = Returns false →
     result.1 = answer
     ∧ ncfile (db result.2)
       = <[inst_pk (file f) := marked_missing (inst_fields (file f))]> (ncfile (db st))
     ∧ ncfolder (db result.2) = ncfolder (db st)
     ∧ messages result.2 = (messages st ++ [file_missing_msg])%list).
Proof.
  intros Hmethod Hf Hd He Hcode. cbn zeta.
  rewrite (failed_download_handled _ _ _ _ _ _ Hmethod Hf Hd He).
  destruct (after_get_cases site st kwargs f Hf) as (H1 & H2 & H3 & H4 & Hdb & Hmsg).
  destruct (handler_cases site e _ f _ H1 H2 H3 H4) as (_ & Hfolder & Hfile & _).
  rewrite Hdb, Hmsg in Hfolder, Hfile. split.
  - intros Hex. by apply Hfolder.
  - intros Hex1 Hex2. by apply Hfile.
Qed.

(** X17: an [OperationFailed] of the download that is not a 404, or a
    404 although the remote says that folder and file are both there,
    writes nothing: the user is sent to the folder's page with the
    message that something unexpected occurred. *)
Theorem repair_nothing_to_mark site method kwargs st f e :
  method = "GET" ∨ method = "HEAD" →
  get_object_or_404 (db st) (kwargs !! "folder_slug") (kwargs !! "file_slug") = Returns f →
  download (client site st).1 (file f) = Raises e →
  isinstance e OperationFailed = true →
  let remote := (client site st).1 in
  let result := DownloadFileview_dispatch site method kwargs st in
  actual_code e ≠ 404
  ∨ (exists_ remote (column (inst_fields (folder f)) "folder") = Returns true
     ∧ exists_ remote (column (inst_fields (file f)) "file") = Returns true) →
  result.1 = Returns (HttpResponseRedirect (folder_url site f))
  ∧ db result.2 = db st
  ∧ messages result.2 = (messages st ++ [unexpected_msg])%list.
Proof.
  intros Hmethod Hf Hd He. cbn zeta. intros Hcase.
  rewrite (failed_download_handled _ _ _ _ _ _ Hmethod Hf Hd He).
  destruct (after_get_cases site st kwargs f Hf) as (H1 & H2 & H3 & H4 & Hdb & Hmsg).
  destruct (handler_cases site e _ f _ H1 H2 H3 H4) as (Hother & _ & _ & Hboth).
  rewrite Hdb, Hmsg in Hother, Hboth.
  destruct (decide (actual_code e = 404)) as [Hcode|Hcode].
  - destruct Hcase as [?|[Hex1 Hex2]]; [done|]. by apply Hboth.
  - by apply Hother.
Qed.

Lemma get_folder_or_404_exceptions d col v e :
  get_folder_or_404 d col v = Raises e →
  exn_cls e = Http404 ∨ exn_cls e = MultipleObjectsReturned.
Proof.
  unfold get_folder_or_404.
  destruct (filter _ (map_to_list (ncfolder d))) as [|[k row] [|kr l]]; try done;
    intros [= <-]; auto.
Qed.

(** X18: [FolderView.get_context_data] stores the folder it looked up
    under ["folders"] and then reads ["folder"]: with a path in the URL and
    no ["folder"] entry in the context it was given, it never returns a
    context. It raises [Http404] or [MultipleObjectsReturned] from the
    lookup and [KeyError] when the lookup succeeds. Without a path it
    returns the context with all folders under ["folders"]. *)
Theorem FolderView_context_needs_folder_key d kwargs context :
  context !! "folder" = None →
  (∀ c p, kwargs !! "path" = Some (String c p) →
     ∃ e, FolderView_get_context_data d kwargs context = Raises e
          ∧ (exn_cls e = Http404 ∨ exn_cls e = MultipleObjectsReturned
             ∨ exn_cls e = KeyError)
          ∧ (returns (get_folder_or_404 d "path" (PyStr (String c p))) →
             exn_cls e = KeyError))
  ∧ (kwargs !! "path" = None ∨ kwargs !! "path" = Some EmptyString →
     FolderView_get_context_data d kwargs context
     = Returns (<["folders" := CtxInstances (all_folders d)]> context)).
Proof.
  intros Hkey. split.
  - intros c p Hp. unfold FolderView_get_context_data. rewrite Hp.
    destruct (get_folder_or_404 d "path" _) as [found|e] eqn:Hfound; simpl.
    + rewrite lookup_insert_ne, Hkey by done. eexists. split; [reflexivity|].
      simpl. auto.
    + exists e. split; [done|].
      destruct (get_folder_or_404_exceptions _ _ _ _ Hfound) as [-> | ->].
      * split; [auto|]. by intros [? ?].
      * split; [auto|]. by intros [? ?].
  - unfold FolderView_get_context_data. by intros [-> | ->].
Qed.

End nextcloud_extra.

(** ** The download view on more remotes *)

Module nextcloud_extra_examples.
Import nextcloud nextcloud_spec nextcloud_extra minutes_mirror minutes_mirror_remotes.

Lemma january_found :
  get_object_or_404 (db start) (download_kwargs !! "folder_slug")
    (download_kwargs !! "file_slug") = Returns january_file.
Proof. vm_compute. reflexivity. Qed.

Lemma download_never_writes_witness :
  ("GET" = "GET" ∨ "GET" = "HEAD")
  ∧ (∃ e, DownloadFileview_dispatch healthy "GET" unknown_kwargs start = (Raises e, start)
          ∧ exn_cls e = Http404)
  ∧ (∃ disposition,
       (DownloadFileview_dispatch healthy "GET" download_kwargs start).1
       = Returns (AttachmentResponse "PK..." "application/vnd.ms-excel" disposition))
  ∧ (DownloadFileview_dispatch offline "GET" download_kwargs start).1
    = Returns (TemplateResponse failed_connection_template 424).
Proof.
  assert (Hm : "GET" = "GET" ∨ "GET" = "HEAD") by (by left).
  split; [exact Hm|]. split; [|split].
  - destruct (download_never_writes healthy "GET" unknown_kwargs start Hm) as [Hmiss _].
    eexists. split.
    + apply Hmiss. vm_compute. reflexivity.
    + reflexivity.
  - destruct (download_never_writes healthy "GET" download_kwargs start Hm) as [_ Hhit].
    destruct (proj1 (Hhit january_file january_found) "PK..." eq_refl)
      as (disposition & Hr & _).
    by exists disposition.
  - destruct (download_never_writes offline "GET" download_kwargs start Hm) as [_ Hhit].
    exact (proj1 (proj2 (Hhit january_file january_found) unreachable eq_refl eq_refl)).
Defined.

Lemma repair_marks_what_is_gone_witness :
  let result := DownloadFileview_dispatch file_gone "GET" download_kwargs start in
  ("GET" = "GET" ∨ "GET" = "HEAD")
  ∧ get_object_or_404 (db start) (download_kwargs !! "folder_slug")
      (download_kwargs !! "file_slug") = Returns january_file
  ∧ download (client file_gone start).1 (file january_file) = Raises not_found
  ∧ isinstance not_found OperationFailed = true
  ∧ actual_code not_found = 404
  ∧ result.1 = Returns (HttpResponseRedirect (folder_url file_gone january_file))
  ∧ ncfile (db result.2) = <[3 := marked_missing january]> (ncfile (db start))
  ∧ ncfolder (db result.2) = ncfolder (db start)
  ∧ messages result.2 = [file_missing_msg].
Proof.
  intros result.
  assert (Hm : "GET" = "GET" ∨ "GET" = "HEAD") by (by left).
  assert (Hd : download (client file_gone start).1 (file january_file) = Raises not_found)
    by reflexivity.
  assert (He : isinstance not_found OperationFailed = true) by reflexivity.
  assert (Hc : actual_code not_found = 404) by reflexivity.
  split; [exact Hm|]. split; [exact january_found|]. split; [exact Hd|].
  split; [exact He|]. split; [exact Hc|].
  exact (proj2 (repair_marks_what_is_gone file_gone "GET" download_kwargs start
                  january_file not_found Hm january_found Hd He Hc) eq_refl eq_refl).
Defined.

Lemma repair_nothing_to_mark_witness :
  let e := Exn OperationFailed "Failed to download" 500 in
  let result := DownloadFileview_dispatch server_error "GET" download_kwargs start in
  ("GET" = "GET" ∨ "GET" = "HEAD")
  ∧ download (client server_error start).1 (file january_file) = Raises e
  ∧ isinstance e OperationFailed = true
  ∧ actual_code e ≠ 404
  ∧ result.1 = Returns (HttpResponseRedirect (folder_url server_error january_file))
  ∧ db result.2 = db start
  ∧ messages result.2 = [unexpected_msg].
Proof.
  intros e result.
  assert (Hm : "GET" = "GET" ∨ "GET" = "HEAD") by (by left).
  assert (Hd : download (client server_error start).1 (file january_file) = Raises e)
    by reflexivity.
  assert (He : isinstance e OperationFailed = true) by reflexivity.
  assert (Hc : actual_code e ≠ 404) by (simpl; lia).
  split; [exact Hm|]. split; [exact Hd|]. split; [exact He|]. split; [exact Hc|].
  exact (repair_nothing_to_mark server_error "GET" download_kwargs start january_file e
           Hm january_found Hd He (or_introl Hc)).
Defined.

Lemma FolderView_context_needs_folder_key_witness :
  view_context !! "folder" = None
  ∧ browse_kwargs !! "path" = Some "Minutes"
  ∧ returns (get_folder_or_404 archive "path" (PyStr "Minutes"))
  ∧ ∃ e, FolderView_get_context_data archive browse_kwargs view_context = Raises e
         ∧ exn_cls e = KeyError.
Proof.
  assert (H1 : view_context !! "folder" = None) by (vm_compute; reflexivity).
  assert (H2 : browse_kwargs !! "path" = Some "Minutes") by (vm_compute; reflexivity).
  assert (H3 : returns (get_folder_or_404 archive "path" (PyStr "Minutes")))
    by (eexists; vm_compute; reflexivity).
  split; [exact H1|]. split; [exact H2|]. split; [exact H3|].
  destruct (proj1 (FolderView_context_needs_folder_key archive browse_kwargs view_context
                     H1) _ _ H2) as (e & He & _ & Hkey).
  exists e. split; [exact He|]. exact (Hkey H3).
Defined.

End nextcloud_extra_examples.

(** ** The data migration from slots that name an activity to slots that
    name a moment *)

Module migration_0023_spec.
Import migration_0023.

Lemma max_bound (k : Z) (l : list Z) : k ∈ l → k ≤ foldr Z.max 0 l.
Proof.
  induction l as [|x l IH]; [by intros ?%elem_of_nil|].
  intros [->|Hin]%elem_of_cons; simpl; [lia|].
  specialize (IH Hin). lia.
Qed.

Lemma next_id_fresh ms : ms !! next_id ms = None.
Proof.
  destruct (ms !! next_id ms) as [m|] eqn:Hm; [|done].
  apply elem_of_map_to_list in Hm.
  assert (Hin : next_id ms ∈ (map_to_list ms).*1)
    by (apply list_elem_of_fmap; by exists (next_id ms, m)).
  apply max_bound in Hin. unfold next_id in Hin. lia.
Qed.

Lemma elem_of_matching ms a r k m :
  (k, m) ∈ matching ms a r
  ↔ ms !! k = Some m ∧ moment_parent_activity m = a ∧ moment_recurrence_id m = r.
Proof.
  unfold matching. rewrite list_elem_of_filter, elem_of_map_to_list. simpl. tauto.
Qed.

(** With unique moments a lookup by activity and recurrence finds at most
    one row. *)
Lemma matching_at_most_one ms a r :
  unique_moments ms → matching ms a r = [] ∨ ∃ km, matching ms a r = [km].
Proof.
  intros Huniq.
  assert (Hnd : NoDup (matching ms a r))
    by (apply NoDup_filter, NoDup_map_to_list).
  destruct (matching ms a r) as [|[k1 m1] [|[k2 m2] l]] eqn:Hm; [by left|eauto|].
  exfalso.
  assert (H1 : (k1, m1) ∈ matching ms a r) by (rewrite Hm; set_solver).
  assert (H2 : (k2, m2) ∈ matching ms a r) by (rewrite Hm; set_solver).
  apply elem_of_matching in H1 as (H1 & <- & <-).
  apply elem_of_matching in H2 as (H2 & Ha & Hr).
  assert (k1 = k2) as -> by (by apply (Huniq k1 k2 m1 m2)).
  assert (m1 = m2) as -> by congruence.
  apply NoDup_cons in Hnd as [Hnotin _]. apply Hnotin. left.
Qed.

(** What [get_or_create] returns and leaves. *)
Lemma get_or_create_returns ms a r mid is_new ms' :
  get_or_create ms a r = (Returns (mid, is_new), ms') →
  ms ⊆ ms'
  ∧ (∃ m, ms' !! mid = Some m ∧ moment_parent_activity m = a
          ∧ moment_recurrence_id m = r)
  ∧ (if is_new
     then ms !! mid = None
          ∧ ms' = <[mid := {| moment_parent_activity := a; moment_recurrence_id := r;
                              moment_local := ∅ |}]> ms
          ∧ matching ms a r = []
     else ms' = ms).
Proof.
  unfold get_or_create.
  destruct (matching ms a r) as [|[k m] [|km l]] eqn:Hm; [| |done].
  - intros [= <- <- <-]. split; [apply insert_subseteq, next_id_fresh|].
    split; [eexists; by rewrite lookup_insert_eq|].
    split; [apply next_id_fresh|done].
  - intros [= <- <- <-]. split; [done|].
    assert (Hin : (k, m) ∈ matching ms a r) by (rewrite Hm; left).
    apply elem_of_matching in Hin as (Hk & Ha & Hr). split; [|done]. eauto.
Qed.

Lemma get_or_create_unique ms a r :
  unique_moments ms →
  ∃ mid is_new ms', get_or_create ms a r = (Returns (mid, is_new), ms')
                    ∧ unique_moments ms'.
Proof.
  intros Huniq. unfold get_or_create.
  destruct (matching_at_most_one ms a r Huniq) as [Hm | [[k m] Hm]]; rewrite Hm.
  - eexists _, _, _. split; [reflexivity|].
    intros i j m n Hi Hj Ha Hr.
    destruct (decide (i = next_id ms)) as [->|Hi'];
      destruct (decide (j = next_id ms)) as [->|Hj']; [done| | |].
    + rewrite lookup_insert_eq in Hi. rewrite lookup_insert_ne in Hj by done.
      injection Hi as <-. simpl in *.
      assert (Hin : (j, n) ∈ matching ms a r) by (by apply elem_of_matching).
      rewrite Hm in Hin. by apply elem_of_nil in Hin.
    + rewrite lookup_insert_eq in Hj. rewrite lookup_insert_ne in Hi by done.
      injection Hj as <-. simpl in *.
      assert (Hin : (i, m) ∈ matching ms a r) by (by apply elem_of_matching).
      rewrite Hm in Hin. by apply elem_of_nil in Hin.
    + rewrite lookup_insert_ne in Hi, Hj by done. by apply (Huniq i j m n).
  - eexists _, _, _. split; [reflexivity|done].
Qed.

Lemma effective_recurrence_activities d d' slot :
  activities d' = activities d →
  effective_recurrence d' slot = effective_recurrence d slot.
Proof. unfold effective_recurrence. by intros ->. Qed.

(** One round of the loop. *)
Lemma forwards_step_returns d log id slot d1 log1 :
  forwards_step d log id slot = Returns (d1, log1) →
  activities d1 = activities d
  ∧ moments d ⊆ moments d1
  ∧ (∀ id', id' ≠ id → slots d1 !! id' = slots d !! id')
  ∧ relinks d d1 id slot
  ∧ (unique_moments (moments d) → unique_moments (moments d1))
  ∧ (size (moments d1) + length (created log) = size (moments d) + length (created log1))%nat
  ∧ (∀ mid, mid ∈ created log1 →
       mid ∈ created log ∨ (moments d !! mid = None ∧ is_Some (moments d1 !! mid))).
Proof.
  unfold forwards_step.
  destruct (parent_activity slot) as [a|] eqn:Ha; [|by destruct (recurrence_id slot)].
  destruct (activities d !! a) as [activity|] eqn:Hact; [|done].
  set (r := default (start_date activity) (recurrence_id slot)).
  assert (Hr : effective_recurrence d slot = Some r).
  { unfold effective_recurrence, r. rewrite Ha. simpl. rewrite Hact.
    by destruct (recurrence_id slot). }
  assert (Hlog : ∀ (log0 : list LogRecord),
            created (match recurrence_id slot with
                     | None => (start_date activity,
                                (log0 ++ [FaultySlot id (start_date activity)])%list)
                     | Some r0 => (r0, log0)
                     end).2 = created log0).
  { intros log0. unfold created. destruct (recurrence_id slot); simpl; [done|].
    by rewrite omap_app, app_nil_r. }
  specialize (Hlog log).
  assert (Hfst : (match recurrence_id slot with
                  | None => (start_date activity,
                             (log ++ [FaultySlot id (start_date activity)])%list)
                  | Some r0 => (r0, log)
                  end).1 = r) by (unfold r; by destruct (recurrence_id slot)).
  destruct (match recurrence_id slot with
            | None => _ | Some r0 => _ end) as [r' log0]. simpl in Hlog, Hfst. subst r'.
  destruct (get_or_create (moments d) a r) as [[[mid is_new]|e] ms] eqn:Hgoc; [|done].
  intros [= <- <-]. simpl.
  destruct (get_or_create_returns _ _ _ _ _ _ Hgoc) as (Hsub & (m & Hm & Hma & Hmr) & Hnew).
  split; [done|]. split; [done|].
  split; [intros id' Hne; by rewrite lookup_insert_ne|].
  split.
  { exists a, r, mid, m. rewrite Hact. simpl. rewrite lookup_insert_eq.
    repeat split; eauto. }
  destruct is_new.
  - destruct Hnew as (Hfresh & -> & Hnone). split; [|split].
    + intros Huniq i j mi mj Hi Hj Hpa Hpr.
      destruct (decide (i = mid)) as [->|Hi'];
        destruct (decide (j = mid)) as [->|Hj']; [done| | |].
      * rewrite lookup_insert_eq in Hi. rewrite lookup_insert_ne in Hj by done.
        injection Hi as <-. simpl in *.
        assert (Hin : (j, mj) ∈ matching (moments d) a r)
          by (by apply elem_of_matching).
        rewrite Hnone in Hin. by apply elem_of_nil in Hin.
      * rewrite lookup_insert_eq in Hj. rewrite lookup_insert_ne in Hi by done.
        injection Hj as <-. simpl in *.
        assert (Hin : (i, mi) ∈ matching (moments d) a r)
          by (by apply elem_of_matching).
        rewrite Hnone in Hin. by apply elem_of_nil in Hin.
      * rewrite lookup_insert_ne in Hi, Hj by done. by apply (Huniq i j mi mj).
    + rewrite map_size_insert_None by done.
      unfold created at 2. rewrite omap_app. simpl. rewrite length_app. simpl.
      fold (created log0). rewrite Hlog. lia.
    + intros mid'. unfold created at 1. rewrite omap_app. simpl.
      fold (created log0). rewrite Hlog.
      intros [Hin|Hin]%elem_of_app; [by left|].
      apply list_elem_of_singleton in Hin as ->. right. split; [done|].
      by rewrite lookup_insert_eq.
  - subst ms. split; [done|]. split; [by rewrite Hlog|].
    intros mid'. rewrite Hlog. by left.
Qed.

Lemma relinks_later d d1 d' id slot :
  activities d1 = activities d →
  moments d1 ⊆ moments d' →
  slots d' !! id = slots d1 !! id →
  relinks d d1 id slot → relinks d d' id slot.
Proof.
  intros Hact Hsub Hslot (a & r & mid & m & Ha & Hex & Hr & Hs & Hm & Hma & Hmr).
  exists a, r, mid, m. rewrite Hslot.
  repeat split; try done. by eapply lookup_weaken.
Qed.

(** The loop over slots with distinct keys. *)
Lemma forwards_loop_returns all d log d' log' :
  NoDup all.*1 →
  forwards_loop all d log = Returns (d', log') →
  activities d' = activities d
  ∧ moments d ⊆ moments d'
  ∧ (∀ id, id ∉ all.*1 → slots d' !! id = slots d !! id)
  ∧ (∀ id slot, (id, slot) ∈ all → relinks d d' id slot)
  ∧ (unique_moments (moments d) → unique_moments (moments d'))
  ∧ (size (moments d') + length (created log) = size (moments d) + length (created log'))%nat
  ∧ (∀ mid, mid ∈ created log' →
       mid ∈ created log ∨ (moments d !! mid = None ∧ is_Some (moments d' !! mid))).
Proof.
  revert d log. induction all as [|[id slot] rest IH]; intros d log Hnd; simpl.
  - intros [= <- <-]. repeat split; try done.
    + by intros ? ? ?%elem_of_nil.
    + auto.
  - destruct (forwards_step d log id slot) as [[d1 log1]|e] eqn:Hstep; [|done].
    simpl. intros Hrest.
    apply NoDup_cons in Hnd as [Hid Hnd].
    destruct (forwards_step_returns _ _ _ _ _ _ Hstep)
      as (Hact1 & Hsub1 & Hslots1 & Hre1 & Huniq1 & Hsize1 & Hlog1).
    destruct (IH d1 log1 Hnd Hrest)
      as (Hact & Hsub & Hslots & Hre & Huniq & Hsize & Hlog).
    split; [congruence|]. split; [by etrans|].
    split.
    { intros id' Hnot. apply not_elem_of_cons in Hnot as [Hne Hnot].
      rewrite Hslots by done. by apply Hslots1. }
    split.
    { intros id' slot' [[= -> ->]|Hin]%elem_of_cons.
      - eapply relinks_later; [exact Hact1|exact Hsub|by apply Hslots|exact Hre1].
      - destruct (Hre id' slot' Hin)
          as (a & r & mid & m & Ha & Hex & Hr & Hs & Hm & Hma & Hmr).
        exists a, r, mid, m.
        rewrite (effective_recurrence_activities d d1) in Hr by done.
        rewrite Hact1 in Hex. by repeat split. }
    split; [auto|]. split; [lia|].
    intros mid Hmid. destruct (Hlog mid Hmid) as [Hold|[Hnew Hthere]].
    + destruct (Hlog1 mid Hold) as [?|[Hnone Hsome]]; [by left|].
      right. split; [done|]. destruct Hsome as [m Hm].
      exists m. by eapply lookup_weaken.
    + right. split; [|done]. destruct (moments d !! mid) eqn:Hm; [|done].
      eapply lookup_weaken in Hm; [|exact Hsub1]. congruence.
Qed.

Lemma forwards_loop_total all d log :
  unique_moments (moments d) →
  (∀ id slot, (id, slot) ∈ all →
     ∃ a, parent_activity slot = Some a ∧ is_Some (activities d !! a)) →
  returns (forwards_loop all d log).
Proof.
  revert d log. induction all as [|[id slot] rest IH]; intros d log Huniq Hall; simpl.
  - by eexists.
  - destruct (Hall id slot) as (a & Ha & [activity Hact]); [left|].
    assert (Hstep : returns (forwards_step d log id slot)).
    { unfold forwards_step. rewrite Ha, Hact.
      destruct (match recurrence_id slot with | None => _ | Some r0 => _ end) as [r log0].
      destruct (get_or_create_unique (moments d) a r Huniq)
        as (mid & is_new & ms' & -> & _).
      by eexists. }
    destruct Hstep as [[d1 log1] Hstep]. rewrite Hstep. simpl.
    destruct (forwards_step_returns _ _ _ _ _ _ Hstep)
      as (Hact1 & _ & _ & _ & Huniq1 & _).
    apply IH; [auto|].
    intros id' slot' Hin. rewrite Hact1. apply (Hall id' slot'). by right.
Qed.

Lemma forwards_links_every_slot_aux d d' log :
  forwards_func d = Returns (d', log) →
  activities d' = activities d
  ∧ (∀ id slot, slots d !! id = Some slot → relinks d d' id slot)
  ∧ (∀ id, slots d !! id = None → slots d' !! id = None).
Proof.
  unfold forwards_func. intros Hf.
  destruct (forwards_loop_returns _ _ _ _ _ (NoDup_fst_map_to_list _) Hf)
    as (Hact & _ & Hslots & Hre & _).
  split; [done|]. split.
  - intros id slot Hs. apply Hre. by apply elem_of_map_to_list.
  - intros id Hnone. rewrite Hslots; [done|].
    intros Hin. apply list_elem_of_fmap in Hin as ([id' slot] & -> & Hin).
    apply elem_of_map_to_list in Hin. simpl in *. congruence.
Qed.

(** X19: when [forwards_func] returns, every slot is linked to a moment
    that exists, belongs to the slot's activity and has the slot's
    recurrence, which is the start of the activity for a slot that had
    none; the slot keeps its title and activity, no slot comes or goes and
    the activities are not written. *)
Theorem forwards_links_every_slot d d' log :
  forwards_func d = Returns (d', log) →
  activities d' = activities d
  ∧ (∀ id slot, slots d !! id = Some slot → relinks d d' id slot)
  ∧ (∀ id, slots d !! id = None → slots d' !! id = None).
Proof.
  unfold forwards_func. intros Hf.
  destruct (forwards_loop_returns _ _ _ _ _ (NoDup_fst_map_to_list _) Hf)
    as (Hact & _ & Hslots & Hre & _).
  split; [done|]. split.
  - intros id slot Hs. apply Hre. by apply elem_of_map_to_list.
  - intros id Hnone. rewrite Hslots; [done|].
    intros Hin. apply list_elem_of_fmap in Hin as ([id' slot] & -> & Hin).
    apply elem_of_map_to_list in Hin. simpl in *. congruence.
Qed.

(** One round of the loop and the warnings: either no moment is
    created and none is announced, or one moment is created under a key
    that was free and it is announced, once. *)
Lemma forwards_step_announces d log id slot d1 log1 :
  forwards_step d log id slot = Returns (d1, log1) →
  (created log1 = created log ∧ moments d1 = moments d)
  ∨ (∃ mid m, created log1 = (created log ++ [mid])%list
              ∧ moments d !! mid = None
              ∧ moments d1 = <[mid := m]> (moments d)).
Proof.
  unfold forwards_step.
  destruct (parent_activity slot) as [a|]; [|by destruct (recurrence_id slot)].
  destruct (activities d !! a) as [activity|]; [|done].
  assert (Hlog : created (match recurrence_id slot with
                          | None => (start_date activity,
                                     (log ++ [FaultySlot id (start_date activity)])%list)
                          | Some r0 => (r0, log)
                          end).2 = created log).
  { unfold created. destruct (recurrence_id slot); simpl; [done|].
    by rewrite omap_app, app_nil_r. }
  destruct (match recurrence_id slot with
            | None => _ | Some r0 => _ end) as [r log0]. simpl in Hlog.
  destruct (get_or_create (moments d) a r) as [[[mid is_new]|e] ms] eqn:Hgoc; [|done].
  intros [= <- <-]. simpl.
  destruct (get_or_create_returns _ _ _ _ _ _ Hgoc) as (_ & _ & Hnew).
  destruct is_new.
  - destruct Hnew as (Hfresh & -> & _). right. eexists mid, _.
    split; [|by split]. unfold created at 1. rewrite omap_app. simpl.
    fold (created log0). by rewrite Hlog.
  - subst ms. by left.
Qed.

(** The loop adds warnings and drops none. *)
Lemma forwards_loop_keeps_warnings all d log d' log' :
  forwards_loop all d log = Returns (d', log') →
  ∀ mid, mid ∈ created log → mid ∈ created log'.
Proof.
  revert d log. induction all as [|[id slot] rest IH]; intros d log; simpl.
  - by intros [= <- <-].
  - destruct (forwards_step d log id slot) as [[d1 log1]|e] eqn:Hstep; [|done].
    simpl. intros Hrest mid Hmid. apply (IH d1 log1 Hrest).
    destruct (forwards_step_announces _ _ _ _ _ _ Hstep)
      as [[-> _]|(k & m & -> & _)]; [done|].
    apply elem_of_app. by left.
Qed.

(** The warnings of the loop: each moment created on the way is
    announced, and by one warning only. *)
Lemma forwards_loop_announces all d log d' log' :
  forwards_loop all d log = Returns (d', log') →
  NoDup (created log) →
  (∀ mid, mid ∈ created log → is_Some (moments d !! mid)) →
  NoDup (created log')
  ∧ (∀ mid, is_Some (moments d' !! mid) →
            is_Some (moments d !! mid) ∨ mid ∈ created log').
Proof.
  revert d log. induction all as [|[id slot] rest IH]; intros d log; simpl.
  - intros [= <- <-] Hnd _. split; [done|]. by left.
  - destruct (forwards_step d log id slot) as [[d1 log1]|e] eqn:Hstep; [|done].
    simpl. intros Hrest Hnd Hin.
    destruct (forwards_step_announces _ _ _ _ _ _ Hstep)
      as [[Hlog Hms]|(mid & m & Hlog & Hfresh & Hms)].
    + destruct (IH d1 log1 Hrest) as [Hnd' Hall].
      { by rewrite Hlog. }
      { intros k Hk. rewrite Hms. apply Hin. by rewrite <- Hlog. }
      split; [done|]. intros k Hk. rewrite <- Hms. by apply Hall.
    + destruct (IH d1 log1 Hrest) as [Hnd' Hall].
      { rewrite Hlog. apply NoDup_app. split; [done|]. split; [|apply NoDup_singleton].
        intros k Hk Hk'. apply list_elem_of_singleton in Hk' as ->.
        destruct (Hin mid Hk) as [? ?]. congruence. }
      { intros k. rewrite Hlog, Hms.
        intros [Hk|Hk]%elem_of_app.
        - destruct (decide (k = mid)) as [->|Hne];
            [by rewrite lookup_insert_eq|rewrite lookup_insert_ne by done; by apply Hin].
        - apply list_elem_of_singleton in Hk as ->. by rewrite lookup_insert_eq. }
      split; [done|]. intros k Hk.
      destruct (Hall k Hk) as [Hthere|Hnew]; [|by right].
      rewrite Hms in Hthere.
      destruct (decide (k = mid)) as [->|Hne].
      * right. clear Hthere Hk.
        assert (Hmid : mid ∈ created log1)
          by (rewrite Hlog; apply elem_of_app; right; by apply list_elem_of_singleton).
        exact (forwards_loop_keeps_warnings _ _ _ _ _ Hrest mid Hmid).
      * left. by rewrite lookup_insert_ne in Hthere.
Qed.

(** X20: [forwards_func] only adds moments: every moment that was there
    is there unchanged under its key, and each moment that is new is
    announced by exactly one warning: the warnings name new moments only,
    name none twice and leave none out, so that the table grows by as
    many rows as there are warnings of that kind. *)
Theorem forwards_keeps_moments d d' log :
  forwards_func d = Returns (d', log) →
  moments d ⊆ moments d'
  ∧ size (moments d') = (size (moments d) + length (created log))%nat
  ∧ (∀ mid, mid ∈ created log → moments d !! mid = None ∧ is_Some (moments d' !! mid))
  ∧ NoDup (created log)
  ∧ (∀ mid, moments d !! mid = None → is_Some (moments d' !! mid) → mid ∈ created log).
Proof.
  unfold forwards_func. intros Hf.
  destruct (forwards_loop_returns _ _ _ _ _ (NoDup_fst_map_to_list _) Hf)
    as (_ & Hsub & _ & _ & _ & Hsize & Hlog).
  destruct (forwards_loop_announces _ _ _ _ _ Hf) as [Hnd Hall].
  { apply NoDup_nil_2. }
  { by intros mid ?%elem_of_nil. }
  split; [done|]. split; [simpl in Hsize; lia|].
  split; [intros mid Hmid; by destruct (Hlog mid Hmid) as [Hin%elem_of_nil|Hnew]|].
  split; [done|].
  intros mid Hnone Hsome. destruct (Hall mid Hsome) as [[m Hm]|Hin]; [congruence|done].
Qed.

(** X21: on data where every slot has a parent activity that exists
    and no two moments of one activity share a recurrence, [forwards_func]
    returns, and the moments it leaves are again unique per activity and
    recurrence. *)
Theorem forwards_returns_on_sound_data d :
  unique_moments (moments d) →
  slots_have_activity d →
  ∃ d' log, forwards_func d = Returns (d', log) ∧ unique_moments (moments d').
Proof.
  intros Huniq Hsound.
  destruct (forwards_loop_total (map_to_list (slots d)) d [] Huniq) as [[d' log] Hf].
  { intros id slot Hin. apply (Hsound id). by apply elem_of_map_to_list. }
  exists d', log. split; [exact Hf|].
  destruct (forwards_loop_returns _ _ _ _ _ (NoDup_fst_map_to_list _) Hf)
    as (_ & _ & _ & _ & Hu & _).
  by apply Hu.
Qed.

Lemma relinks_linked d d' id slot :
  activities d' = activities d →
  relinks d d' id slot →
  ∃ slot', slots d' !! id = Some slot' ∧ linked d' slot'
           ∧ slot_title slot' = slot_title slot
           ∧ parent_activity slot' = parent_activity slot
           ∧ recurrence_id slot' = effective_recurrence d slot.
Proof.
  intros Hact (a & r & mid & m & Ha & Hex & Hr & Hs & Hm & Hma & Hmr).
  exists (relinked slot a r mid). split; [done|]. split.
  - exists a, r, mid, m. rewrite Hact. by repeat split.
  - by repeat split.
Qed.

(** X22: of two slots of one activity that are filed under the same
    recurrence (their own, or the start of the activity for a slot that
    has none) [forwards_func] links both to the same moment, provided no
    two moments of an activity shared a recurrence before. *)
Theorem forwards_shares_moments d d' log id1 id2 slot1 slot2 :
  unique_moments (moments d) →
  forwards_func d = Returns (d', log) →
  slots d !! id1 = Some slot1 →
  slots d !! id2 = Some slot2 →
  parent_activity slot1 = parent_activity slot2 →
  effective_recurrence d slot1 = effective_recurrence d slot2 →
  ∃ slot1' slot2' mid,
    slots d' !! id1 = Some slot1' ∧ slots d' !! id2 = Some slot2'
    ∧ parent_activitymoment slot1' = Some mid
    ∧ parent_activitymoment slot2' = Some mid.
Proof.
  unfold forwards_func. intros Huniq Hf H1 H2 Hpa Hrec.
  destruct (forwards_loop_returns _ _ _ _ _ (NoDup_fst_map_to_list _) Hf)
    as (_ & _ & _ & Hre & Hu & _).
  specialize (Hu Huniq).
  destruct (Hre id1 slot1) as (a1 & r1 & mid1 & m1 & Ha1 & _ & Hr1 & Hs1 & Hm1 & Hma1 & Hmr1);
    [by apply elem_of_map_to_list|].
  destruct (Hre id2 slot2) as (a2 & r2 & mid2 & m2 & Ha2 & _ & Hr2 & Hs2 & Hm2 & Hma2 & Hmr2);
    [by apply elem_of_map_to_list|].
  assert (a1 = a2) as -> by congruence.
  assert (r1 = r2) as -> by congruence.
  assert (mid1 = mid2) as -> by (apply (Hu mid1 mid2 m1 m2); congruence).
  by exists (relinked slot1 a2 r2 mid2), (relinked slot2 a2 r2 mid2), mid2.
Qed.

Lemma backwards_loop_restores all d0 d :
  NoDup all.*1 →
  activities d = activities d0 →
  moments d = moments d0 →
  (∀ id slot, (id, slot) ∈ all →
     ∃ slot0, slots d0 !! id = Some slot0 ∧ linked d0 slot0
              ∧ parent_activitymoment slot = parent_activitymoment slot0
              ∧ slot_title slot = slot_title slot0) →
  ∃ d1, backwards_loop all d = Returns d1
        ∧ activities d1 = activities d0 ∧ moments d1 = moments d0
        ∧ (∀ id, id ∈ all.*1 → slots d1 !! id = slots d0 !! id)
        ∧ (∀ id, id ∉ all.*1 → slots d1 !! id = slots d !! id).
Proof.
  revert d. induction all as [|[id slot] rest IH]; intros d Hnd Hact Hmom Hall; simpl.
  - exists d. repeat split; try done. by intros ? ?%elem_of_nil.
  - apply NoDup_cons in Hnd as [Hid Hnd].
    destruct (Hall id slot) as (slot0 & Hs0 & Hlinked & Hpm & Htitle); [left|].
    destruct Hlinked as (a & r & mid & m & Ha & Hr & Hmid & Hm & Hma & Hmr & Hex).
    unfold backwards_step. rewrite Hpm, Hmid, Hmom, Hm, Hact, Hma.
    destruct Hex as [activity ->]. simpl.
    set (d2 := {| activities := activities d0; moments := moments d0;
                  slots := <[id := _]> (slots d) |}).
    destruct (IH d2 Hnd eq_refl eq_refl) as (d1 & Hloop & Hact1 & Hmom1 & Hin1 & Hout1).
    { intros id' slot' Hin. apply Hall. by right. }
    exists d1. split; [exact Hloop|]. split; [done|]. split; [done|]. split.
    + intros id' [->|Hin]%elem_of_cons; [|by apply Hin1].
      rewrite Hout1 by done. simpl. rewrite lookup_insert_eq, Hs0. f_equal.
      destruct slot0 as [t0 pa0 ri0 pm0]. simpl in *. by subst.
    + intros id' [Hne Hnot]%not_elem_of_cons.
      rewrite Hout1 by done. simpl. by rewrite lookup_insert_ne.
Qed.

(** X23: [backwards_func] undoes the schema round trip: once the old
    columns of the slots are gone and back, empty, it gives every slot the
    activity and the recurrence of its moment, which brings back exactly
    the tables [forwards_func] had left. A slot that had no recurrence
    before [forwards_func] keeps the start of its activity. *)
Theorem backwards_restores_forwards d d' log :
  forwards_func d = Returns (d', log) →
  backwards_func (without_old_columns d') = Returns d'
  ∧ (∀ id slot, slots d !! id = Some slot →
       ∃ slot', slots d' !! id = Some slot'
                ∧ slot_title slot' = slot_title slot
                ∧ parent_activity slot' = parent_activity slot
                ∧ recurrence_id slot' = effective_recurrence d slot).
Proof.
  intros Hf.
  destruct (forwards_links_every_slot_aux d d' log Hf) as (Hact & Hre & Hnone).
  assert (Hlinked : ∀ id slot', slots d' !! id = Some slot' → linked d' slot').
  { intros id slot' Hs'. destruct (slots d !! id) as [slot|] eqn:Hs.
    - destruct (relinks_linked d d' id slot Hact (Hre id slot Hs))
        as (slot'' & Hs'' & Hl & _). congruence.
    - rewrite (Hnone id Hs) in Hs'. done. }
  split.
  - unfold backwards_func.
    destruct (backwards_loop_restores
                (map_to_list (slots (without_old_columns d'))) d' (without_old_columns d')
                (NoDup_fst_map_to_list _) eq_refl eq_refl)
      as (d1 & Hloop & Hact1 & Hmom1 & Hin1 & Hout1).
    { intros id slot Hin. apply elem_of_map_to_list in Hin. simpl in Hin.
      rewrite lookup_fmap in Hin.
      destruct (slots d' !! id) as [slot0|] eqn:Hs0; [|done].
      injection Hin as <-. exists slot0. split; [done|]. split; [by eapply Hlinked|done]. }
    rewrite Hloop. f_equal. destruct d1 as [acts1 moms1 slots1], d' as [acts' moms' slots'].
    simpl in *. subst. f_equal. apply map_eq. intros id.
    destruct (decide (id ∈ (map_to_list ((λ slot, {| slot_title := slot_title slot;
                 parent_activity := None; recurrence_id := None;
                 parent_activitymoment := parent_activitymoment slot |}) <$> slots')).*1))
      as [Hin|Hnot]; [by apply Hin1|].
    rewrite Hout1 by done. rewrite lookup_fmap.
    destruct (slots' !! id) as [slot0|] eqn:Hs0; [|done].
    exfalso. apply Hnot. apply list_elem_of_fmap.
    eexists (id, _). split; [done|]. apply elem_of_map_to_list.
    by rewrite lookup_fmap, Hs0.
  - intros id slot Hs.
    destruct (relinks_linked d d' id slot Hact (Hre id slot Hs))
      as (slot' & Hs' & _ & Ht & Hp & Hr).
    by exists slot'.
Qed.

Lemma forwards_step_linked d log id slot :
  unique_moments (moments d) →
  linked d slot →
  slots d !! id = Some slot →
  forwards_step d log id slot = Returns (d, log).
Proof.
  intros Huniq (a & r & mid & m & Ha & Hr & Hmid & Hm & Hma & Hmr & [activity Hact]) Hs.
  unfold forwards_step. rewrite Ha, Hact, Hr.
  assert (Hin : (mid, m) ∈ matching (moments d) a r) by (by apply elem_of_matching).
  unfold get_or_create.
  destruct (matching_at_most_one (moments d) a r Huniq) as [Hnone | [km Hone]].
  - rewrite Hnone in Hin. by apply elem_of_nil in Hin.
  - rewrite Hone in *. apply list_elem_of_singleton in Hin as <-. simpl.
    f_equal. f_equal. destruct d as [acts moms sl]. simpl in *. f_equal.
    apply insert_id. rewrite Hs. f_equal.
    destruct slot as [t pa ri pm]. simpl in *. by subst.
Qed.

(** X24: run again on what it has left, [forwards_func] changes nothing:
    it finds the moment of every slot, creates none and gives no warning
    (the moments being unique per activity and recurrence). *)
Theorem forwards_twice d d' log :
  unique_moments (moments d) →
  forwards_func d = Returns (d', log) →
  forwards_func d' = Returns (d', []).
Proof.
  intros Huniq Hf.
  destruct (forwards_links_every_slot_aux d d' log Hf) as (Hact & Hre & Hnone).
  assert (Huniq' : unique_moments (moments d')).
  { unfold forwards_func in Hf.
    destruct (forwards_loop_returns _ _ _ _ _ (NoDup_fst_map_to_list _) Hf)
      as (_ & _ & _ & _ & Hu & _). by apply Hu. }
  assert (Hlinked : ∀ id slot', slots d' !! id = Some slot' → linked d' slot').
  { intros id slot' Hs'. destruct (slots d !! id) as [slot|] eqn:Hs.
    - destruct (relinks_linked d d' id slot Hact (Hre id slot Hs))
        as (slot'' & Hs'' & Hl & _). congruence.
    - rewrite (Hnone id Hs) in Hs'. done. }
  unfold forwards_func.
  assert (Hloop : ∀ all, (∀ id slot, (id, slot) ∈ all → slots d' !! id = Some slot) →
                         forwards_loop all d' [] = Returns (d', [])).
  { induction all as [|[id slot] rest IH]; intros Hall; simpl; [done|].
    rewrite (forwards_step_linked d' [] id slot Huniq').
    - simpl. apply IH. intros id' slot' Hin. apply Hall. by right.
    - apply (Hlinked id). apply Hall. left.
    - apply Hall. left. }
  apply Hloop. intros id slot Hin. by apply elem_of_map_to_list.
Qed.

Lemma forwards_step_found_at_most_one d log id slot next :
  forwards_step d log id slot = Returns next →
  ∃ a r, parent_activity slot = Some a ∧ effective_recurrence d slot = Some r
         ∧ activities next.1 = activities d ∧ moments d ⊆ moments next.1
         ∧ (matching (moments d) a r = [] ∨ ∃ km, matching (moments d) a r = [km]).
Proof.
  intros Hstep.
  assert (Hret : ∃ d1 log1, forwards_step d log id slot = Returns (d1, log1))
    by (destruct next; eauto).
  destruct Hret as (d1 & log1 & Hret).
  destruct (forwards_step_returns _ _ _ _ _ _ Hret) as (Hact & Hsub & _).
  assert (next = (d1, log1)) as -> by congruence. clear Hstep.
  unfold forwards_step in Hret.
  destruct (parent_activity slot) as [a|] eqn:Ha; [|by destruct (recurrence_id slot)].
  destruct (activities d !! a) as [activity|] eqn:Hactivity; [|done].
  exists a, (default (start_date activity) (recurrence_id slot)).
  split; [done|]. split.
  { unfold effective_recurrence. rewrite Ha. simpl. rewrite Hactivity.
    by destruct (recurrence_id slot). }
  split; [done|]. split; [done|].
  assert (Hfst : (match recurrence_id slot with
                  | None => (start_date activity,
                             (log ++ [FaultySlot id (start_date activity)])%list)
                  | Some r0 => (r0, log)
                  end).1 = default (start_date activity) (recurrence_id slot))
    by (by destruct (recurrence_id slot)).
  destruct (match recurrence_id slot with
            | None => _ | Some r0 => _ end) as [r' log0]. simpl in Hfst. subst r'.
  unfold get_or_create in Hret.
  destruct (matching (moments d) a _) as [|km [|km' l]]; [by left|eauto|done].
Qed.

Lemma forwards_loop_no_duplicates all d log next id slot a r i j mi mj :
  forwards_loop all d log = Returns next →
  (id, slot) ∈ all →
  parent_activity slot = Some a → effective_recurrence d slot = Some r →
  moments d !! i = Some mi → moments d !! j = Some mj →
  moment_parent_activity mi = a → moment_recurrence_id mi = r →
  moment_parent_activity mj = a → moment_recurrence_id mj = r →
  i = j.
Proof.
  revert d log. induction all as [|[id0 slot0] rest IH]; intros d log; simpl.
  { by intros _ ?%elem_of_nil. }
  destruct (forwards_step d log id0 slot0) as [step|e] eqn:Hstep; [|done]. simpl.
  intros Hrest Hin Ha Hr Hi Hj Hia Hir Hja Hjr.
  destruct (forwards_step_found_at_most_one _ _ _ _ _ Hstep)
    as (a0 & r0 & Ha0 & Hr0 & Hact & Hsub & Hone).
  apply elem_of_cons in Hin as [[= -> ->]|Hin].
  - assert (a0 = a) as -> by congruence. assert (r0 = r) as -> by congruence.
    assert (H1 : (i, mi) ∈ matching (moments d) a r) by (by apply elem_of_matching).
    assert (H2 : (j, mj) ∈ matching (moments d) a r) by (by apply elem_of_matching).
    destruct Hone as [Hnone | [km Hkm]].
    + rewrite Hnone in H1. by apply elem_of_nil in H1.
    + rewrite Hkm in H1, H2.
      apply list_elem_of_singleton in H1. apply list_elem_of_singleton in H2. congruence.
  - apply (IH step.1 step.2 Hrest Hin Ha); try done.
    + by rewrite (effective_recurrence_activities d step.1).
    + by eapply lookup_weaken.
    + by eapply lookup_weaken.
Qed.

(** X25: [forwards_func] does not choose between moments: if a slot's
    activity has two moments with the recurrence the slot is filed under,
    the migration ends with an exception ([get_or_create] raises
    [MultipleObjectsReturned], unless an earlier slot has already failed)
    and, being one transaction, leaves nothing behind. *)
Theorem forwards_rejects_duplicate_moments d id slot a r i j mi mj :
  slots d !! id = Some slot →
  parent_activity slot = Some a → effective_recurrence d slot = Some r →
  moments d !! i = Some mi → moments d !! j = Some mj → i ≠ j →
  moment_parent_activity mi = a → moment_recurrence_id mi = r →
  moment_parent_activity mj = a → moment_recurrence_id mj = r →
  ∃ e, forwards_func d = Raises e.
Proof.
  intros Hs Ha Hr Hi Hj Hne Hia Hir Hja Hjr.
  destruct (forwards_func d) as [next|e] eqn:Hf; [|eauto].
  exfalso. apply Hne. unfold forwards_func in Hf.
  eapply (forwards_loop_no_duplicates _ _ _ _ id slot a r i j mi mj Hf); try done.
  by apply elem_of_map_to_list.
Qed.

End migration_0023_spec.

(** ** The migration on the sample calendar *)

Module migration_0023_examples.
Import migration_0023 migration_0023_spec calendar_sample.

Lemma calendar_forwards : forwards_func calendar = Returns (migrated.1, migrated.2).
Proof. vm_compute. reflexivity. Qed.

Lemma calendar_unique : unique_moments (moments calendar).
Proof.
  intros i j m n Hi Hj _ _. simpl in *.
  apply lookup_singleton_Some in Hi as [<- _].
  by apply lookup_singleton_Some in Hj as [<- _].
Qed.

Lemma calendar_sound : slots_have_activity calendar.
Proof.
  intros id slot Hs. simpl in Hs.
  apply lookup_insert_Some in Hs as [[_ <-]|[_ Hs]];
    [|apply lookup_insert_Some in Hs as [[_ <-]|[_ Hs]];
      [|apply lookup_singleton_Some in Hs as [_ <-]]];
    exists 1; split; try reflexivity; by eexists.
Qed.

Example calendar_migrated :
  created migrated.2 = [11]
  ∧ parent_activitymoment <$> slots migrated.1
    = {[ 5 := Some 10; 6 := Some 11; 7 := Some 11 ]}
  ∧ recurrence_id <$> slots migrated.1
    = {[ 5 := Some 1700; 6 := Some 1000; 7 := Some 1000 ]}.
Proof. vm_compute. done. Qed.

Lemma forwards_links_every_slot_witness :
  forwards_func calendar = Returns (migrated.1, migrated.2)
  ∧ activities migrated.1 = activities calendar
  ∧ (∀ id slot, slots calendar !! id = Some slot → relinks calendar migrated.1 id slot)
  ∧ (∀ id, slots calendar !! id = None → slots migrated.1 !! id = None).
Proof.
  split; [exact calendar_forwards|].
  exact (forwards_links_every_slot calendar migrated.1 migrated.2 calendar_forwards).
Defined.

Lemma forwards_keeps_moments_witness :
  forwards_func calendar = Returns (migrated.1, migrated.2)
  ∧ moments calendar ⊆ moments migrated.1
  ∧ size (moments migrated.1) = (size (moments calendar) + length (created migrated.2))%nat
  ∧ (∀ mid, mid ∈ created migrated.2 →
       moments calendar !! mid = None ∧ is_Some (moments migrated.1 !! mid))
  ∧ NoDup (created migrated.2)
  ∧ (∀ mid, moments calendar !! mid = None → is_Some (moments migrated.1 !! mid) →
       mid ∈ created migrated.2).
Proof.
  split; [exact calendar_forwards|].
  exact (forwards_keeps_moments calendar migrated.1 migrated.2 calendar_forwards).
Defined.

Lemma forwards_returns_on_sound_data_witness :
  unique_moments (moments calendar)
  ∧ slots_have_activity calendar
  ∧ ∃ d' log, forwards_func calendar = Returns (d', log) ∧ unique_moments (moments d').
Proof.
  split; [exact calendar_unique|]. split; [exact calendar_sound|].
  exact (forwards_returns_on_sound_data calendar calendar_unique calendar_sound).
Defined.

Lemma forwards_shares_moments_witness :
  unique_moments (moments calendar)
  ∧ forwards_func calendar = Returns (migrated.1, migrated.2)
  ∧ slots calendar !! 6 = Some (old_slot "Chess" None)
  ∧ slots calendar !! 7 = Some (old_slot "Go" None)
  ∧ ∃ slot1' slot2' mid,
      slots migrated.1 !! 6 = Some slot1' ∧ slots migrated.1 !! 7 = Some slot2'
      ∧ parent_activitymoment slot1' = Some mid
      ∧ parent_activitymoment slot2' = Some mid.
Proof.
  assert (H6 : slots calendar !! 6 = Some (old_slot "Chess" None))
    by (vm_compute; reflexivity).
  assert (H7 : slots calendar !! 7 = Some (old_slot "Go" None))
    by (vm_compute; reflexivity).
  split; [exact calendar_unique|]. split; [exact calendar_forwards|].
  split; [exact H6|]. split; [exact H7|].
  exact (forwards_shares_moments calendar migrated.1 migrated.2 6 7 _ _
           calendar_unique calendar_forwards H6 H7 eq_refl eq_refl).
Defined.

Lemma backwards_restores_forwards_witness :
  forwards_func calendar = Returns (migrated.1, migrated.2)
  ∧ backwards_func (without_old_columns migrated.1) = Returns migrated.1.
Proof.
  split; [exact calendar_forwards|].
  exact (proj1 (backwards_restores_forwards calendar migrated.1 migrated.2
                  calendar_forwards)).
Defined.

Lemma forwards_twice_witness :
  unique_moments (moments calendar)
  ∧ forwards_func calendar = Returns (migrated.1, migrated.2)
  ∧ forwards_func migrated.1 = Returns (migrated.1, []).
Proof.
  split; [exact calendar_unique|]. split; [exact calendar_forwards|].
  exact (forwards_twice calendar migrated.1 migrated.2 calendar_unique calendar_forwards).
Defined.

Lemma forwards_rejects_duplicate_moments_witness :
  slots doubled_calendar !! 5 = Some (old_slot "Catan" (Some 1700))
  ∧ moments doubled_calendar !! 10 = Some first_evening
  ∧ moments doubled_calendar !! 12 = Some first_evening
  ∧ ∃ e, forwards_func doubled_calendar = Raises e.
Proof.
  assert (H5 : slots doubled_calendar !! 5 = Some (old_slot "Catan" (Some 1700)))
    by (vm_compute; reflexivity).
  assert (H10 : moments doubled_calendar !! 10 = Some first_evening)
    by (vm_compute; reflexivity).
  assert (H12 : moments doubled_calendar !! 12 = Some first_evening)
    by (vm_compute; reflexivity).
  split; [exact H5|]. split; [exact H10|]. split; [exact H12|].
  refine (forwards_rejects_duplicate_moments doubled_calendar 5 _ 1 1700 10 12 _ _
            H5 eq_refl eq_refl H10 H12 _ eq_refl eq_refl eq_refl eq_refl).
  lia.
Defined.

End migration_0023_examples.
